(** * V2Libraries: button engine, solenoid controller and device requests

  A shallow embedding of
  - [src/V2Base.h] (the microsecond counter helpers),
  - [src/Buttons/V2Buttons.cpp] and [src/V2Buttons.h] (button engine),
  - the [V2Solenoids] class template (solenoid power controller),
  - [V2Device::handleSystemExclusive] and [V2Device::writeConfiguration]
    of [src/Device/V2Device.cpp], with the static functions
    [utf8Codepoint] and [escapeJSON] of the same file,
  - [src/LED/Basic.cpp] (the status LED that [V2Device] drives),
  followed by the properties proved about them.

  Machine integers are [Z] with the wrap-around written out; the target is
  a 32-bit Arduino core, so [unsigned long] and [uint32_t] are both 32 bits
  wide and [uint8_t] is 8 bits wide. *)

From Stdlib Require Import ZArith Bool Lia.
From stdpp Require Import base list strings.

Local Open Scope Z_scope.

(** ** Machine words and the microsecond counter (V2Base.h) *)

Module Time.

Definition u32 (x : Z) : Z := x mod 2 ^ 32.
Definition u8 (x : Z) : Z := x mod 2 ^ 8.

(** [micros()] returns the low 32 bits of the time since start. *)
Definition micros (true_usec : Z) : Z := u32 true_usec.

(** [getUsecSince(since)] is [(uint32_t)(micros() - since)]; the first
    argument is the value [micros()] returns at the call. The inline
    [(unsigned long)(micros() - _usec)] of the button engine is the same
    expression. *)
Definition getUsecSince (now since : Z) : Z := u32 (now - since).

End Time.

(** ** The button engine (V2Buttons.h, V2Buttons.cpp) *)

Module Buttons.
Import Time.

Record Config := mkConfig {
  clickUsec : Z;
  holdUsec : Z
}.

Inductive State := Idle | WaitDown | Down | Hold | Up | Reset.

(** The protected virtual hooks a [Button::loop()] call may invoke. *)
Inductive Call :=
| handleDown
| handleUp
| handleClick (count : Z)
| handleHold (count : Z)
| handleRelease.

(** The fields of [class Button]; [_next] is the position in the list of
    the dispatcher, [_config] is a possibly null pointer. *)
Record Button := mkButton {
  _config : option Config;
  _pin : Z;
  _high : bool;
  _pushpull : bool;
  _state : State;
  _clicks : Z;
  _usec : Z;
  _event : Z;
  _busy : bool
}.

(** [constexpr Button(config, pin, high, pushpull)] with the default member
    initialisers. *)
Definition new_Button (config : option Config) (pin : Z) (high pushpull : bool)
  : Button :=
  mkButton config pin high pushpull Idle 0 0 0 false.

Definition getEvent (b : Button) : Z := _event b.

Definition set_state (s : State) (b : Button) : Button :=
  mkButton (_config b) (_pin b) (_high b) (_pushpull b) s
           (_clicks b) (_usec b) (_event b) (_busy b).
Definition set_clicks (c : Z) (b : Button) : Button :=
  mkButton (_config b) (_pin b) (_high b) (_pushpull b) (_state b)
           c (_usec b) (_event b) (_busy b).
Definition set_usec (u : Z) (b : Button) : Button :=
  mkButton (_config b) (_pin b) (_high b) (_pushpull b) (_state b)
           (_clicks b) u (_event b) (_busy b).
Definition set_event (e : Z) (b : Button) : Button :=
  mkButton (_config b) (_pin b) (_high b) (_pushpull b) (_state b)
           (_clicks b) (_usec b) e (_busy b).
Definition set_busy (y : bool) (b : Button) : Button :=
  mkButton (_config b) (_pin b) (_high b) (_pushpull b) (_state b)
           (_clicks b) (_usec b) (_event b) y.

(** What one [Button::loop()] call reads: the value [micros()] returns
    (every path of the function calls it at most once) and the level
    [digitalRead(_pin)] returns ([true] for HIGH). *)
Record Sample := mkSample {
  now : Z;
  level : bool
}.

(** [digitalRead(_pin) == _high ? HIGH : LOW] *)
Definition is_down (b : Button) (s : Sample) : bool :=
  Bool.eqb (level s) (_high b).

(** [_config && _config->holdUsec != 0], the negation of the test in
    [State::Down]. *)
Definition hold_enabled (b : Button) : option Z :=
  match _config b with
  | Some c => if holdUsec c =? 0 then None else Some (holdUsec c)
  | None => None
  end.

(** [_config && _config->clickUsec > 0] *)
Definition click_enabled (b : Button) : option Z :=
  match _config b with
  | Some c => if 0 <? clickUsec c then Some (clickUsec c) else None
  | None => None
  end.

(** [bool V2Buttons::Button::loop()]. [ev] is [_buttons.event]; the result
    is the new [_buttons.event], the button and the hooks called, in order.
    The C++ function returns [_busy] of the resulting button. *)
Definition Button_loop (ev : Z) (b : Button) (s : Sample)
  : Z * Button * list Call :=
  let down := is_down b s in
  match _state b with
  | Idle =>
      if down then
        (u32 (ev + 1),
         set_busy true (set_event ev (set_usec (now s) (set_state WaitDown b))),
         [])
      else (ev, b, [])
  | WaitDown =>
      if getUsecSince (now s) (_usec b) <? 5 * 1000 then (ev, b, [])
      else if down then (ev, set_state Down b, [handleDown])
      else (ev, set_state Reset b, [])
  | Down =>
      if down then
        match hold_enabled b with
        | None => (ev, set_busy false b, [])
        | Some hold =>
            if getUsecSince (now s) (_usec b) <? hold then (ev, b, [])
            else (ev, set_state Hold b, [handleHold (_clicks b)])
        end
      else (ev, set_busy true (set_usec (now s) (set_state Up b)), [])
  | Hold =>
      if down then (ev, set_busy false b, [])
      else (ev, set_busy true (set_state Reset b), [handleRelease; handleUp])
  | Up =>
      let finish :=
        (ev, set_state Reset b, [handleClick (_clicks b); handleUp]) in
      match click_enabled b with
      | Some click =>
          if down then
            (ev,
             set_usec (now s) (set_clicks (u8 (_clicks b + 1)) (set_state Down b)),
             [])
          else if getUsecSince (now s) (_usec b) <? click then (ev, b, [])
          else finish
      | None => finish
      end
  | Reset =>
      (ev, set_event 0 (set_busy false (set_clicks 0 (set_state Idle b))), [])
  end.

(** Successive [loop()] calls of one button, one sample per call. *)
Fixpoint run (ev : Z) (b : Button) (tr : list Sample) : Z * Button * list Call :=
  match tr with
  | [] => (ev, b, [])
  | s :: tr' =>
      let '(ev1, b1, c1) := Button_loop ev b s in
      let '(ev2, b2, c2) := run ev1 b1 tr' in
      (ev2, b2, c1 ++ c2)
  end.

(** The process-wide [_buttons] structure; [list] holds the registered
    buttons, most recently registered first. *)
Record Globals := mkGlobals {
  g_usec : Z;
  g_event : Z;
  g_list : list Button;
  g_busy : bool
}.

(** [_buttons{}] with [busy{true}]. *)
Definition _buttons : Globals := mkGlobals 0 0 [] true.

Definition pinInterrupt (g : Globals) : Globals :=
  mkGlobals (g_usec g) (g_event g) (g_list g) true.

(** What the engine does to the outside, in program order. *)
Inductive PinModeArg := INPUT | INPUT_PULLUP | INPUT_PULLDOWN.

Inductive Effect :=
| PinMode (pin : Z) (mode : PinModeArg)
| AttachInterrupt (pin : Z)
| DigitalRead (pin : Z)
| Hook (pin : Z) (c : Call).

(** [void V2Buttons::Button::begin()] *)
Definition begin (g : Globals) (b : Button) : Globals * list Effect :=
  (mkGlobals (g_usec g) (g_event g) (b :: g_list g) (g_busy g),
   [PinMode (_pin b)
      (if negb (_pushpull b)
       then (if _high b then INPUT_PULLDOWN else INPUT_PULLUP)
       else INPUT);
    AttachInterrupt (_pin b)]).

(** The [for] loop of [V2Buttons::loop()] from list position [i] on;
    [env i] is what the button at position [i] reads in its [loop()]. *)
Fixpoint scan (ev : Z) (bs : list Button) (env : nat -> Sample) (i : nat)
         (busy : bool) : Z * list Button * list Effect * bool :=
  match bs with
  | [] => (ev, [], [], busy)
  | b :: bs' =>
      let '(ev1, b1, calls) := Button_loop ev b (env i) in
      let busy1 := if _busy b1 then true else busy in
      let '(ev2, bs2, log, busy2) := scan ev1 bs' env (S i) busy1 in
      (ev2, b1 :: bs2,
       DigitalRead (_pin b) :: map (Hook (_pin b)) calls ++ log,
       busy2)
  end.

(** [void V2Buttons::loop()]; [t1] and [t2] are the values of its two
    [micros()] calls. *)
Definition V2Buttons_loop (g : Globals) (t1 t2 : Z) (env : nat -> Sample)
  : Globals * list Effect :=
  if negb (g_busy g) then (g, [])
  else if getUsecSince t1 (g_usec g) <? 1000 then (g, [])
  else
    let '(ev, bs, log, busy) := scan (g_event g) (g_list g) env 0 false in
    (mkGlobals t2 ev bs busy, log).

(** What happens to the engine over time: a pin interrupt or a call of the
    dispatcher from the main loop. *)
Inductive Tick :=
| Interrupt
| LoopCall (t1 t2 : Z) (env : nat -> Sample).

Definition tick (g : Globals) (k : Tick) : Globals * list Effect :=
  match k with
  | Interrupt => (pinInterrupt g, [])
  | LoopCall t1 t2 env => V2Buttons_loop g t1 t2 env
  end.

Fixpoint ticks (g : Globals) (ks : list Tick) : Globals * list Effect :=
  match ks with
  | [] => (g, [])
  | k :: ks' =>
      let '(g1, l1) := tick g k in
      let '(g2, l2) := ticks g1 ks' in
      (g2, l1 ++ l2)
  end.

(** The pins read while a log was produced, in order. *)
Definition pins_read (log : list Effect) : list Z :=
  omap (fun e => match e with DigitalRead p => Some p | _ => None end) log.

(** A [loop()] call wakes the button: it is idle and its pin is asserted. *)
Definition wakes (b : Button) (s : Sample) : bool :=
  match _state b with
  | Idle => is_down b s
  | _ => false
  end.

(** [loop()] calls of arbitrary buttons in an arbitrary order; only
    [_buttons.event] connects them, and the result is its final value. *)
Fixpoint interleave (ev : Z) (steps : list (Button * Sample)) : Z :=
  match steps with
  | [] => ev
  | (b, s) :: steps' => interleave (Button_loop ev b s).1.1 steps'
  end.

Definition wake_count (steps : list (Button * Sample)) : Z :=
  Z.of_nat (length (filter (fun x => wakes x.1 x.2 = true) steps)).

(** Interrupts and rate-limited calls after the flag is set. *)
Definition early (g : Globals) (k : Tick) : Prop :=
  match k with
  | Interrupt => True
  | LoopCall t1 _ _ => getUsecSince t1 (g_usec g) < 1000
  end.

(** *** Sample sequences, read as presses and releases

    What a sequence of samples shows of the physical button, told without
    the engine: the pin is pressed since some reading, released since some
    reading, or held long. [n] counts the presses still to come, the current
    one included. *)
Inductive Phase :=
| Pressed (since : Z)
| Released (since : Z)
| Holding.

(** How the sequence ends: the click window runs out after the last
    release, or the last press is held for the hold time and then released. *)
Inductive Ending := EndClick | EndHold.

Definition asserted (high : bool) (s : Sample) : bool := Bool.eqb (level s) high.

Definition hold_due (hold : option Z) (dt : Z) : bool :=
  match hold with
  | Some h => h <=? dt
  | None => false
  end.

Definition in_window (click : option Z) (dt : Z) : bool :=
  match click with
  | Some c => dt <? c
  | None => false
  end.

(** [train high hold click e p n tr]: starting in phase [p], the samples
    [tr] show [n] presses (the current one included), each released before
    the hold time and pressed again within the click window, and then end as
    [e] says: for [EndClick] the last release is followed by a sample taken
    when the click window has run out; for [EndHold] the last press is
    sampled when the hold time has passed, stays asserted and is released
    at the last sample. *)
Fixpoint train (high : bool) (hold click : option Z) (e : Ending)
         (p : Phase) (n : nat) (tr : list Sample) : bool :=
  match tr with
  | [] => false
  | s :: tr' =>
      match p with
      | Pressed since =>
          if asserted high s then
            if hold_due hold (getUsecSince (now s) since) then
              match e, n with
              | EndHold, 1%nat => train high hold click e Holding n tr'
              | _, _ => false
              end
            else train high hold click e (Pressed since) n tr'
          else
            match n with
            | S n' => train high hold click e (Released (now s)) n' tr'
            | O => false
            end
      | Released since =>
          if asserted high s then
            match n with
            | S _ =>
                in_window click (getUsecSince (now s) since)
                && train high hold click e (Pressed (now s)) n tr'
            | O => false
            end
          else if in_window click (getUsecSince (now s) since) then
            train high hold click e (Released since) n tr'
          else
            match e, n, tr' with
            | EndClick, O, [] => true
            | _, _, _ => false
            end
      | Holding =>
          if asserted high s then train high hold click e Holding n tr'
          else match tr' with [] => true | _ => false end
      end
  end.

(** A whole interaction from the idle button on: the sample [s0] that shows
    the first press, samples [pre] taken within the 5000 microseconds of
    debouncing (showing anything), the sample [d] that shows the pin still
    asserted when they have passed, and a train [tr] of [n] presses. *)
Definition interaction (high : bool) (hold click : option Z) (e : Ending)
           (n : nat) (s0 : Sample) (pre : list Sample) (d : Sample)
           (tr : list Sample) : bool :=
  asserted high s0
  && forallb (fun x => getUsecSince (now x) (now s0) <? 5000) pre
  && (5000 <=? getUsecSince (now d) (now s0))
  && asserted high d
  && train high hold click e (Pressed (now s0)) n tr.

(** The samples of [n] quick clicks of an active-low button that is pressed
    at [t]: each press is sampled released after 10 ms and pressed again
    2 ms later; the last release is followed by one sample 300 ms after
    it. *)
Fixpoint quick_clicks (n : nat) (t : Z) : list Sample :=
  match n with
  | O => []
  | S n' =>
      mkSample (t + 10000) true ::
      match n' with
      | O => [mkSample (t + 310000) true]
      | S _ => mkSample (t + 12000) false :: quick_clicks n' (t + 12000)
      end
  end.

(** The machine state that goes with a phase. *)
Definition agrees (b : Button) (p : Phase) : Prop :=
  match p with
  | Pressed since => _state b = Down /\ _usec b = since
  | Released since => _state b = Up /\ _usec b = since
  | Holding => _state b = Hold
  end.

(** The hooks an ending calls, with the click count it passes. *)
Definition ending_calls (e : Ending) (count : Z) : list Call :=
  match e with
  | EndClick => [handleClick count; handleUp]
  | EndHold => [handleHold count; handleRelease; handleUp]
  end.

(** The hooks still to be called in phase [p] with [n] presses to come and
    [c] clicks counted so far. *)
Definition calls_from (e : Ending) (p : Phase) (c : Z) (n : nat) : list Call :=
  match p with
  | Pressed _ => ending_calls e (u8 (c + Z.of_nat n - 1))
  | Released _ => ending_calls e (u8 (c + Z.of_nat n))
  | Holding => [handleRelease; handleUp]
  end.


(** *** The order of the hooks, and when the engine may sleep *)

(** Where a button is between the hooks of one press: no press reported,
    [handleDown] called, or [handleHold] called. *)
Inductive Bracket := Outside | Inside | Held.

Definition bracket_of (s : State) : Bracket :=
  match s with
  | Idle | WaitDown | Reset => Outside
  | Down | Up => Inside
  | Hold => Held
  end.

(** The hooks come in press brackets: [handleDown], then either
    [handleClick] followed at once by [handleUp], or [handleHold] and later
    [handleRelease] followed at once by [handleUp]. [k] is where the
    sequence starts; it may stop anywhere between two calls of [loop()]. *)
Fixpoint well_bracketed (k : Bracket) (cs : list Call) : bool :=
  match cs with
  | [] => true
  | handleDown :: cs' =>
      match k with Outside => well_bracketed Inside cs' | _ => false end
  | handleClick _ :: handleUp :: cs' =>
      match k with Inside => well_bracketed Outside cs' | _ => false end
  | handleHold _ :: cs' =>
      match k with Inside => well_bracketed Held cs' | _ => false end
  | handleRelease :: handleUp :: cs' =>
      match k with Held => well_bracketed Outside cs' | _ => false end
  | _ => false
  end.

(** The count a hook passes, if it passes one. *)
Definition count_of (c : Call) : option Z :=
  match c with
  | handleClick n | handleHold n => Some n
  | _ => None
  end.

Definition is_hold_hook (c : Call) : bool :=
  match c with
  | handleHold _ | handleRelease => true
  | _ => false
  end.

(** Only a change of the pin level can make the button act: it is idle, or
    pressed with no hold time to wait for, or held. In every other state a
    timer runs: debouncing, the hold time, the click window, or the reset
    is due. *)
Definition waits_for_pin (b : Button) : Prop :=
  match _state b with
  | Idle | Hold => True
  | Down => hold_enabled b = None
  | _ => False
  end.

(** A button whose timer runs says that it is busy. *)
Definition timed_is_busy (b : Button) : Prop :=
  _busy b = false -> waits_for_pin b.

(** [begin()] called for each of [bs] in turn, from the initial
    [_buttons]. *)
Definition registered (bs : list Button) : Globals :=
  foldl (fun g b => (begin g b).1) _buttons bs.

(** The pin of the button at position [i] of [bs] reads as not asserted. *)
Definition at_rest (bs : list Button) (env : nat -> Sample) : Prop :=
  forall i b, bs !! i = Some b -> is_down b (env i) = false.


(** The engine sleeps only with every button waiting for its pin. *)
Definition sleeps_well (g : Globals) : Prop :=
  Forall timed_is_busy (g_list g)
  /\ (g_busy g = false -> Forall waits_for_pin (g_list g)).

End Buttons.

(** ** The solenoid power controller (template class V2Solenoids<nPorts>) *)

Module Solenoids.
Import Time.

(** The [float] arithmetic the controller uses. The controller is embedded
    over any implementation of it; nothing proved below depends on rounding.
    [lit m e] is the decimal literal [m * 10^e]; [flt] and [fle] are [<] and
    [<=] ([a > b] is [flt b a]); [to_u32] is the conversion of a [float] to
    [uint32_t]. *)
Class Float (F : Type) := {
  lit : Z -> Z -> F;
  fadd : F -> F -> F;
  fsub : F -> F -> F;
  fmul : F -> F -> F;
  fdiv : F -> F -> F;
  fsqrt : F -> F;
  flt : F -> F -> bool;
  fle : F -> F -> bool;
  to_u32 : F -> Z
}.

Inductive PowerState := On | Off.

Inductive LEDMode :=
| LedOff | LedInitialize | LedReady | LedResistance | LedPower
| LedShortCircuit | LedOverCurrent.

Inductive ProbeState := Init | Settle | Measure | Sleep.
Inductive DriverState := Idle | FadeIn | Peak | Hold | FadeOut.
Inductive CoilState := NotConnected | Connected | ShortCircuit.

(** The [_probe] member. [port] and [cycle] are [uint8_t]. *)
Record Probe := mkProbe {
  p_state : ProbeState;
  settleUsec : Z;
  p_port : nat;
  measureUsec : Z;
  sleepUsec : Z;
  cycle : Z;
  ready : bool
}.

(** [_probe = {}] *)
Definition Probe0 : Probe := mkProbe Init 0 0 0 0 0 false.

Section Controller.
Context {F : Type} {FloatF : Float F}.

Definition f0 : F := lit 0 0.
Definition f1 : F := lit 1 0.
Definition fgt (a b : F) : bool := flt b a.
Definition fge (a b : F) : bool := fle b a.

Record Configuration := mkConfiguration {
  current_max : F;
  current_alpha : F;
  resistance_min : F;
  resistance_max : F;
  fade_inSec : F;
  fade_outSec : F;
  hold_peakUsec : Z;
  hold_fraction : F
}.

(** The [pulse] member of a port. *)
Record Pulse := mkPulse {
  startUsec : Z;
  peekUsec : Z;
  durationUsec : Z;
  fadeIn : bool;
  fadeOut : bool;
  duty_target : F;
  duty_delta : F
}.

(** [pulse = {}] *)
Definition Pulse0 : Pulse := mkPulse 0 0 0 false false f0 f0.

(** One element of [_ports]; [m_] fields are the [measure] member. *)
Record Port := mkPort {
  state : DriverState;
  duty : F;
  m_state : CoilState;
  m_resistance : F;
  m_voltage : F;
  pulse : Pulse
}.

(** What the controller asks of its subclass: the pure virtual functions.
    The value a call returns is given by the number of calls made before
    it, so successive readings may differ in any way. *)
Record Hardware := mkHardware {
  micros_at : nat -> Z;
  readVoltage_at : nat -> F;
  readCurrent_at : nat -> F;
  readResistanceVoltage_at : nat -> F;
  setPower_at : nat -> bool
}.

(** What the controller does to the hardware. *)
Inductive Output :=
| SetPower (s : PowerState)
| SetPWMDuty (port : nat) (d : F)
| SetLED (mode : LEDMode) (port : nat) (value : F).

(** The object: the data members of the class, then the calls made so far
    and the outputs so far (oldest first). [nPorts] is [length _ports]. *)
Record V2Solenoids := mkSolenoids {
  _config : Configuration;
  _loopUsec : Z;
  _powerUsec : Z;
  _timeoutUsec : Z;
  _probe : Probe;
  _current : F;
  _ports : list Port;
  calls : nat;
  outputs : list Output
}.

(** The template parameter [nPorts]. *)
Definition nPorts (s : V2Solenoids) : nat := length (_ports s).

(** A zero-initialised port, what [_ports[nPorts]{}] holds. *)
Definition Port0 : Port := mkPort Idle f0 NotConnected f0 f0 Pulse0.

Definition set_loopUsec (x : Z) (s : V2Solenoids) : V2Solenoids :=
  mkSolenoids (_config s) x (_powerUsec s) (_timeoutUsec s) (_probe s)
              (_current s) (_ports s) (calls s) (outputs s).
Definition set_powerUsec (x : Z) (s : V2Solenoids) : V2Solenoids :=
  mkSolenoids (_config s) (_loopUsec s) x (_timeoutUsec s) (_probe s)
              (_current s) (_ports s) (calls s) (outputs s).
Definition set_timeoutUsec (x : Z) (s : V2Solenoids) : V2Solenoids :=
  mkSolenoids (_config s) (_loopUsec s) (_powerUsec s) x (_probe s)
              (_current s) (_ports s) (calls s) (outputs s).
Definition set_probe (x : Probe) (s : V2Solenoids) : V2Solenoids :=
  mkSolenoids (_config s) (_loopUsec s) (_powerUsec s) (_timeoutUsec s) x
              (_current s) (_ports s) (calls s) (outputs s).
Definition set_current (x : F) (s : V2Solenoids) : V2Solenoids :=
  mkSolenoids (_config s) (_loopUsec s) (_powerUsec s) (_timeoutUsec s)
              (_probe s) x (_ports s) (calls s) (outputs s).
Definition set_ports (x : list Port) (s : V2Solenoids) : V2Solenoids :=
  mkSolenoids (_config s) (_loopUsec s) (_powerUsec s) (_timeoutUsec s)
              (_probe s) (_current s) x (calls s) (outputs s).
Definition called (s : V2Solenoids) : V2Solenoids :=
  mkSolenoids (_config s) (_loopUsec s) (_powerUsec s) (_timeoutUsec s)
              (_probe s) (_current s) (_ports s) (S (calls s)) (outputs s).
Definition emitted (o : Output) (s : V2Solenoids) : V2Solenoids :=
  mkSolenoids (_config s) (_loopUsec s) (_powerUsec s) (_timeoutUsec s)
              (_probe s) (_current s) (_ports s) (calls s) (outputs s ++ [o]).

Definition set_state (x : DriverState) (p : Port) : Port :=
  mkPort x (duty p) (m_state p) (m_resistance p) (m_voltage p) (pulse p).
Definition set_duty (x : F) (p : Port) : Port :=
  mkPort (state p) x (m_state p) (m_resistance p) (m_voltage p) (pulse p).
Definition set_m_state (x : CoilState) (p : Port) : Port :=
  mkPort (state p) (duty p) x (m_resistance p) (m_voltage p) (pulse p).
Definition set_m_resistance (x : F) (p : Port) : Port :=
  mkPort (state p) (duty p) (m_state p) x (m_voltage p) (pulse p).
Definition set_m_voltage (x : F) (p : Port) : Port :=
  mkPort (state p) (duty p) (m_state p) (m_resistance p) x (pulse p).
Definition set_pulse (x : Pulse) (p : Port) : Port :=
  mkPort (state p) (duty p) (m_state p) (m_resistance p) (m_voltage p) x.

Definition set_startUsec (x : Z) (q : Pulse) : Pulse :=
  mkPulse x (peekUsec q) (durationUsec q) (fadeIn q) (fadeOut q)
          (duty_target q) (duty_delta q).
Definition set_durationUsec (x : Z) (q : Pulse) : Pulse :=
  mkPulse (startUsec q) (peekUsec q) x (fadeIn q) (fadeOut q)
          (duty_target q) (duty_delta q).
Definition set_fadeIn (x : bool) (q : Pulse) : Pulse :=
  mkPulse (startUsec q) (peekUsec q) (durationUsec q) x (fadeOut q)
          (duty_target q) (duty_delta q).
Definition set_fadeOut (x : bool) (q : Pulse) : Pulse :=
  mkPulse (startUsec q) (peekUsec q) (durationUsec q) (fadeIn q) x
          (duty_target q) (duty_delta q).
Definition set_duty_target (x : F) (q : Pulse) : Pulse :=
  mkPulse (startUsec q) (peekUsec q) (durationUsec q) (fadeIn q) (fadeOut q)
          x (duty_delta q).
Definition set_peekUsec (x : Z) (q : Pulse) : Pulse :=
  mkPulse (startUsec q) x (durationUsec q) (fadeIn q) (fadeOut q)
          (duty_target q) (duty_delta q).
Definition set_duty_delta (x : F) (q : Pulse) : Pulse :=
  mkPulse (startUsec q) (peekUsec q) (durationUsec q) (fadeIn q) (fadeOut q)
          (duty_target q) x.

Definition set_p_state (x : ProbeState) (q : Probe) : Probe :=
  mkProbe x (settleUsec q) (p_port q) (measureUsec q) (sleepUsec q)
          (cycle q) (ready q).
Definition set_settleUsec (x : Z) (q : Probe) : Probe :=
  mkProbe (p_state q) x (p_port q) (measureUsec q) (sleepUsec q)
          (cycle q) (ready q).
Definition set_p_port (x : nat) (q : Probe) : Probe :=
  mkProbe (p_state q) (settleUsec q) x (measureUsec q) (sleepUsec q)
          (cycle q) (ready q).
Definition set_measureUsec (x : Z) (q : Probe) : Probe :=
  mkProbe (p_state q) (settleUsec q) (p_port q) x (sleepUsec q)
          (cycle q) (ready q).
Definition set_sleepUsec (x : Z) (q : Probe) : Probe :=
  mkProbe (p_state q) (settleUsec q) (p_port q) (measureUsec q) x
          (cycle q) (ready q).
Definition set_cycle (x : Z) (q : Probe) : Probe :=
  mkProbe (p_state q) (settleUsec q) (p_port q) (measureUsec q) (sleepUsec q)
          x (ready q).
Definition set_ready (x : bool) (q : Probe) : Probe :=
  mkProbe (p_state q) (settleUsec q) (p_port q) (measureUsec q) (sleepUsec q)
          (cycle q) x.

(** *** Member functions as state transformers *)

Definition M (A : Type) : Type := V2Solenoids -> A * V2Solenoids.

#[local] Instance M_ret : MRet M := fun A x s => (x, s).
#[local] Instance M_bind : MBind M :=
  fun A B f m s => let '(x, s') := m s in f x s'.

Definition gets {A} (f : V2Solenoids -> A) : M A := fun s => (f s, s).
Definition modify (f : V2Solenoids -> V2Solenoids) : M unit :=
  fun s => (tt, f s).
Definition skip : M unit := mret tt.
Definition when (c : bool) (m : M unit) : M unit :=
  if c then m else skip.

Variable hw : Hardware.

(** The capabilities. *)
Definition getUsec : M Z :=
  fun s => (micros_at hw (calls s), called s).
Definition getUsecSince (since : Z) : M Z :=
  t ← getUsec; mret (Time.getUsecSince t since).
Definition readVoltage : M F :=
  fun s => (readVoltage_at hw (calls s), called s).
Definition readCurrent : M F :=
  fun s => (readCurrent_at hw (calls s), called s).
Definition readResistanceVoltage : M F :=
  fun s => (readResistanceVoltage_at hw (calls s), called s).
Definition setPower (st : PowerState) : M bool :=
  fun s => (setPower_at hw (calls s), called (emitted (SetPower st) s)).
Definition setPWMDuty (port : nat) (d : F) : M unit :=
  modify (emitted (SetPWMDuty port d)).
(** [setLED(state, port = 0, value = -1)] *)
Definition setLED (mode : LEDMode) (port : nat) (value : F) : M unit :=
  modify (emitted (SetLED mode port value)).
Definition no_value : F := lit (-1) 0.

(** [_ports[i]], read and written. An index outside the array is undefined
    behaviour in C++; here it reads [Port0] and writes nothing. *)
Definition port_at (i : nat) : M Port :=
  gets (fun s => default Port0 (_ports s !! i)).
Definition update_port (i : nat) (f : Port -> Port) : M unit :=
  modify (fun s => set_ports (alter f i (_ports s)) s).
Definition update_probe (f : Probe -> Probe) : M unit :=
  modify (fun s => set_probe (f (_probe s)) s).

(** [for (uint8_t i = 0; i < nPorts; i++) body(i)] *)
Fixpoint for_each (l : list nat) (body : nat -> M unit) : M unit :=
  match l with
  | [] => skip
  | i :: l' => body i;; for_each l' body
  end.
Definition for_ports (body : nat -> M unit) : M unit :=
  fun s => for_each (seq 0 (nPorts s)) body s.

(** [void updateLED(uint8_t port, bool force = false)] *)
Definition updateLED (port : nat) (force : bool) : M unit :=
  timeout ← gets _timeoutUsec;
  if negb force && (timeout =? 0) then setLED LedOff port no_value
  else
    p ← port_at port;
    max ← gets (fun s => resistance_max (_config s));
    match m_state p with
    | NotConnected => setLED LedOff port no_value
    | Connected =>
        setLED LedResistance port (fsub f1 (fdiv (m_resistance p) max))
    | ShortCircuit => setLED LedShortCircuit port no_value
    end.

(** [void releasePort(uint8_t port)] *)
Definition releasePort (port : nat) : M unit :=
  setPWMDuty port f0;;
  update_port port (set_state Idle);;
  update_port port (set_duty f0);;
  update_port port (set_pulse Pulse0);;
  updateLED port false.

(** [bool fadeOutPort(uint8_t port)] *)
Definition fadeOutPort (port : nat) : M bool :=
  p ← port_at port;
  if negb (fadeOut (pulse p)) then (mret false : M bool)
  else if flt (duty p) (lit 1 (-2)) then mret false
  else
    outSec ← gets (fun s => fade_outSec (_config s));
    update_port port (fun p =>
      set_pulse (set_duty_delta (fdiv (duty p) (fmul outSec (lit 1000 0)))
                                (pulse p)) p);;
    update_port port (set_state FadeOut);;
    mret true.

(** [void measureCurrent()] *)
Definition measureCurrent : M unit :=
  alpha ← gets (fun s => current_alpha (_config s));
  if fgt alpha f0 then
    modify (fun s => set_current (fmul (_current s) (fsub f1 alpha)) s);;
    c ← readCurrent;
    modify (fun s => set_current (fadd (_current s) (fmul c alpha)) s)
  else
    c ← readCurrent;
    modify (set_current c).

(** [float wattsToPWMDuty(uint8_t port, float watts)] *)
Definition wattsToPWMDuty (port : nat) (watts : F) : M F :=
  supply ← readVoltage;
  p ← port_at port;
  let voltage := fsqrt (fmul watts (m_resistance p)) in
  let voltage := if fgt voltage supply then supply else voltage in
  mret (fdiv voltage supply).

Definition CoilState_eqb (a b : CoilState) : bool :=
  match a, b with
  | NotConnected, NotConnected | Connected, Connected
  | ShortCircuit, ShortCircuit => true
  | _, _ => false
  end.

(** [void measureResistance()] *)
Definition measureResistance : M unit :=
  voltage ← readResistanceVoltage;
  port ← gets (fun s => p_port (_probe s));
  p ← port_at port;
  when (flt (m_voltage p) f0) (update_port port (set_m_voltage voltage));;
  let alpha := lit 3 (-1) in
  update_port port (fun p => set_m_voltage (fmul (m_voltage p) (fsub f1 alpha)) p);;
  update_port port (fun p => set_m_voltage (fadd (m_voltage p) (fmul voltage alpha)) p);;
  let r1 := lit 100 0 in
  let vIn := lit 33 (-1) in
  p ← port_at port;
  let vOut := m_voltage p in
  let resistance := fdiv (fmul (fsub vOut (lit 3 (-1))) r1) (fsub vIn vOut) in
  update_port port (set_m_resistance resistance);;
  cfg ← gets _config;
  let st :=
    if fgt resistance (resistance_max cfg) then NotConnected
    else if flt resistance (resistance_min cfg) then ShortCircuit
    else Connected in
  when (negb (CoilState_eqb st (m_state p)))
       (update_port port (set_m_state st);;
        t ← getUsec;
        modify (set_timeoutUsec t));;
  updateLED port false.

(** [{.measure{.resistance{-1}, .voltage{-1}}}] *)
Definition fresh_port : Port :=
  mkPort Idle f0 NotConnected (lit (-1) 0) (lit (-1) 0) Pulse0.

(** [void reset()] *)
Definition reset : M unit :=
  setPower Off;;
  modify (set_loopUsec 0);;
  modify (set_powerUsec 0);;
  t ← getUsec;
  modify (set_timeoutUsec t);;
  modify (set_probe Probe0);;
  modify (set_current f0);;
  for_ports (fun i =>
    update_port i (fun _ => fresh_port);;
    setPWMDuty i f0;;
    updateLED i false).

(** The body of the [for] loop over the ports in [loop()], for a port that
    is not idle. *)
Definition drive_port (i : nat) : M unit :=
  p ← port_at i;
  match state p with
  | Idle => skip
  | FadeIn =>
      update_port i (fun p => set_duty (fadd (duty p) (duty_delta (pulse p))) p);;
      p ← port_at i;
      setPWMDuty i (duty p);;
      when (fge (duty p) (duty_target (pulse p)))
           (t ← getUsec;
            update_port i (fun p => set_pulse (set_peekUsec t (pulse p)) p);;
            update_port i (set_state Peak))
  | Peak =>
      cfg ← gets _config;
      dt ← getUsecSince (peekUsec (pulse p));
      if hold_peakUsec cfg <? dt then
        update_port i (fun p => set_duty (fmul (duty p) (hold_fraction cfg)) p);;
        p ← port_at i;
        setPWMDuty i (duty p);;
        update_port i (set_state Hold)
      else
        dt ← getUsecSince (startUsec (pulse p));
        if dt <? durationUsec (pulse p) then skip
        else
          fading ← fadeOutPort i;
          when (negb fading) (releasePort i)
  | Hold =>
      dt ← getUsecSince (startUsec (pulse p));
      if dt <? durationUsec (pulse p) then skip
      else
        fading ← fadeOutPort i;
        when (negb fading) (releasePort i)
  | FadeOut =>
      update_port i (fun p => set_duty (fsub (duty p) (duty_delta (pulse p))) p);;
      p ← port_at i;
      if fle (duty p) f0 then releasePort i
      else setPWMDuty i (duty p)
  end.

(** The [switch (_probe.state)] at the end of [loop()]. *)
Definition probe_step : M unit :=
  probe ← gets _probe;
  n ← gets nPorts;
  match p_state probe with
  | Init =>
      t ← getUsec;
      update_probe (set_settleUsec t);;
      update_probe (set_p_state Settle);;
      when (negb (ready probe))
           (update_probe (set_cycle 0);;
            setLED LedInitialize 0 no_value)
  | Settle =>
      dt ← getUsecSince (settleUsec probe);
      if dt <? 200 * 1000 then skip
      else
        setPWMDuty (p_port probe) f1;;
        t ← getUsec;
        update_probe (set_measureUsec t);;
        update_probe (set_p_state Measure)
  | Measure =>
      dt ← getUsecSince (measureUsec probe);
      if dt <? 10 * 1000 then skip
      else
        measureResistance;;
        setPWMDuty (p_port probe) f0;;
        update_probe (fun q => set_p_port ((p_port q + 1) mod 256)%nat q);;
        port ← gets (fun s => p_port (_probe s));
        when (port =? n)%nat
             (update_probe (set_p_port 0);;
              when (negb (ready probe))
                   (update_probe (fun q => set_cycle (u8 (cycle q + 1)) q);;
                    cyc ← gets (fun s => cycle (_probe s));
                    when (10 <? cyc)
                         (update_probe (set_ready true);;
                          setLED LedReady 0 no_value)));;
        timeout ← gets _timeoutUsec;
        if timeout =? 0 then
          t ← getUsec;
          update_probe (set_sleepUsec t);;
          update_probe (set_p_state Sleep)
        else
          port ← gets (fun s => p_port (_probe s));
          setPWMDuty port f1;;
          t ← getUsec;
          update_probe (set_measureUsec t)
  | Sleep =>
      dt ← getUsecSince (sleepUsec probe);
      if dt <? 1000 * 1000 then skip
      else
        setPWMDuty (p_port probe) f1;;
        t ← getUsec;
        update_probe (set_measureUsec t);;
        update_probe (set_p_state Measure)
  end.

Definition DriverState_is_idle (d : DriverState) : bool :=
  match d with Idle => true | _ => false end.

(** The [for] loop over the ports in [loop()]; the result is [busy]. *)
Fixpoint drive_ports (l : list nat) (busy : bool) : M bool :=
  match l with
  | [] => mret busy
  | i :: l' =>
      p ← port_at i;
      if DriverState_is_idle (state p) then drive_ports l' busy
      else drive_port i;; drive_ports l' true
  end.

(** The parts of [loop()], in program order: switching the LEDs off after
    60 s without activity, *)
Definition blank_leds : M unit :=
  timeout ← gets _timeoutUsec;
  if 0 <? timeout then
    dt ← getUsecSince timeout;
    when (60 * 1000 * 1000 <? dt)
         (modify (set_timeoutUsec 0);;
          for_ports (fun i => updateLED i false))
  else skip.

(** the block taken when [_current > _config.current.max], *)
Definition shutdown : M unit :=
  for_ports releasePort;;
  modify (set_probe Probe0);;
  setLED LedOverCurrent 0 no_value.

(** and the delayed power-off followed by the resistance probe. *)
Definition power_off_and_probe : M unit :=
  powerUsec ← gets _powerUsec;
  if 0 <? powerUsec then
    dt ← getUsecSince powerUsec;
    if dt <? 200 * 1000 then skip
    else
      setPower Off;;
      modify (set_powerUsec 0);;
      probe_step
  else probe_step.

(** [void loop()] *)
Definition loop : M unit :=
  loopUsec ← gets _loopUsec;
  dt ← getUsecSince loopUsec;
  if dt <? 1000 then skip
  else
    t ← getUsec;
    modify (set_loopUsec t);;
    blank_leds;;
    n ← gets nPorts;
    busy ← drive_ports (seq 0 n) false;
    measureCurrent;;
    current ← gets _current;
    cfg ← gets _config;
    if fgt current (current_max cfg) then shutdown
    else if (busy : bool) then skip
    else power_off_and_probe.

Definition in_pulse (f : Pulse -> Pulse) (p : Port) : Port :=
  set_pulse (f (pulse p)) p.

Definition ProbeState_is_init (x : ProbeState) : bool :=
  match x with Init => true | _ => false end.

(** [void triggerPort(uint8_t port, float watts, float seconds,
                      bool fadeIn = false, bool fadeOut = false)] *)
Definition triggerPort (port : nat) (watts seconds : F)
           (fade_in fade_out : bool) : M unit :=
  probe ← gets _probe;
  if negb (ready probe) then skip
  else if fle watts f0 || fle seconds f0 then
    if negb fade_out then releasePort port
    else
      fading ← fadeOutPort port;
      when (negb fading) (releasePort port)
  else
    p ← port_at port;
    if negb (CoilState_eqb (m_state p) Connected) then skip
    else
      current ← gets _current;
      cfg ← gets _config;
      if fgt current (current_max cfg) then skip
      else
        when (negb (ProbeState_is_init (p_state probe)))
             (update_probe (set_p_state Init);;
              releasePort (p_port probe));;
        t ← getUsec;
        update_port port (in_pulse (set_startUsec t));;
        update_port port
          (in_pulse (set_durationUsec
                       (to_u32 (fmul (fmul seconds (lit 1000 0)) (lit 1000 0)))));;
        update_port port (in_pulse (set_fadeIn fade_in));;
        update_port port (in_pulse (set_fadeOut fade_out));;
        target ← wattsToPWMDuty port watts;
        update_port port (in_pulse (set_duty_target target));;
        timeout ← gets _timeoutUsec;
        when (timeout =? 0) (for_ports (fun i => updateLED i true));;
        t ← getUsec;
        modify (set_timeoutUsec t);;
        ok ← setPower On;
        if negb ok then skip
        else
          t ← getUsec;
          modify (set_powerUsec t);;
          p ← port_at port;
          (if fade_in && fgt (duty_target (pulse p)) (lit 1 (-2))
              && flt (duty p) (duty_target (pulse p))
           then
             let msec := fmul (fade_inSec cfg) (lit 1000 0) in
             let msec :=
               if fgt msec (fmul seconds (lit 1000 0))
               then fmul seconds (lit 1000 0) else msec in
             update_port port
               (in_pulse (set_duty_delta (fdiv (duty_target (pulse p)) msec)));;
             update_port port (set_state FadeIn)
           else
             update_port port (set_duty (duty_target (pulse p)));;
             setPWMDuty port (duty_target (pulse p));;
             t ← getUsec;
             update_port port (in_pulse (set_peekUsec t));;
             update_port port (set_state Peak));;
          setLED LedPower port watts.

(** [float getCurrent()] *)
Definition getCurrent (s : V2Solenoids) : F := _current s.

(** [float getResistance(uint8_t port)] *)
Definition getResistance (port : nat) (s : V2Solenoids) : F :=
  let p := default Port0 (_ports s !! port) in
  match m_state p with
  | NotConnected => lit (-1) 0
  | Connected => m_resistance p
  | ShortCircuit => f0
  end.

(** What [releasePort] does to the port. *)
Definition release (p : Port) : Port :=
  set_pulse Pulse0 (set_duty f0 (set_state Idle p)).

(** A port after [releasePort]. *)
Definition released (p : Port) : Prop :=
  state p = Idle /\ duty p = f0 /\ pulse p = Pulse0.

(** What the over-current test of [loop()] compares. *)
Definition test_inputs (s : V2Solenoids) : F * F :=
  (_current s, current_max (_config s)).

(** The state of the controller while the filtered current is above the
    maximum: every port released, the probe not ready. *)
Definition cut_off (s : V2Solenoids) : Prop :=
  fgt (_current s) (current_max (_config s)) = true ->
  Forall released (_ports s) /\ ready (_probe s) = false.

(** [constexpr V2Solenoids(Configuration config)] for [n] ports. The member
    [_probe.cycle] has no initialiser; [cycle0] is what it happens to hold. *)
Definition V2Solenoids_new (config : Configuration) (n : nat) (cycle0 : Z)
  : V2Solenoids :=
  mkSolenoids config 0 0 0 (mkProbe Init 0 0 0 0 cycle0 false) f0
              (replicate n Port0) 0 [].

(** A member function leaves [f] of the object as it is. *)
Definition keeps {A X : Type} (f : V2Solenoids -> X) (m : M A) : Prop :=
  forall s, f (m s).2 = f s.


(** *** The controller in use *)

(** The calls a sketch makes on the object. *)
Inductive Request :=
| CallLoop
| CallTriggerPort (port : nat) (watts seconds : F) (fade_in fade_out : bool)
| CallReset.

Definition call (r : Request) : M unit :=
  match r with
  | CallLoop => loop
  | CallTriggerPort port watts seconds fade_in fade_out =>
      triggerPort port watts seconds fade_in fade_out
  | CallReset => reset
  end.

Fixpoint session (rs : list Request) : M unit :=
  match rs with
  | [] => skip
  | r :: rs' => call r;; session rs'
  end.

(** No port carries a pulse. *)
Definition undriven (s : V2Solenoids) : Prop :=
  Forall (fun p => state p = Idle) (_ports s).

(** Until the probe is ready no port carries a pulse. *)
Definition held_back (s : V2Solenoids) : Prop :=
  ready (_probe s) = false -> undriven s.

(** While the timestamp of switching the power on is set, the probe waits
    in [Init]. *)
Definition standing_by (s : V2Solenoids) : Prop :=
  0 < _powerUsec s -> p_state (_probe s) = Init.



(** A member function takes every state to one that [R] relates to it. *)
Definition moves {A : Type} (R : V2Solenoids -> V2Solenoids -> Prop)
           (m : M A) : Prop :=
  forall s, R s (m s).2.

(** The outputs of [s'] are those of [s] and more. *)
Definition emits_more (s s' : V2Solenoids) : Prop :=
  exists l, outputs s' = outputs s ++ l.

(** The pulse on [p] is over whenever the clock is read: its duration has
    passed since its start. *)
Definition expired (p : Port) : Prop :=
  forall k,
    durationUsec (pulse p)
    <= Time.getUsecSince (micros_at hw k) (startUsec (pulse p)).

(** The port is where [loop()] tests the duration: in [Hold], or in [Peak]
    with the peak time not yet exceeded. *)
Definition duration_tested (cfg : Configuration) (p : Port) : Prop :=
  state p = Hold
  \/ (state p = Peak
      /\ forall k,
           Time.getUsecSince (micros_at hw k) (peekUsec (pulse p))
           <= hold_peakUsec cfg).



(** Between [p] and [p'] the port was left alone or released. *)
Definition calm_port (p p' : Port) : Prop :=
  (state p' = state p /\ duty p' = duty p)
  \/ (state p' = Idle /\ duty p' = f0).

(** An output that sets no duty other than 0. *)
Definition quiet_output (o : Output) : Prop :=
  match o with
  | SetPWMDuty _ d => d = f0
  | _ => True
  end.

(** Nothing was switched on between [s] and [s']: every port was left
    alone or released, and no duty other than 0 was set. *)
Definition nothing_switched_on (s s' : V2Solenoids) : Prop :=
  Forall2 calm_port (_ports s) (_ports s')
  /\ exists l, outputs s' = outputs s ++ l /\ Forall quiet_output l.



(** *** Assertions about member functions *)

(** From a state in which [P] holds, [m] leads to one in which [Q]
    holds. *)
Definition triple {A : Type} (P : V2Solenoids -> Prop) (m : M A)
           (Q : V2Solenoids -> Prop) : Prop :=
  forall s, P s -> Q (m s).2.

(** A port that is idle has duty 0. *)
Definition rests (p : Port) : Prop := state p = Idle -> duty p = f0.

Definition all_rest (s : V2Solenoids) : Prop := Forall rests (_ports s).

(** Every port but [i] is as [rests] says. *)
Definition rests_except (i : nat) (s : V2Solenoids) : Prop :=
  forall j p, j <> i -> _ports s !! j = Some p -> rests p.

(** Port [i] carries a pulse. *)
Definition driven (i : nat) (s : V2Solenoids) : Prop :=
  exists p, _ports s !! i = Some p /\ state p <> Idle.

(** The probe and the pulses keep apart: the probe is out of [Init], that
    is settling, measuring a port at full duty or sleeping, only while no
    port carries a pulse; and an idle port has duty 0. *)
Definition probe_apart (s : V2Solenoids) : Prop :=
  all_rest s /\ (p_state (_probe s) <> Init -> undriven s).



(** *** The power supply, as the outputs show it *)

(** The last power command among the outputs, if there is one. *)
Definition last_power (outs : list Output) : option PowerState :=
  last (omap (fun o => match o with
                       | SetPower st => Some st
                       | _ => None
                       end) outs).

(** The timestamp of switching the power on doubles as the power flag:
    when the last power command was [On], it is set. *)
Definition power_stamped (s : V2Solenoids) : Prop :=
  last_power (outputs s) = Some On -> 0 < _powerUsec s.

(** While the probe is out of [Init], the last power command was not
    [On]: it was [Off], or there was none yet. *)
Definition probe_unpowered (s : V2Solenoids) : Prop :=
  p_state (_probe s) <> Init -> last_power (outputs s) <> Some On.


End Controller.

(** An implementation of the arithmetic for running examples: decimal fixed
    point with three fraction digits, as an integer count of thousandths. *)
#[local] Instance Thousandths : Float Z := {|
  lit m e := if 0 <=? e + 3 then m * 10 ^ (e + 3) else m / 10 ^ (- (e + 3));
  fadd a b := a + b;
  fsub a b := a - b;
  fmul a b := a * b / 1000;
  fdiv a b := a * 1000 / b;
  fsqrt a := Z.sqrt (a * 1000);
  flt a b := a <? b;
  fle a b := a <=? b;
  to_u32 a := u32 (a / 1000)
|}.

(** An example: two ports, a maximum of 3 A without filtering, port 0 at
    half duty in [Peak], probing done; the clock reads 2000 microseconds and
    the current sensor reads 5 A. *)
Definition example_config : Configuration (F := Z) :=
  mkConfiguration 3000 0 6000 60000 350 350 100000 500.

Definition example_hw : Hardware (F := Z) :=
  mkHardware (fun _ => 2000) (fun _ => 12000) (fun _ => 5000)
             (fun _ => 1000) (fun _ => true).

Definition example_state : V2Solenoids (F := Z) :=
  mkSolenoids example_config 0 1500 1500
    (mkProbe Measure 0 1 0 0 11 true) 1000
    [mkPort Peak 500 Connected 20000 1000
            (mkPulse 1500 1500 100000 false false 500 0);
     mkPort Idle 0 NotConnected 100000 3000 Pulse0]
    0 [].


(** The example 200 ms later, with a sensor that reads 1 A and port 0 in
    [Hold]: its pulse of 100 ms is over. *)
Definition example_late_hw : Hardware (F := Z) :=
  mkHardware (fun _ => 200000) (fun _ => 12000) (fun _ => 1000)
             (fun _ => 1000) (fun _ => true).

Definition example_hold_state : V2Solenoids (F := Z) :=
  mkSolenoids example_config 0 1500 1500
    (mkProbe Init 0 1 0 0 11 true) 1000
    [mkPort Hold 250 Connected 20000 1000
            (mkPulse 1500 1500 100000 false false 500 0);
     mkPort Idle 0 NotConnected 100000 3000 Pulse0]
    0 [].



(** The example with a power supply that does not switch on. *)
Definition example_dead_hw : Hardware (F := Z) :=
  mkHardware (fun _ => 2000) (fun _ => 12000) (fun _ => 1000)
             (fun _ => 1000) (fun _ => false).


End Solenoids.


(** ** JSON requests to the device (V2Device::handleSystemExclusive) *)

Module Device.
Import Time.

Local Open Scope string_scope.
Local Open Scope Z_scope.
Local Open Scope list_scope.

(** The ArduinoJson operations the function uses, over any implementation
    of the library: [member v k] is [v[k]] (a null variant when [v] is no
    object or has no such member), [is_object v] is the truth value of
    [JsonObject o = v], [eq_string v s] is [v == s], [ne_u32 v n] is
    [v != n] for a [uint32_t], [as_cstr v] is [const char* p = v] (null
    unless [v] is a string), and [as_u8], [as_u16], [as_u32] are the
    conversions to the unsigned integer types. *)
Class ArduinoJson (J : Type) := {
  member : J -> string -> J;
  isNull : J -> bool;
  is_object : J -> bool;
  eq_string : J -> string -> bool;
  ne_u32 : J -> Z -> bool;
  as_cstr : J -> option string;
  as_u8 : J -> Z;
  as_u16 : J -> Z;
  as_u32 : J -> Z
}.

(** [struct EEPROM]: the [local] and [usb] members. *)
Record EEPROM := mkEEPROM {
  local_magic : Z;
  local_version : Z;
  local_size : Z;
  eeprom_usb_name : string;
  eeprom_usb_vid : Z;
  eeprom_usb_pid : Z;
  eeprom_usb_ports : Z
}.

(** The members of [V2Device], and the [bootData] global, that the function
    reads or writes. *)
Record V2Device := mkDevice {
  usb_name : option string;
  usb_pid : Z;
  configuration_version : Z;
  configuration_size : Z;
  _eeprom : EEPROM;
  _boot_id : Z;
  bootData_usb_ports_enableAccess : bool
}.

Definition set_usb_name (x : option string) (d : V2Device) : V2Device :=
  mkDevice x (usb_pid d) (configuration_version d) (configuration_size d)
           (_eeprom d) (_boot_id d) (bootData_usb_ports_enableAccess d).
Definition set_eeprom (x : EEPROM) (d : V2Device) : V2Device :=
  mkDevice (usb_name d) (usb_pid d) (configuration_version d)
           (configuration_size d) x (_boot_id d)
           (bootData_usb_ports_enableAccess d).
Definition set_enableAccess (x : bool) (d : V2Device) : V2Device :=
  mkDevice (usb_name d) (usb_pid d) (configuration_version d)
           (configuration_size d) (_eeprom d) (_boot_id d) x.

Definition set_eeprom_usb_name (x : string) (e : EEPROM) : EEPROM :=
  mkEEPROM (local_magic e) (local_version e) (local_size e) x
           (eeprom_usb_vid e) (eeprom_usb_pid e) (eeprom_usb_ports e).
Definition set_eeprom_usb_vid (x : Z) (e : EEPROM) : EEPROM :=
  mkEEPROM (local_magic e) (local_version e) (local_size e)
           (eeprom_usb_name e) x (eeprom_usb_pid e) (eeprom_usb_ports e).
Definition set_eeprom_usb_pid (x : Z) (e : EEPROM) : EEPROM :=
  mkEEPROM (local_magic e) (local_version e) (local_size e)
           (eeprom_usb_name e) (eeprom_usb_vid e) x (eeprom_usb_ports e).
Definition set_eeprom_usb_ports (x : Z) (e : EEPROM) : EEPROM :=
  mkEEPROM (local_magic e) (local_version e) (local_size e)
           (eeprom_usb_name e) (eeprom_usb_vid e) (eeprom_usb_pid e) x.
Definition set_local (magic version size : Z) (e : EEPROM) : EEPROM :=
  mkEEPROM magic version size
           (eeprom_usb_name e) (eeprom_usb_vid e) (eeprom_usb_pid e)
           (eeprom_usb_ports e).

Section Requests.
Context {J : Type} {Json : ArduinoJson J}.

(** The calls the function makes into the rest of the firmware, in order.
    [EEPROM_write_common] is [EEPROM::write(0, &_eeprom, sizeof(_eeprom))]
    and [EEPROM_write_specific] the write of [configuration.data];
    [flush_system_exclusive] stands for the loop that calls
    [loopSystemExclusive()] and [yield()] for at most 100 ms. A call is
    recorded, not followed: what [sendReply] does to the object on its own
    (its dry run of [readEEPROM] may point [usb.name] at the stored name)
    is not part of [usb_name] below, which holds what
    [handleSystemExclusive] itself assigns. *)
Inductive Effect :=
| sendReply
| sendFirmwareStatus (status : string)
| EEPROM_erase
| EEPROM_write_common (e : EEPROM)
| EEPROM_write_specific (size : Z)
| Firmware_reboot
| handleSwitchChannel (channel : Z)
| importConfiguration (config : J)
| led_setBrightness (percent : Z)
| Secondary_writeBlock (offset : Z) (block : list Z)
| Secondary_copyBootloader
| flush_system_exclusive
| delay (msec : Z)
| Secondary_activate.

(** What the function is given by code outside it: the JSON parser, the
    flash block size, the base64 decoder and the firmware hash check. *)
Record Platform := mkPlatform {
  deserializeJson : list Z -> Z -> option J;
  Flash_getBlockSize : Z;
  Base64_decode : option string -> list Z;
  Secondary_verify : Z -> string -> bool
}.

Variable pf : Platform.

(** [void V2Device::writeConfiguration()] *)
Definition writeConfiguration (d : V2Device) : V2Device * list Effect :=
  let e := set_local (usb_pid d) (configuration_version d)
                     (configuration_size d) (_eeprom d) in
  (set_eeprom e d,
   EEPROM_write_common e ::
   (if 0 <? configuration_size d
    then [EEPROM_write_specific (configuration_size d)] else [])).

(** The guards at the head of [handleSystemExclusive]: the message is long
    enough, carries the private SysEx id, looks like a JSON object, parses,
    and has an object for our interface, which is the result. *)
Definition request (buffer : list Z) : option J :=
  let len := Z.of_nat (length buffer) in
  if len <? 24 then None
  else if negb (default 0 (buffer !! 1%nat) =? 125) then None
  else if negb (default 0 (buffer !! 2%nat) =? 123)
          || negb (default 0 (buffer !! Z.to_nat (len - 2)) =? 125) then None
  else
    match deserializeJson pf (drop 2 buffer) (len - 1) with
    | None => None
    | Some json =>
        let jsonDevice := member json "com.versioduo.device" in
        if negb (is_object jsonDevice) then None else Some jsonDevice
    end.

(** [strlen(n) > 1 && strlen(n) < 32] *)
Definition name_fits (n : string) : bool :=
  (1 <? String.length n)%nat && (String.length n <? 32)%nat.

(** The [usb] part of the [writeConfiguration] method. *)
Definition import_usb (jsonUsb : J) (d : V2Device) : V2Device :=
  let d :=
    match as_cstr (member jsonUsb "name") with
    | Some n =>
        if name_fits n then
          set_eeprom (set_eeprom_usb_name n (_eeprom d)) (set_usb_name (Some n) d)
        else
          set_eeprom (set_eeprom_usb_name "" (_eeprom d)) (set_usb_name None d)
    | None => d
    end in
  let d :=
    if negb (isNull (member jsonUsb "vid")) then
      set_eeprom (set_eeprom_usb_vid (as_u16 (member jsonUsb "vid")) (_eeprom d)) d
    else d in
  let d :=
    if negb (isNull (member jsonUsb "pid")) then
      set_eeprom (set_eeprom_usb_pid (as_u16 (member jsonUsb "pid")) (_eeprom d)) d
    else d in
  if negb (isNull (member jsonUsb "ports")) then
    let p := as_u8 (member jsonUsb "ports") in
    if p <=? 16 then set_eeprom (set_eeprom_usb_ports p (_eeprom d)) d else d
  else d.

(** The [writeFirmware] method, its calls in program order. [offset] and
    [blockLen] are [uint32_t], so their sum wraps. [Secondary::activate()]
    is meant to reset the system; the [hashMismatch] status that follows it
    in the list is what the function sends next if the call returns. *)
Definition write_firmware (jsonDevice : J) : list Effect :=
  let firmware := member jsonDevice "firmware" in
  if negb (is_object firmware) then []
  else
    let offset := as_u32 (member firmware "offset") in
    if negb (offset mod Flash_getBlockSize pf =? 0) then
      [sendFirmwareStatus "invalidOffset"]
    else
      let bytes := Base64_decode pf (as_cstr (member firmware "data")) in
      let blockLen := Z.of_nat (length bytes) in
      let block :=
        bytes ++ replicate (Z.to_nat (Flash_getBlockSize pf - blockLen)) 255 in
      [led_setBrightness 30; Secondary_writeBlock offset block;
       led_setBrightness 10] ++
      match as_cstr (member firmware "hash") with
      | Some hash =>
          Secondary_copyBootloader ::
          (if Secondary_verify pf (u32 (offset + blockLen)) hash then
             [sendFirmwareStatus "success"; flush_system_exclusive;
              led_setBrightness 100; delay 100; Secondary_activate]
           else [])
          ++ [sendFirmwareStatus "hashMismatch"]
      | None => [sendFirmwareStatus "success"]
      end.

(** The methods, after the token test. *)
Definition dispatch (d : V2Device) (jsonDevice : J) : V2Device * list Effect :=
  let method := member jsonDevice "method" in
  if eq_string method "getAll" then (d, [sendReply])
  else if eq_string method "eraseConfiguration" then
    (d, [EEPROM_erase; Firmware_reboot])
  else if eq_string method "switchChannel" then
    (d,
     (if negb (isNull (member jsonDevice "channel"))
      then [handleSwitchChannel (as_u8 (member jsonDevice "channel"))]
      else []) ++ [sendReply])
  else if eq_string method "reboot" then (d, [Firmware_reboot])
  else if eq_string method "rebootWithPorts" then
    (set_enableAccess true d, [Firmware_reboot])
  else if eq_string method "writeConfiguration" then
    let config := member jsonDevice "configuration" in
    if is_object config then
      let jsonUsb := member config "usb" in
      let d := if is_object jsonUsb then import_usb jsonUsb d else d in
      let imported :=
        if 0 <? configuration_size d then [importConfiguration config] else [] in
      let '(d, written) := writeConfiguration d in
      (d, imported ++ written ++ [sendReply])
    else (d, [sendReply])
  else if eq_string method "writeFirmware" then (d, write_firmware jsonDevice)
  else (d, []).

(** [void V2Device::handleSystemExclusive(transport, buffer, len)] *)
Definition handleSystemExclusive (d : V2Device) (buffer : list Z)
  : V2Device * list Effect :=
  match request buffer with
  | None => (d, [])
  | Some jsonDevice =>
      let token := member jsonDevice "token" in
      if negb (isNull token) && ne_u32 token (_boot_id d) then (d, [])
      else dispatch d jsonDevice
  end.

End Requests.

(** A small implementation of the library for running examples: JSON trees
    with integer numbers; conversions of a value of the wrong kind or out of
    range give 0. *)
Local Unset Elimination Schemes.

Inductive Json :=
| JNull
| JNum (n : Z)
| JStr (s : string)
| JObj (fields : list (string * Json)).

Local Set Elimination Schemes.

Fixpoint field (k : string) (fields : list (string * Json)) : Json :=
  match fields with
  | [] => JNull
  | (k', v) :: rest => if String.eqb k k' then v else field k rest
  end.

Definition as_unsigned (bits : Z) (v : Json) : Z :=
  match v with
  | JNum n => if (0 <=? n) && (n <? 2 ^ bits) then n else 0
  | _ => 0
  end.

#[local] Instance TreeJson : ArduinoJson Json := {|
  member v k := match v with JObj fs => field k fs | _ => JNull end;
  isNull v := match v with JNull => true | _ => false end;
  is_object v := match v with JObj _ => true | _ => false end;
  eq_string v s := match v with JStr t => String.eqb t s | _ => false end;
  ne_u32 v n := match v with JNum m => negb (m =? n) | _ => true end;
  as_cstr v := match v with JStr t => Some t | _ => None end;
  as_u8 := as_unsigned 8;
  as_u16 := as_unsigned 16;
  as_u32 := as_unsigned 32
|}.

(** The bytes of a text in which every apostrophe stands for a double
    quote. *)
Definition bytes_of (text : string) : list Z :=
  map (fun a => let n := Z.of_N (Ascii.N_of_ascii a) in
                if n =? 39 then 34 else n)
      (String.list_ascii_of_string text).

(** An example request: a reboot, addressed with token 7. *)
Definition example_text : string :=
  "{'com.versioduo.device':{'token':7,'method':'reboot'}}".

Definition example_json : Json :=
  JObj [("com.versioduo.device",
         JObj [("token", JNum 7); ("method", JStr "reboot")])].

Definition example_buffer : list Z :=
  [240; 125] ++ bytes_of example_text ++ [247].

(** A platform whose parser knows the example request only. *)
Definition example_platform : Platform :=
  mkPlatform
    (fun input _ =>
       if decide (input = bytes_of example_text ++ [247])
       then Some example_json else None)
    8192 (fun _ => []) (fun _ _ => false).

Definition example_device (boot_id : Z) : V2Device :=
  mkDevice None 1 0 0 (mkEEPROM 0 0 0 "" 0 0 0) boot_id false.

(** The stored USB settings fit their fields: the name with its terminator
    fits the 32 bytes of [_eeprom.usb.name], and the number of ports is at
    most 16. *)
Definition usb_fits (e : EEPROM) : Prop :=
  (String.length (eeprom_usb_name e) < 32)%nat /\ eeprom_usb_ports e <= 16.

(** The blocks written to the secondary firmware area, with their offsets,
    and the EEPROM images written, as a log shows them. *)
Definition blocks_written {J : Type} (log : list (Effect (J := J)))
  : list (Z * list Z) :=
  omap (fun e => match e with
                 | Secondary_writeBlock offset block => Some (offset, block)
                 | _ => None
                 end) log.

Definition images_written {J : Type} (log : list (Effect (J := J)))
  : list EEPROM :=
  omap (fun e => match e with
                 | EEPROM_write_common image => Some image
                 | _ => None
                 end) log.

(** A request that stores a USB name of 31 characters and 4 ports, and one
    that writes the last firmware block, with a platform whose parser knows
    the two and whose hash check accepts the hash [cafe]. *)
Definition example_name : string := "A name that is 31 characters..!".

Definition example_config_json : Json :=
  JObj [("com.versioduo.device",
         JObj [("method", JStr "writeConfiguration");
               ("configuration",
                JObj [("usb", JObj [("name", JStr example_name);
                                    ("ports", JNum 4)])])])].

Definition example_firmware_json : Json :=
  JObj [("com.versioduo.device",
         JObj [("method", JStr "writeFirmware");
               ("firmware",
                JObj [("offset", JNum 16); ("data", JStr "3q2+7w==");
                      ("hash", JStr "cafe")])])].

Definition example_message (tag : Z) : list Z :=
  [240; 125; 123; tag] ++ replicate 20 32 ++ [125; 247].

Definition example_loader : Platform :=
  mkPlatform
    (fun input _ =>
       match input !! 1%nat with
       | Some 1 => Some example_config_json
       | Some 2 => Some example_firmware_json
       | _ => None
       end)
    8 (fun data => match data with Some _ => [222; 173; 190; 239] | None => [] end)
    (fun size hash => (size =? 20) && String.eqb hash "cafe").


End Device.


(** ** UTF-8 and JSON escaping (static functions of V2Device.cpp) *)

Module Text.
Import Time.

Definition u16 (x : Z) : Z := x mod 2 ^ 16.

(** [(int8_t)] to [(uint8_t)], as in [uint8_t len = utf8Codepoint(...)]. *)
Definition int8_to_uint8 (x : Z) : Z := u8 x.

(** Memory seen through a [const uint8_t*]: the byte at each offset. *)
Definition Bytes : Type := nat -> Z.

(** [utf8 + i] *)
Definition offset (m : Bytes) (i : Z) : Bytes :=
  fun k => m (Z.to_nat i + k)%nat.

(** The first part of [utf8Codepoint]: the length the lead byte announces,
    or -1. *)
Definition lead_len (b0 : Z) : Z :=
  if b0 <? 128 then 1
  else if Z.land b0 224 =? 192 then 2
  else if Z.land b0 240 =? 224 then 3
  else if Z.land b0 248 =? 240 then 4
  else if Z.land b0 252 =? 248 then 5
  else if Z.land b0 254 =? 252 then 6
  else -1.

(** The [switch (len)]: the payload bits of the lead byte. *)
Definition lead_bits (len b0 : Z) : Z :=
  match len with
  | 1 => b0
  | 2 => Z.land b0 31
  | 3 => Z.land b0 15
  | 4 => Z.land b0 7
  | 5 => Z.land b0 3
  | _ => Z.land b0 1
  end.

(** The [for] loop over the continuation bytes at the offsets [ks]; [None]
    is [return -1]. [codepoint] is a [uint32_t]. *)
Fixpoint continuation (utf8 : Bytes) (ks : list nat) (codepoint : Z)
  : option Z :=
  match ks with
  | [] => Some codepoint
  | k :: ks' =>
      if negb (Z.land (utf8 k) 192 =? 128) then None
      else
        continuation utf8 ks'
          (Z.lor (u32 (Z.shiftl codepoint 6)) (Z.land (utf8 k) 63))
  end.

(** [static int8_t utf8Codepoint(const uint8_t* utf8, uint32_t* codepointp)]:
    the value returned and the value stored through [codepointp], if any. *)
Definition utf8Codepoint (utf8 : Bytes) : Z * option Z :=
  let len := lead_len (utf8 0%nat) in
  if len =? -1 then (-1, None)
  else
    match continuation utf8 (seq 1 (Z.to_nat len - 1))
                       (lead_bits len (utf8 0%nat)) with
    | None => (-1, None)
    | Some codepoint => (len, Some codepoint)
    end.

(** The characters [sprintf] writes for [%04x]: lower-case hexadecimal, at
    least four digits; the argument is an [unsigned int]. *)
Definition hex_digit (d : Z) : Z := if d <? 10 then 48 + d else 87 + d.

Fixpoint hex_digits (fuel : nat) (v : Z) (acc : list Z) : list Z :=
  match fuel with
  | O => acc
  | S fuel' =>
      let acc' := hex_digit (v mod 16) :: acc in
      if v / 16 =? 0 then acc' else hex_digits fuel' (v / 16) acc'
  end.

Definition printf_04x (v : Z) : list Z :=
  let ds := hex_digits 8 v [] in
  replicate (4 - length ds) 48 ++ ds.

(** [\u] followed by [%04x]. *)
Definition escape_u (v : Z) : list Z := [92; 117] ++ printf_04x v.

(** What [escapeJSON] leaves behind: the value it returns, the bytes it
    wrote into [buffer] from offset 0 on, in order, and one more than the
    highest offset it wrote to (the NUL that [sprintf] appends counts). *)
Record Escaped := mkEscaped {
  returned : Z;
  written : list Z;
  top : Z
}.

(** One execution of the body of the [for] loop of [escapeJSON] at index
    [i]: [inl r] is [return 0], [inr] the index after the [i++] of the loop
    and the new output. [indeterminate i] is the value the local
    [codepoint], declared without initialiser, holds when [utf8Codepoint]
    returns without storing one. *)
Definition escape_step (jsonBuffer : Bytes) (size : Z)
           (indeterminate : Z -> Z) (i : Z) (out : list Z) (top : Z)
  : Escaped + (Z * list Z * Z) :=
  let bufferLen := Z.of_nat (length out) in
  if 127 <? jsonBuffer (Z.to_nat i) then
    let '(r, stored) := utf8Codepoint (offset jsonBuffer i) in
    let len := int8_to_uint8 r in
    (* [if (len < 0) continue;] is never taken: [len] is unsigned *)
    let codepoint := default (indeterminate i) stored in
    let i := u32 (i + (len - 1)) in
    if codepoint <? 65535 then
      if size <? u32 (bufferLen + 7) then inl (mkEscaped 0 out top)
      else
        inr (u32 (i + 1), out ++ escape_u codepoint,
             Z.max top (bufferLen + 7))
    else
      if size <? u32 (bufferLen + 13) then inl (mkEscaped 0 out top)
      else
        let codepoint := u32 (codepoint - 65536) in
        let surrogate1 := u16 (Z.shiftr codepoint 10 + 55296) in
        let surrogate2 := u16 (Z.land codepoint 1023 + 56320) in
        inr (u32 (i + 1), out ++ escape_u surrogate1 ++ escape_u surrogate2,
             Z.max top (bufferLen + 13))
  else
    if size <=? bufferLen then inl (mkEscaped 0 out top)
    else
      inr (u32 (i + 1), out ++ [jsonBuffer (Z.to_nat i)],
           Z.max top (bufferLen + 1)).

(** The [for] loop, at most [fuel] iterations; [None] when they do not
    suffice. *)
Fixpoint escape_loop (fuel : nat) (jsonBuffer : Bytes) (jsonLen size : Z)
         (indeterminate : Z -> Z) (i : Z) (out : list Z) (top : Z)
  : option Escaped :=
  if negb (i <? jsonLen) then Some (mkEscaped (Z.of_nat (length out)) out top)
  else
    match fuel with
    | O => None
    | S fuel' =>
        match escape_step jsonBuffer size indeterminate i out top with
        | inl r => Some r
        | inr (i', out', top') =>
            escape_loop fuel' jsonBuffer jsonLen size indeterminate i' out' top'
        end
    end.

(** [static uint32_t escapeJSON(const uint8_t* jsonBuffer, uint32_t jsonLen,
                                uint8_t* buffer, uint32_t size)] *)
Definition escapeJSON (jsonBuffer : Bytes) (jsonLen size : Z)
           (indeterminate : Z -> Z) : option Escaped :=
  escape_loop (Z.to_nat jsonLen) jsonBuffer jsonLen size indeterminate 0 [] 0.

(** The escape [escapeJSON] writes for the value [v] of its local
    [codepoint]. *)
Definition escape_of (v : Z) : list Z :=
  if v <? 65535 then escape_u v
  else
    let w := u32 (v - 65536) in
    escape_u (u16 (Z.shiftr w 10 + 55296))
    ++ escape_u (u16 (Z.land w 1023 + 56320)).

(** A Unicode code point other than U+FFFF. *)
Definition valid_cp (c : Z) : Prop := 0 <= c <= 1114111 /\ c <> 65535.

(** A byte that fits a 7-bit stream. *)
Definition ascii7 (b : Z) : Prop := 0 <= b < 128.

(** What the caller may rely on after [escapeJSON]: only 7-bit bytes were
    written, none at or beyond [size], and the value returned is the number
    of bytes written or 0. *)
Definition safe_result (size : Z) (r : Escaped) : Prop :=
  Forall ascii7 (written r)
  /\ 0 <= returned r <= size
  /\ top r <= size
  /\ (returned r = Z.of_nat (length (written r)) \/ returned r = 0).

(** *** UTF-8 as it is defined, for comparison

    The encoding of a code point below 2^31 in one to six bytes. *)
Definition tail_byte (c : Z) (k : Z) : Z :=
  Z.lor 128 (Z.land (Z.shiftr c (6 * k)) 63).

Definition utf8_encode (c : Z) : list Z :=
  if c <? 128 then [c]
  else if c <? 2048 then [Z.lor 192 (Z.shiftr c 6); tail_byte c 0]
  else if c <? 65536 then
    [Z.lor 224 (Z.shiftr c 12); tail_byte c 1; tail_byte c 0]
  else if c <? 2097152 then
    [Z.lor 240 (Z.shiftr c 18); tail_byte c 2; tail_byte c 1; tail_byte c 0]
  else if c <? 67108864 then
    [Z.lor 248 (Z.shiftr c 24); tail_byte c 3; tail_byte c 2; tail_byte c 1;
     tail_byte c 0]
  else
    [Z.lor 252 (Z.shiftr c 30); tail_byte c 4; tail_byte c 3; tail_byte c 2;
     tail_byte c 1; tail_byte c 0].

(** Memory that holds [l] at offset 0 and [rest] after it. *)
Definition holding (l : list Z) (rest : Bytes) : Bytes :=
  fun k => match l !! k with
           | Some b => b
           | None => rest (k - length l)%nat
           end.

(** The JSON escape of a code point as RFC 8259 has it: ASCII as it is, the
    rest of the basic plane as one [\uXXXX], everything above as a UTF-16
    surrogate pair. *)
Definition json_escape (c : Z) : list Z :=
  if c <? 128 then [c]
  else if c <? 65536 then escape_u c
  else escape_u (55296 + (c - 65536) / 1024)
       ++ escape_u (56320 + (c - 65536) mod 1024).

End Text.


(** ** The status LED (LED/Basic.cpp)

    [V2LED::Basic] drives one pin, directly or through a periodic timer
    that dims it. [V2Device] calls [setBrightness] while it writes firmware
    and [loop] and [reset] from its own [loop()] and [reset()]. *)

Module LED.
Import Time.
Import Solenoids.

Section Basic.
Context {F : Type} {FloatF : Float F}.

(** What the driver does to the pin and the timer. *)
Inductive Effect :=
| Pin_high
| Pin_low
| Timer_setFraction (fraction : F)
| Timer_enable
| Timer_disable.

(** The [_flash] member. *)
Record Basic := mkBasic {
  flash_startUsec : Z;
  flash_durationUsec : Z
}.

(** [auto V2LED::Basic::tick() -> void]; the argument is what
    [_timer->isFraction()] returns. *)
Definition tick (isFraction : bool) : list Effect :=
  if negb isFraction then [Pin_high] else [Pin_low].

(** [auto V2LED::Basic::setBrightness(float fraction) -> void] *)
Definition setBrightness (fraction : F) (b : Basic) : Basic * list Effect :=
  if fle fraction f0 then
    (mkBasic 0 0, [Timer_setFraction f0; Timer_disable; Pin_low])
  else if fge fraction f1 then
    (b, [Timer_setFraction f0; Timer_disable; Pin_high])
  else (b, [Timer_setFraction fraction; Timer_enable]).

(** [auto V2LED::Basic::flash(float seconds, float brightness) -> void];
    [now] is what [micros()] returns. *)
Definition flash (now : Z) (seconds brightness : F) (b : Basic)
  : Basic * list Effect :=
  setBrightness brightness
    (mkBasic now (to_u32 (fmul (fmul seconds (lit 1000 0)) (lit 1000 0)))).

(** [auto V2LED::Basic::loop() -> void]; [micros()] is called only when a
    flash is running. *)
Definition loop (now : Z) (b : Basic) : Basic * list Effect :=
  if flash_durationUsec b =? 0 then (b, [])
  else if Time.getUsecSince now (flash_startUsec b) <? flash_durationUsec b
  then (b, [])
  else setBrightness f0 (mkBasic (flash_startUsec b) 0).

(** [auto V2LED::Basic::reset() -> void] *)
Definition reset (b : Basic) : Basic * list Effect :=
  (mkBasic 0 0, [Timer_setFraction f0; Timer_disable; Pin_low]).

(** Successive [loop()] calls, at the given readings of the clock. *)
Fixpoint loops (b : Basic) (ts : list Z) : Basic * list Effect :=
  match ts with
  | [] => (b, [])
  | t :: ts' =>
      let '(b1, l1) := loop t b in
      let '(b2, l2) := loops b1 ts' in
      (b2, l1 ++ l2)
  end.

End Basic.

End LED.



(** * Properties *)

Module TimeFacts.
Import Time.

Lemma u32_range x : 0 <= u32 x < 2 ^ 32.
Proof. unfold u32. apply Z.mod_pos_bound. lia. Qed.

Lemma u32_small x : 0 <= x < 2 ^ 32 -> u32 x = x.
Proof. intros H. unfold u32. now apply Z.mod_small. Qed.

Lemma getUsecSince_range now since : 0 <= getUsecSince now since < 2 ^ 32.
Proof. apply u32_range. Qed.

(** The counter difference of two wrapped readings is the wrapped true
    difference. *)
Lemma getUsecSince_micros t1 t0 :
  getUsecSince (micros t1) (micros t0) = u32 (t1 - t0).
Proof.
  unfold getUsecSince, micros, u32.
  rewrite <- Zminus_mod. reflexivity.
Qed.

Lemma getUsecSince_le_true t1 t0 :
  t0 <= t1 -> getUsecSince (micros t1) (micros t0) <= t1 - t0.
Proof.
  intros H. rewrite getUsecSince_micros. unfold u32.
  apply Z.mod_le; lia.
Qed.

End TimeFacts.

Module ButtonsFacts.
Import Time TimeFacts Buttons.

Lemma is_down_set_state st b s : is_down (set_state st b) s = is_down b s.
Proof. reflexivity. Qed.

(** C7: elapsed time is the unsigned difference of two counter readings,
    so for true times [t0 <= t1] the computed value is the true duration
    modulo 2^32, it never exceeds the true duration, it is the true
    duration when that is below 2^32, a threshold the computed value
    reaches has really been reached, and the debounce test of
    [Button::loop()] leaves [WaitDown] only after 5000 true microseconds. *)
Theorem elapsed_wraparound_safe (t0 t1 : Z) :
  t0 <= t1 ->
  getUsecSince (micros t1) (micros t0) = u32 (t1 - t0)
  /\ getUsecSince (micros t1) (micros t0) <= t1 - t0
  /\ (t1 - t0 < 2 ^ 32 -> getUsecSince (micros t1) (micros t0) = t1 - t0)
  /\ (forall threshold,
        threshold <= getUsecSince (micros t1) (micros t0) ->
        threshold <= t1 - t0)
  /\ (forall ev b lvl,
        _state b = WaitDown -> _usec b = micros t0 ->
        _state (Button_loop ev b (mkSample (micros t1) lvl)).1.2 <> WaitDown ->
        5000 <= t1 - t0).
Proof.
  intros Hle.
  pose proof (getUsecSince_le_true t1 t0 Hle) as Hub.
  split; [apply getUsecSince_micros|].
  split; [exact Hub|].
  split.
  { intros Hlt. rewrite getUsecSince_micros. apply u32_small. lia. }
  split.
  { intros th Hth. lia. }
  intros ev b lvl Hst Hus.
  unfold Button_loop. rewrite Hst, Hus. simpl now.
  destruct (Z.ltb_spec (getUsecSince (micros t1) (micros t0)) (5 * 1000)) as [Hlt|Hge].
  - simpl. rewrite Hst. congruence.
  - intros _. lia.
Qed.

Lemma elapsed_wraparound_safe_witness :
  getUsecSince (micros (2 ^ 32 + 100)) (micros (2 ^ 32 - 200)) = 300.
Proof.
  destruct (elapsed_wraparound_safe (2 ^ 32 - 200) (2 ^ 32 + 100)) as (_ & _ & H & _).
  - lia.
  - rewrite H; lia.
Defined.

(** *** One step of the per-button machine *)

Lemma ltb_ge_false a b : b <= a -> (a <? b) = false.
Proof. intros H. apply Z.ltb_ge. exact H. Qed.

Lemma ltb_lt_true a b : a < b -> (a <? b) = true.
Proof. intros H. apply Z.ltb_lt. exact H. Qed.

Ltac case_ltb :=
  match goal with
  | |- context [?a <? ?b] => destruct (Z.ltb_spec a b)
  end.

(** C6: [_event] takes the value of the global counter in the one
    transition that leaves [Idle] (which also advances the counter by one,
    modulo 2^32), every transition from [WaitDown], [Down], [Hold] and [Up]
    leaves it and the counter as they are, and the transition from [Reset]
    clears it. *)
Theorem event_assigned_once (ev : Z) (b : Button) (s : Sample) :
  let '(ev', b', _) := Button_loop ev b s in
  match _state b with
  | Idle =>
      if is_down b s
      then _state b' = WaitDown /\ _event b' = ev /\ ev' = u32 (ev + 1)
      else b' = b /\ ev' = ev
  | Reset => _state b' = Idle /\ _event b' = 0 /\ ev' = ev
  | _ => _event b' = _event b /\ ev' = ev
  end.
Proof.
  unfold Button_loop.
  destruct (_state b) eqn:Hst; simpl.
  - destruct (is_down b s); simpl; auto.
  - case_ltb; [|destruct (is_down b s)]; simpl; auto.
  - destruct (is_down b s); [destruct (hold_enabled b); [case_ltb|]|]; simpl; auto.
  - destruct (is_down b s); simpl; auto.
  - destruct (click_enabled b); [destruct (is_down b s); [|case_ltb]|]; simpl; auto.
  - auto.
Qed.

(** The wake-up step, spelled out. *)
Lemma Button_loop_wake ev b s :
  _state b = Idle -> is_down b s = true ->
  Button_loop ev b s =
    (u32 (ev + 1),
     set_busy true (set_event ev (set_usec (now s) (set_state WaitDown b))), []).
Proof. intros Hst Hd. unfold Button_loop. rewrite Hst, Hd. reflexivity. Qed.

Lemma Button_loop_debounce ev b s :
  _state b = WaitDown -> getUsecSince (now s) (_usec b) < 5000 ->
  Button_loop ev b s = (ev, b, []).
Proof.
  intros Hst Hlt. unfold Button_loop. rewrite Hst.
  rewrite ltb_lt_true by lia. reflexivity.
Qed.

Lemma Button_loop_settled ev b s :
  _state b = WaitDown -> 5000 <= getUsecSince (now s) (_usec b) ->
  Button_loop ev b s =
    if is_down b s then (ev, set_state Down b, [handleDown])
    else (ev, set_state Reset b, []).
Proof.
  intros Hst Hge. unfold Button_loop. rewrite Hst.
  rewrite ltb_ge_false by lia. reflexivity.
Qed.

Lemma run_app ev b tr1 tr2 :
  run ev b (tr1 ++ tr2) =
    let '(ev1, b1, c1) := run ev b tr1 in
    let '(ev2, b2, c2) := run ev1 b1 tr2 in
    (ev2, b2, c1 ++ c2).
Proof.
  revert ev b. induction tr1 as [|s tr1 IH]; intros ev b; simpl.
  - destruct (run ev b tr2) as [[ev2 b2] c2]. reflexivity.
  - destruct (Button_loop ev b s) as [[ev1 b1] c1].
    rewrite IH.
    destruct (run ev1 b1 tr1) as [[ev2 b2] c2].
    destruct (run ev2 b2 tr2) as [[ev3 b3] c3].
    now rewrite app_assoc.
Qed.

(** While the debounce window is open nothing happens, whatever the pin
    does. *)
Lemma run_debounce ev b pre :
  _state b = WaitDown ->
  Forall (fun x => getUsecSince (now x) (_usec b) < 5000) pre ->
  run ev b pre = (ev, b, []).
Proof.
  intros Hst Hall. induction Hall as [|x pre Hx _ IH]; simpl.
  - reflexivity.
  - rewrite Button_loop_debounce by assumption. rewrite IH. reflexivity.
Qed.

(** C2: a button wakes at sample [s0]; while less than 5000 microseconds
    have passed since then the samples may show anything; the first sample
    at which the window has elapsed shows the pin deasserted. Then no hook at
    all was called ([handleDown] and [handleClick] in particular), the
    machine is in [Reset], and its next step returns to [Idle], again
    without calling a hook. *)
Theorem short_press_no_event (ev : Z) (b : Button) (s0 s : Sample)
        (pre : list Sample) :
  _state b = Idle ->
  is_down b s0 = true ->
  Forall (fun x => getUsecSince (now x) (now s0) < 5000) pre ->
  5000 <= getUsecSince (now s) (now s0) ->
  is_down b s = false ->
  let '(ev', b', calls) := run ev b (s0 :: pre ++ [s]) in
  _state b' = Reset /\ calls = [] /\
  forall s', let '(_, b'', calls') := Button_loop ev' b' s' in
             _state b'' = Idle /\ calls' = [].
Proof.
  intros Hst Hd0 Hpre Hge Hd.
  cbn [run]. rewrite Button_loop_wake by assumption.
  set (b1 := set_busy true (set_event ev (set_usec (now s0) (set_state WaitDown b)))).
  rewrite run_app, (run_debounce _ b1) by (auto; exact Hpre).
  cbn [run]. rewrite Button_loop_settled by (auto; exact Hge).
  replace (is_down b1 s) with (is_down b s) by reflexivity. rewrite Hd.
  simpl. repeat split.
Qed.

Lemma short_press_no_event_witness :
  let b := new_Button None 7 false false in
  (run 0 b [mkSample 100 false; mkSample 1200 false; mkSample 2300 true;
            mkSample 5200 true]).2 = [].
Proof.
  pose proof (short_press_no_event 0 (new_Button None 7 false false)
                (mkSample 100 false) (mkSample 5200 true)
                [mkSample 1200 false; mkSample 2300 true]) as H.
  cbv zeta. simpl app in H.
  destruct (run 0 (new_Button None 7 false false)
      [mkSample 100 false; mkSample 1200 false; mkSample 2300 true;
       mkSample 5200 true]) as [[ev' b'] calls].
  apply H.
  - reflexivity.
  - reflexivity.
  - repeat constructor.
  - vm_compute. discriminate.
  - reflexivity.
Defined.


(** *** The dispatcher *)

Lemma pins_read_hooks pin calls : pins_read (map (Hook pin) calls) = [].
Proof. induction calls as [|c calls IH]; simpl; auto. Qed.

Lemma pins_read_app l1 l2 : pins_read (l1 ++ l2) = pins_read l1 ++ pins_read l2.
Proof. unfold pins_read. apply omap_app. Qed.

(** A scan reads the pin of every button of the list, in list order. *)
Lemma scan_reads bs : forall ev env i busy,
  pins_read (scan ev bs env i busy).1.2 = map _pin bs.
Proof.
  induction bs as [|b bs IH]; intros ev env i busy; simpl.
  - reflexivity.
  - destruct (Button_loop ev b (env i)) as [[ev1 b1] calls].
    specialize (IH ev1 env (S i) (if _busy b1 then true else busy)).
    destruct (scan ev1 bs env (S i) (if _busy b1 then true else busy))
      as [[[ev2 bs2] log] busy2].
    simpl in *. rewrite pins_read_app, pins_read_hooks, IH. reflexivity.
Qed.

Lemma V2Buttons_loop_early g t1 t2 env :
  g_busy g = false \/ getUsecSince t1 (g_usec g) < 1000 ->
  V2Buttons_loop g t1 t2 env = (g, []).
Proof.
  intros H. unfold V2Buttons_loop.
  destruct (g_busy g); simpl; [|reflexivity].
  destruct H as [H|H]; [discriminate|].
  rewrite ltb_lt_true by lia. reflexivity.
Qed.

Lemma V2Buttons_loop_scans g t1 t2 env :
  g_busy g = true -> 1000 <= getUsecSince t1 (g_usec g) ->
  pins_read (V2Buttons_loop g t1 t2 env).2 = map _pin (g_list g) /\
  g_usec (V2Buttons_loop g t1 t2 env).1 = t2.
Proof.
  intros Hb Hge. unfold V2Buttons_loop. rewrite Hb. simpl negb. cbv iota.
  rewrite ltb_ge_false by lia.
  pose proof (scan_reads (g_list g) (g_event g) env 0%nat false) as Hr.
  destruct (scan (g_event g) (g_list g) env 0 false) as [[[ev bs] log] busy].
  simpl in *. auto.
Qed.

(** C1, as the code has it: a call of [V2Buttons::loop()] scans the list
    (reads every registered pin and restarts the rate-limit timer) exactly
    when the busy flag is set and at least 1000 microseconds (modulo 2^32)
    have passed since the previous scan; in every other case, a set busy
    flag included, the call changes nothing and reads no pin. *)
Theorem loop_scans_iff_busy_and_due (g : Globals) (t1 t2 : Z)
        (env : nat -> Sample) :
  let '(g', log) := V2Buttons_loop g t1 t2 env in
  if g_busy g && (1000 <=? getUsecSince t1 (g_usec g))
  then pins_read log = map _pin (g_list g) /\ g_usec g' = t2
  else g' = g /\ log = [].
Proof.
  destruct (g_busy g) eqn:Hb; simpl.
  - destruct (Z.leb_spec 1000 (getUsecSince t1 (g_usec g))) as [Hge|Hlt].
    + pose proof (V2Buttons_loop_scans g t1 t2 env Hb Hge) as H.
      destruct (V2Buttons_loop g t1 t2 env). exact H.
    + rewrite V2Buttons_loop_early by (right; lia). auto.
  - rewrite V2Buttons_loop_early by (left; exact Hb). auto.
Qed.

(** C1 as stated fails: the flag was just set by an interrupt, one button
    is registered, the call comes 999 microseconds after the previous scan,
    and no pin is read. *)
Lemma busy_scan_within_1ms_counterexample :
  let b := new_Button None 7 false false in
  let g := pinInterrupt (mkGlobals 5000 0 [b] false) in
  let r := V2Buttons_loop g 5999 5999 (fun _ => mkSample 5999 false) in
  g_busy g = true /\ map _pin (g_list g) = [7] /\
  pins_read r.2 = [] /\ r.1 = g.
Proof. vm_compute. repeat split. Qed.

Lemma pinInterrupt_idem g : g_busy g = true -> pinInterrupt g = g.
Proof. destruct g as [u e l y]. simpl. intros ->. reflexivity. Qed.

Lemma ticks_early g ks :
  g_busy g = true -> Forall (early g) ks -> ticks g ks = (g, []).
Proof.
  intros Hb Hall. induction Hall as [|k ks Hk _ IH]; simpl.
  - reflexivity.
  - destruct k as [|t1 t2 env]; simpl in *.
    + rewrite pinInterrupt_idem by assumption. rewrite IH. reflexivity.
    + rewrite V2Buttons_loop_early by (right; exact Hk). rewrite IH. reflexivity.
Qed.




(** *** The event sequence number *)

Lemma wake_count_cons_wake b s steps :
  wakes b s = true -> wake_count ((b, s) :: steps) = wake_count steps + 1.
Proof.
  intros H. unfold wake_count. rewrite filter_cons_True by exact H.
  simpl length. lia.
Qed.

Lemma wake_count_cons_other b s steps :
  wakes b s = false -> wake_count ((b, s) :: steps) = wake_count steps.
Proof.
  intros H. unfold wake_count. rewrite filter_cons_False; [reflexivity|].
  simpl. rewrite H. discriminate.
Qed.

(** Only a wake-up moves the counter, and it moves it by one. *)
Lemma Button_loop_counter ev b s :
  (Button_loop ev b s).1.1 = if wakes b s then u32 (ev + 1) else ev.
Proof.
  unfold wakes, Button_loop.
  destruct (_state b); simpl.
  - destruct (is_down b s); reflexivity.
  - case_ltb; [|destruct (is_down b s)]; reflexivity.
  - destruct (is_down b s); [destruct (hold_enabled b); [case_ltb|]|];
      reflexivity.
  - destruct (is_down b s); reflexivity.
  - destruct (click_enabled b); [destruct (is_down b s); [|case_ltb]|];
      reflexivity.
  - reflexivity.
Qed.

(** [Idle] is entered from [Reset] only; an idle button whose pin is not
    asserted is left as it is. *)
Lemma Button_loop_to_idle ev b s :
  _state (Button_loop ev b s).1.2 = Idle ->
  _state b = Reset \/ (_state b = Idle /\ (Button_loop ev b s).1.2 = b).
Proof.
  unfold Button_loop.
  destruct (_state b) eqn:Hst; simpl.
  - destruct (is_down b s); simpl; [discriminate|auto].
  - case_ltb; [|destruct (is_down b s)]; simpl; congruence.
  - destruct (is_down b s); [destruct (hold_enabled b); [case_ltb|]|];
      simpl; congruence.
  - destruct (is_down b s); simpl; congruence.
  - destruct (click_enabled b); [destruct (is_down b s); [|case_ltb]|];
      simpl; congruence.
  - auto.
Qed.

Lemma u32_succ x : u32 (u32 x + 1) = u32 (x + 1).
Proof. unfold u32. rewrite Zplus_mod_idemp_l. reflexivity. Qed.

Lemma interleave_counter steps : forall ev,
  u32 (interleave ev steps) = u32 (ev + wake_count steps).
Proof.
  induction steps as [|[b s] steps IH]; intros ev; simpl.
  - unfold wake_count. simpl. f_equal. lia.
  - rewrite IH, Button_loop_counter.
    destruct (wakes b s) eqn:Hw.
    + rewrite wake_count_cons_wake by exact Hw.
      unfold u32. rewrite Zplus_mod_idemp_l. f_equal. lia.
    + rewrite wake_count_cons_other by exact Hw. reflexivity.
Qed.

Lemma interleave_range steps : forall ev,
  0 <= ev < 2 ^ 32 -> 0 <= interleave ev steps < 2 ^ 32.
Proof.
  induction steps as [|[b s] steps IH]; intros ev Hev; simpl.
  - exact Hev.
  - apply IH. rewrite Button_loop_counter.
    destruct (wakes b s); [apply u32_range|exact Hev].
Qed.

(** C9: [getEvent()] is 0 for a new button, after the step from [Reset],
    and for every idle button from then on; the first wake-up after startup
    (the counter of [_buttons] starts at 0) also assigns 0, now to a button
    that is in [WaitDown]; and after any [loop()] calls of any buttons since
    startup, [n] of which were wake-ups, the counter is [n mod 2^32], the
    next wake-up is assigned [n mod 2^32] and leaves the counter at
    [(n + 1) mod 2^32]. *)
Theorem event_zero_twice_then_counts :
  (forall cfg pin high pp, getEvent (new_Button cfg pin high pp) = 0)
  /\ (forall ev b s, _state b = Reset -> getEvent (Button_loop ev b s).1.2 = 0)
  /\ (forall ev b s,
        (_state b = Idle -> getEvent b = 0) ->
        _state (Button_loop ev b s).1.2 = Idle ->
        getEvent (Button_loop ev b s).1.2 = 0)
  /\ (forall b s,
        wakes b s = true ->
        _state (Button_loop (g_event _buttons) b s).1.2 = WaitDown
        /\ getEvent (Button_loop (g_event _buttons) b s).1.2 = 0)
  /\ (forall steps b s,
        wakes b s = true ->
        let ev := interleave (g_event _buttons) steps in
        ev = u32 (wake_count steps)
        /\ getEvent (Button_loop ev b s).1.2 = u32 (wake_count steps)
        /\ (Button_loop ev b s).1.1 = u32 (wake_count steps + 1)).
Proof.
  split; [reflexivity|].
  split.
  { intros ev b s Hst. unfold Button_loop. rewrite Hst. reflexivity. }
  split.
  { intros ev b s Hinv Hidle.
    destruct (Button_loop_to_idle ev b s Hidle) as [Hst|[Hst Heq]].
    - unfold Button_loop. rewrite Hst. reflexivity.
    - rewrite Heq. auto. }
  split.
  { intros b s Hw. unfold wakes in Hw.
    destruct (_state b) eqn:Hst; try discriminate.
    rewrite Button_loop_wake by assumption. split; reflexivity. }
  intros steps b s Hw ev.
  assert (Hev : ev = u32 (wake_count steps)).
  { pose proof (interleave_counter steps (g_event _buttons)) as H.
    rewrite u32_small in H by (apply interleave_range; simpl; lia).
    exact H. }
  split; [exact Hev|].
  unfold wakes in Hw. destruct (_state b) eqn:Hst; try discriminate.
  rewrite Button_loop_wake by assumption. simpl.
  split; [exact Hev|]. rewrite Hev. apply u32_succ.
Qed.

Lemma event_zero_twice_then_counts_witness :
  let b := new_Button None 7 false false in
  let s := mkSample 100 false in
  getEvent (Button_loop (interleave (g_event _buttons) [(b, s); (b, s)]) b s).1.2 = 2.
Proof.
  intros b s.
  destruct event_zero_twice_then_counts as (_ & _ & _ & _ & H).
  destruct (H [(b, s); (b, s)] b s) as (_ & H2 & _).
  - reflexivity.
  - rewrite H2. reflexivity.
Defined.


(** *** Click trains and long presses *)

Lemma u8_small x : 0 <= x < 256 -> u8 x = x.
Proof. intros H. unfold u8. apply Z.mod_small. lia. Qed.

Lemma u8_range x : 0 <= u8 x < 256.
Proof. unfold u8. apply Z.mod_pos_bound. lia. Qed.

Lemma u8_add_l x y : u8 (u8 x + y) = u8 (x + y).
Proof. unfold u8. rewrite Zplus_mod_idemp_l. reflexivity. Qed.

(** The engine on a train of presses: it ends in [Reset], leaves the event
    counter alone and calls exactly the hooks of the ending. *)
Lemma train_run high hold click tr : forall e p n ev b,
  _high b = high -> hold_enabled b = hold -> click_enabled b = click ->
  agrees b p ->
  0 <= _clicks b < 256 ->
  train high hold click e p n tr = true ->
  exists b', run ev b tr = (ev, b', calls_from e p (_clicks b) n)
             /\ _state b' = Reset.
Proof.
  induction tr as [|s tr IH]; intros e p n ev b Hhi Hh Hcl Hag Hc Htr;
    [discriminate|].
  cbn [train] in Htr. cbn [run]. unfold Button_loop.
  change (is_down b s) with (asserted (_high b) s). rewrite Hh, Hcl, Hhi.
  destruct p as [since|since|]; cbn [agrees] in Hag.
  - (* pressed *)
    destruct Hag as [Hst Hus]. rewrite Hst, Hus.
    destruct (asserted high s).
    + unfold hold_due in Htr. destruct hold as [h|].
      * destruct (Z.leb_spec h (getUsecSince (now s) since)) as [Hdue|Hnot].
        -- destruct e; try discriminate.
           destruct n as [|[|n]]; try discriminate.
           rewrite ltb_ge_false by lia.
           destruct (IH EndHold Holding 1%nat ev (set_state Hold b))
             as (b' & Hrun & Hb'); auto; [reflexivity|].
           rewrite Hrun. exists b'. split; [|exact Hb'].
           cbn. rewrite u8_small by lia. do 3 f_equal. lia.
        -- rewrite ltb_lt_true by lia.
           destruct (IH e (Pressed since) n ev b) as (b' & Hrun & Hb');
             auto; [split; assumption|].
           rewrite Hrun. exists b'. split; [reflexivity|exact Hb'].
      * destruct (IH e (Pressed since) n ev (set_busy false b))
          as (b' & Hrun & Hb'); auto; [split; assumption|].
        rewrite Hrun. exists b'. split; [reflexivity|exact Hb'].
    + destruct n as [|n]; [discriminate|].
      destruct (IH e (Released (now s)) n ev
                   (set_busy true (set_usec (now s) (set_state Up b))))
        as (b' & Hrun & Hb'); auto; [split; reflexivity|].
      rewrite Hrun. exists b'. split; [|exact Hb'].
      cbn. do 3 f_equal. lia.
  - (* released *)
    destruct Hag as [Hst Hus]. rewrite Hst, Hus.
    unfold in_window in Htr. destruct click as [c|].
    + destruct (asserted high s).
      * destruct n as [|n]; [discriminate|].
        apply andb_true_iff in Htr. destruct Htr as [_ Htr].
        destruct (IH e (Pressed (now s)) (S n) ev
                     (set_usec (now s)
                        (set_clicks (u8 (_clicks b + 1)) (set_state Down b))))
          as (b' & Hrun & Hb'); auto;
          [split; reflexivity|apply u8_range|].
        rewrite Hrun. exists b'. split; [|exact Hb'].
        cbn [calls_from _clicks set_usec set_clicks app].
        replace (u8 (_clicks b + 1) + Z.of_nat (S n) - 1)
          with (u8 (_clicks b + 1) + (Z.of_nat (S n) - 1)) by lia.
        rewrite u8_add_l.
        apply (f_equal (pair (ev, b'))), (f_equal (ending_calls e)), (f_equal u8).
        lia.
      * destruct (Z.ltb_spec (getUsecSince (now s) since) c) as [Hin|Hout].
        -- destruct (IH e (Released since) n ev b) as (b' & Hrun & Hb');
             auto; [split; assumption|].
           rewrite Hrun. exists b'. split; [reflexivity|exact Hb'].
        -- destruct e; try discriminate.
           destruct n; try discriminate. destruct tr; try discriminate.
           cbn. eexists.
           split; [rewrite u8_small by lia; do 3 f_equal; lia|reflexivity].
    + destruct (asserted high s).
      * destruct n; discriminate.
      * destruct e; try discriminate.
        destruct n; try discriminate. destruct tr; try discriminate.
        cbn. eexists.
        split; [rewrite u8_small by lia; do 3 f_equal; lia|reflexivity].
  - (* holding *)
    rewrite Hag.
    destruct (asserted high s).
    + destruct (IH e Holding n ev (set_busy false b)) as (b' & Hrun & Hb');
        auto.
      rewrite Hrun. exists b'. split; [reflexivity|exact Hb'].
    + destruct tr; try discriminate.
      cbn. eexists. split; reflexivity.
Qed.

(** A whole interaction, from the idle button to [Reset]: one wake-up, one
    [handleDown], then the hooks of the ending. *)
Lemma interaction_run e n ev b s0 pre d tr :
  _state b = Idle ->
  _clicks b = 0 ->
  interaction (_high b) (hold_enabled b) (click_enabled b) e n s0 pre d tr = true ->
  exists b',
    run ev b (s0 :: pre ++ d :: tr) =
      (u32 (ev + 1), b', handleDown :: ending_calls e (u8 (Z.of_nat n - 1)))
    /\ _state b' = Reset.
Proof.
  intros Hst Hc Hint. unfold interaction in Hint.
  repeat (apply andb_true_iff in Hint; destruct Hint as [Hint ?]).
  rename Hint into Hs0, H into Htr, H0 into Hd, H1 into Hge, H2 into Hpre.
  cbn [run]. rewrite Button_loop_wake by assumption.
  set (b1 := set_busy true (set_event ev (set_usec (now s0) (set_state WaitDown b)))).
  rewrite run_app, (run_debounce _ b1); [|reflexivity|].
  2:{ apply Forall_forall. intros x Hx.
      apply Z.ltb_lt. apply (proj1 (forallb_forall _ _) Hpre).
      apply list_elem_of_In. exact Hx. }
  cbn [run]. rewrite Button_loop_settled; [|reflexivity|apply Z.leb_le; exact Hge].
  change (is_down b1 d) with (asserted (_high b) d). rewrite Hd.
  destruct (train_run (_high b) (hold_enabled b) (click_enabled b) tr e
              (Pressed (now s0)) n (u32 (ev + 1)) (set_state Down b1))
    as (b' & Hrun & Hb'); auto.
  - split; reflexivity.
  - cbn. lia.
  - rewrite Hrun. exists b'. split; [|exact Hb'].
    cbn. rewrite Hc. reflexivity.
Qed.

(** C3, as the code has it: the button has hold detection configured; the
    samples show the first press, debounced (sampled asserted 5000
    microseconds or more after its first sample), then [k] quick clicks
    (none, for a plain long press), then a press that is sampled asserted
    when [holdUsec] has passed, stays asserted, and is released. The hooks
    called from wake-up to [Reset] are exactly [handleDown], one
    [handleHold], [handleRelease] and [handleUp], in this order: no
    [handleClick], and the release leaves the machine in [Reset]. *)
Theorem long_press_one_hold (ev : Z) (b : Button) (hold : Z) (k : nat)
        (s0 d : Sample) (pre tr : list Sample) :
  _state b = Idle ->
  _clicks b = 0 ->
  hold_enabled b = Some hold ->
  interaction (_high b) (Some hold) (click_enabled b) EndHold (S k)
              s0 pre d tr = true ->
  exists b',
    run ev b (s0 :: pre ++ d :: tr) =
      (u32 (ev + 1), b',
       [handleDown; handleHold (Z.of_nat k mod 256); handleRelease; handleUp])
    /\ _state b' = Reset.
Proof.
  intros Hst Hc Hh Hint. rewrite <- Hh in Hint.
  destruct (interaction_run EndHold (S k) ev b s0 pre d tr Hst Hc Hint)
    as (b' & Hrun & Hb').
  exists b'. split; [|exact Hb'].
  rewrite Hrun. cbn [ending_calls].
  replace (Z.of_nat (S k) - 1) with (Z.of_nat k) by lia. reflexivity.
Qed.

Lemma long_press_one_hold_witness :
  let b := new_Button (Some (mkConfig 200000 500000)) 7 false false in
  let tr := [mkSample 10000 true; mkSample 12000 false; mkSample 300000 false;
             mkSample 512000 false; mkSample 600000 false; mkSample 700000 true] in
  exists b',
    run 0 b (mkSample 0 false :: [mkSample 2000 true] ++ mkSample 5000 false :: tr) =
      (u32 (0 + 1), b',
       [handleDown; handleHold (Z.of_nat 1 mod 256); handleRelease; handleUp])
    /\ _state b' = Reset.
Proof.
  intros b tr.
  apply (long_press_one_hold 0 b 500000 1 (mkSample 0 false) (mkSample 5000 false)
           [mkSample 2000 true] tr); reflexivity.
Defined.

(** C3 as stated fails: the hold time is 1000 microseconds, shorter than
    the debounce time; the pin is sampled asserted at 0, 2000 and 4999
    microseconds, longer than the hold time, and deasserted from 5000 on.
    The press ends in debouncing: no hook is called, [handleHold]
    included, and the machine is back in [Idle]. *)
Lemma hold_within_debounce_counterexample :
  let b := new_Button (Some (mkConfig 0 1000)) 7 false false in
  let held := [mkSample 0 false; mkSample 2000 false; mkSample 4999 false] in
  let r := run 0 b (held ++ [mkSample 5000 true; mkSample 6000 true]) in
  hold_enabled b = Some 1000 /\
  forallb (is_down b) held = true /\
  (1000 <=? getUsecSince 4999 0) = true /\
  r.2 = [] /\ _state r.1.2 = Idle.
Proof. vm_compute. repeat split. Qed.

(** C4, as the code has it: the button has click counting configured; the
    samples show a debounced first press and [n] press/release cycles in
    all, no press reaching the hold time, every new press sampled within
    [clickUsec] of the release before it, and then the window running out.
    The hooks called from wake-up to [Reset] are exactly [handleDown], one
    [handleClick] and [handleUp]; the count passed is [(n - 1) mod 256],
    the click counter being a [uint8_t]. *)
Theorem rapid_clicks_one_click (ev : Z) (b : Button) (click : Z) (n : nat)
        (s0 d : Sample) (pre tr : list Sample) :
  _state b = Idle ->
  _clicks b = 0 ->
  click_enabled b = Some click ->
  interaction (_high b) (hold_enabled b) (Some click) EndClick n
              s0 pre d tr = true ->
  exists b',
    run ev b (s0 :: pre ++ d :: tr) =
      (u32 (ev + 1), b',
       [handleDown; handleClick ((Z.of_nat n - 1) mod 256); handleUp])
    /\ _state b' = Reset.
Proof.
  intros Hst Hc Hcl Hint. rewrite <- Hcl in Hint.
  destruct (interaction_run EndClick n ev b s0 pre d tr Hst Hc Hint)
    as (b' & Hrun & Hb').
  exists b'. split; [|exact Hb'].
  rewrite Hrun. reflexivity.
Qed.

Lemma rapid_clicks_one_click_witness :
  let b := new_Button (Some (mkConfig 200000 500000)) 7 false false in
  exists b',
    run 0 b (mkSample 0 false :: [] ++ mkSample 5000 false :: quick_clicks 3 0) =
      (u32 (0 + 1), b',
       [handleDown; handleClick ((Z.of_nat 3 - 1) mod 256); handleUp])
    /\ _state b' = Reset.
Proof.
  intros b.
  apply (rapid_clicks_one_click 0 b 200000 3 (mkSample 0 false)
           (mkSample 5000 false) [] (quick_clicks 3 0)); reflexivity.
Defined.

(** C4 as stated fails at 257 cycles: the samples are a train of 257 quick
    clicks, and the one [handleClick] call passes 0, not 256. *)
Lemma click_count_257_counterexample :
  let b := new_Button (Some (mkConfig 200000 500000)) 7 false false in
  let s0 := mkSample 0 false in
  let d := mkSample 5000 false in
  interaction (_high b) (hold_enabled b) (click_enabled b) EndClick 257
              s0 [] d (quick_clicks 257 0) = true
  /\ (run 0 b (s0 :: d :: quick_clicks 257 0)).2 =
       [handleDown; handleClick 0; handleUp]
  /\ handleClick 0 <> handleClick (257 - 1).
Proof.
  split; [vm_compute; reflexivity|].
  split; [vm_compute; reflexivity|].
  discriminate.
Qed.


(** *** The order of the hooks *)

Ltac split_tests :=
  repeat (match goal with
          | |- context [if ?c then _ else _] => destruct c eqn:?
          | |- context [match ?c with Some _ => _ | None => _ end] =>
              destruct c eqn:?
          end; simpl).

Lemma Button_loop_bracket ev b s rest :
  well_bracketed (bracket_of (_state b)) ((Button_loop ev b s).2 ++ rest)
  = well_bracketed (bracket_of (_state (Button_loop ev b s).1.2)) rest.
Proof.
  unfold Button_loop.
  destruct (_state b) eqn:Hst; simpl; split_tests;
    rewrite ?Hst; reflexivity.
Qed.

(** X7: the hooks of a button come in press brackets, whatever the pin
    does and whenever [loop()] is called. From any state, over any sequence
    of samples: [handleDown] is called only outside a press; [handleClick]
    only after [handleDown], followed at once by [handleUp]; [handleHold]
    only after [handleDown], in place of [handleClick]; [handleRelease]
    only after [handleHold], followed at once by [handleUp]. *)
Theorem hooks_well_bracketed (tr : list Sample) (ev : Z) (b : Button) :
  well_bracketed (bracket_of (_state b)) (run ev b tr).2 = true.
Proof.
  revert ev b. induction tr as [|s tr IH]; intros ev b; simpl.
  - destruct (bracket_of (_state b)); reflexivity.
  - pose proof (Button_loop_bracket ev b s) as Hstep.
    destruct (Button_loop ev b s) as [[ev1 b1] c1].
    specialize (IH ev1 b1).
    destruct (run ev1 b1 tr) as [[ev2 b2] c2].
    simpl in *. rewrite Hstep. exact IH.
Qed.

(** *** Buttons without a click window or a hold time *)

Lemma Button_loop_no_window ev b s :
  click_enabled b = None -> _clicks b = 0 ->
  click_enabled (Button_loop ev b s).1.2 = None
  /\ _clicks (Button_loop ev b s).1.2 = 0
  /\ Forall (fun c => forall n, count_of c = Some n -> n = 0)
            (Button_loop ev b s).2.
Proof.
  intros Hclick Hzero. unfold Button_loop.
  destruct (_state b) eqn:Hst; simpl; rewrite ?Hclick; split_tests;
    repeat split; try assumption; try reflexivity;
    rewrite ?Hzero; repeat constructor; simpl; congruence.
Qed.

(** X8: a button without a click window (no configuration, or a
    [clickUsec] of 0) never counts: whatever the pin does, every
    [handleClick] and every [handleHold] it calls passes 0. *)
Theorem no_click_window_counts_zero (tr : list Sample) (ev : Z) (b : Button) :
  click_enabled b = None -> _clicks b = 0 ->
  Forall (fun c => forall n, count_of c = Some n -> n = 0) (run ev b tr).2.
Proof.
  revert ev b. induction tr as [|s tr IH]; intros ev b Hclick Hzero; simpl.
  - constructor.
  - destruct (Button_loop_no_window ev b s Hclick Hzero)
      as (Hclick1 & Hzero1 & Hcalls).
    destruct (Button_loop ev b s) as [[ev1 b1] c1].
    specialize (IH ev1 b1 Hclick1 Hzero1).
    destruct (run ev1 b1 tr) as [[ev2 b2] c2].
    simpl in *. apply Forall_app. split; assumption.
Qed.

Lemma no_click_window_counts_zero_witness :
  Forall (fun c => forall n, count_of c = Some n -> n = 0)
    (run 0 (new_Button None 7 false false)
       [mkSample 1000 false; mkSample 7000 false; mkSample 9000 true;
        mkSample 9001 true]).2.
Proof.
  apply (no_click_window_counts_zero
           [mkSample 1000 false; mkSample 7000 false; mkSample 9000 true;
            mkSample 9001 true]
           0 (new_Button None 7 false false)).
  - reflexivity.
  - reflexivity.
Defined.

Lemma Button_loop_no_hold ev b s :
  hold_enabled b = None -> _state b <> Hold ->
  hold_enabled (Button_loop ev b s).1.2 = None
  /\ _state (Button_loop ev b s).1.2 <> Hold
  /\ forallb (fun c => negb (is_hold_hook c)) (Button_loop ev b s).2 = true.
Proof.
  intros Hhold Hstate. unfold Button_loop.
  destruct (_state b) eqn:Hst; try contradiction; simpl; rewrite ?Hhold;
    split_tests; repeat split; try assumption; try discriminate;
    rewrite ?Hst; try discriminate.
Qed.

(** X9: a button without a hold time (no configuration, or a [holdUsec]
    of 0) never reports a hold: however long the pin stays asserted,
    neither [handleHold] nor [handleRelease] is called. *)
Theorem no_hold_time_never_holds (tr : list Sample) (ev : Z) (b : Button) :
  hold_enabled b = None -> _state b <> Hold ->
  forallb (fun c => negb (is_hold_hook c)) (run ev b tr).2 = true.
Proof.
  revert ev b. induction tr as [|s tr IH]; intros ev b Hhold Hstate; simpl.
  - reflexivity.
  - destruct (Button_loop_no_hold ev b s Hhold Hstate)
      as (Hhold1 & Hstate1 & Hcalls).
    destruct (Button_loop ev b s) as [[ev1 b1] c1].
    specialize (IH ev1 b1 Hhold1 Hstate1).
    destruct (run ev1 b1 tr) as [[ev2 b2] c2].
    simpl in *. rewrite forallb_app, Hcalls, IH. reflexivity.
Qed.

Lemma no_hold_time_never_holds_witness :
  forallb (fun c => negb (is_hold_hook c))
    (run 0 (new_Button (Some (mkConfig 300000 0)) 7 false false)
       [mkSample 1000 false; mkSample 7000 false;
        mkSample 4000000000 false]).2 = true.
Proof.
  apply (no_hold_time_never_holds
           [mkSample 1000 false; mkSample 7000 false;
            mkSample 4000000000 false]
           0 (new_Button (Some (mkConfig 300000 0)) 7 false false)).
  - reflexivity.
  - discriminate.
Defined.

(** *** When the engine sleeps *)

Lemma Button_loop_timed ev b s :
  timed_is_busy b -> timed_is_busy (Button_loop ev b s).1.2.
Proof.
  unfold timed_is_busy, waits_for_pin, Button_loop. intros Hb.
  destruct (_state b) eqn:Hst; simpl; split_tests;
    rewrite ?Hst; try (intros; exact I); try discriminate;
    try (intros Hbusy; destruct (Hb Hbusy); fail);
    try (intros Hbusy; specialize (Hb Hbusy); congruence);
    try (intros _; assumption).
Qed.

Lemma scan_timed bs : forall ev env i busy,
  Forall timed_is_busy bs ->
  Forall timed_is_busy (scan ev bs env i busy).1.1.2
  /\ ((scan ev bs env i busy).2 = false ->
      busy = false
      /\ Forall (fun b => _busy b = false) (scan ev bs env i busy).1.1.2).
Proof.
  induction bs as [|b bs IH]; intros ev env i busy Hbs; simpl.
  - split; [constructor|]. intros ->. split; [reflexivity|constructor].
  - apply Forall_cons in Hbs. destruct Hbs as [Hb Hbs].
    pose proof (Button_loop_timed ev b (env i) Hb) as Hb1.
    destruct (Button_loop ev b (env i)) as [[ev1 b1] calls].
    specialize (IH ev1 env (S i) (if _busy b1 then true else busy) Hbs).
    destruct (scan ev1 bs env (S i) (if _busy b1 then true else busy))
      as [[[ev2 bs2] log] busy2].
    simpl in *. destruct IH as [IH1 IH2].
    split; [constructor; assumption|].
    intros Hbusy. destruct (IH2 Hbusy) as [Hif Hall].
    destruct (_busy b1) eqn:Hb1busy; [discriminate|].
    split; [exact Hif|]. constructor; assumption.
Qed.

Lemma tick_sleeps_well g k : sleeps_well g -> sleeps_well (tick g k).1.
Proof.
  intros [Htimed Hsleep]. destruct k as [|t1 t2 env]; simpl.
  - split; [exact Htimed|discriminate].
  - unfold V2Buttons_loop.
    destruct (negb (g_busy g)); [split; assumption|].
    destruct (getUsecSince t1 (g_usec g) <? 1000); [split; assumption|].
    pose proof (scan_timed (g_list g) (g_event g) env 0%nat false Htimed)
      as [Hscan1 Hscan2].
    destruct (scan (g_event g) (g_list g) env 0 false)
      as [[[ev bs] log] busy].
    simpl in *. split; [exact Hscan1|].
    intros Hbusy. destruct (Hscan2 Hbusy) as [_ Hall].
    rewrite Forall_forall in *. intros b Hin.
    exact (Hscan1 b Hin (Hall b Hin)).
Qed.

Lemma ticks_sleeps_well ks : forall g,
  sleeps_well g -> sleeps_well (ticks g ks).1.
Proof.
  induction ks as [|k ks IH]; intros g Hg; simpl; [exact Hg|].
  pose proof (tick_sleeps_well g k Hg) as Hg1.
  destruct (tick g k) as [g1 l1].
  specialize (IH g1 Hg1).
  destruct (ticks g1 ks) as [g2 l2]. exact IH.
Qed.

Lemma registered_list bs : forall g,
  g_list (foldl (fun g b => (begin g b).1) g bs) = rev bs ++ g_list g
  /\ g_busy (foldl (fun g b => (begin g b).1) g bs) = g_busy g.
Proof.
  induction bs as [|b bs IH]; intros g; cbn [foldl];
    [split; reflexivity|].
  destruct (IH (begin g b).1) as [-> ->].
  simpl. rewrite <- app_assoc. split; reflexivity.
Qed.

(** X10: the engine stops polling only when no timer runs. Buttons are
    registered with [begin()] while idle; after any sequence of pin
    interrupts and [V2Buttons::loop()] calls, whatever the pins and the
    clock showed, a cleared busy flag means that every button is idle, or
    pressed with no hold time configured, or held: no debounce time, hold
    time or click window is waiting to run out while nothing polls. *)
Theorem sleeps_only_waiting_for_pins (bs : list Button) (ks : list Tick) :
  Forall (fun b => _state b = Idle) bs ->
  g_busy (ticks (registered bs) ks).1 = false ->
  Forall waits_for_pin (g_list (ticks (registered bs) ks).1).
Proof.
  intros Hidle Hbusy.
  assert (Hstart : sleeps_well (registered bs)).
  { unfold sleeps_well, registered.
    destruct (registered_list bs _buttons) as [-> ->]. simpl.
    split; [|discriminate].
    rewrite app_nil_r. apply Forall_rev.
    eapply Forall_impl; [exact Hidle|].
    intros b Hb _. unfold waits_for_pin. rewrite Hb. exact I. }
  exact (proj2 (ticks_sleeps_well ks _ Hstart) Hbusy).
Qed.

Lemma sleeps_only_waiting_for_pins_witness :
  Forall waits_for_pin
    (g_list (ticks (registered [new_Button (Some (mkConfig 300000 0)) 7 false
                                           false])
               [LoopCall 2000 2001 (fun _ => mkSample 2000 false);
                LoopCall 8000 8001 (fun _ => mkSample 8000 false);
                LoopCall 9500 9501 (fun _ => mkSample 9500 false)]).1).
Proof.
  apply (sleeps_only_waiting_for_pins
           [new_Button (Some (mkConfig 300000 0)) 7 false false]
           [LoopCall 2000 2001 (fun _ => mkSample 2000 false);
            LoopCall 8000 8001 (fun _ => mkSample 8000 false);
            LoopCall 9500 9501 (fun _ => mkSample 9500 false)]).
  - repeat constructor.
  - reflexivity.
Defined.

Lemma scan_at_rest bs : forall ev env i,
  Forall (fun b => _state b = Idle /\ _busy b = false) bs ->
  (forall j b, bs !! j = Some b -> is_down b (env (i + j)%nat) = false) ->
  scan ev bs env i false = (ev, bs, map DigitalRead (map _pin bs), false).
Proof.
  induction bs as [|b bs IH]; intros ev env i Hidle Hrest; simpl;
    [reflexivity|].
  apply Forall_cons in Hidle. destruct Hidle as [[Hb Hquiet] Hbs].
  assert (Hstep : Button_loop ev b (env i) = (ev, b, [])).
  { unfold Button_loop. rewrite Hb.
    specialize (Hrest 0%nat b eq_refl). rewrite Nat.add_0_r in Hrest.
    rewrite Hrest. reflexivity. }
  rewrite Hstep, Hquiet.
  rewrite (IH ev env (S i) Hbs).
  - reflexivity.
  - intros j b' Hj. specialize (Hrest (S j) b' Hj).
    rewrite Nat.add_succ_r in Hrest. exact Hrest.
Qed.

(** X11: with no button pressed, one scan puts the engine to sleep. When
    every button is idle and every pin reads as not asserted, a call of
    [V2Buttons::loop()] that scans reads each pin once, calls no hook,
    leaves the buttons and the event counter as they are, and clears the
    busy flag, so that later calls return at their first test until the
    next pin interrupt. *)
Theorem scan_at_rest_sleeps (g : Globals) (t1 t2 : Z) (env : nat -> Sample) :
  g_busy g = true ->
  1000 <= getUsecSince t1 (g_usec g) ->
  Forall (fun b => _state b = Idle /\ _busy b = false) (g_list g) ->
  at_rest (g_list g) env ->
  V2Buttons_loop g t1 t2 env
  = (mkGlobals t2 (g_event g) (g_list g) false,
     map DigitalRead (map _pin (g_list g)))
  /\ forall t1' t2' env',
       V2Buttons_loop (V2Buttons_loop g t1 t2 env).1 t1' t2' env'
       = ((V2Buttons_loop g t1 t2 env).1, []).
Proof.
  intros Hbusy Hdue Hidle Hrest.
  assert (Hloop : V2Buttons_loop g t1 t2 env
                  = (mkGlobals t2 (g_event g) (g_list g) false,
                     map DigitalRead (map _pin (g_list g)))).
  { unfold V2Buttons_loop. rewrite Hbusy. simpl negb. cbv iota.
    rewrite (ltb_ge_false _ _ Hdue).
    rewrite (scan_at_rest (g_list g) (g_event g) env 0%nat Hidle Hrest).
    reflexivity. }
  split; [exact Hloop|].
  intros t1' t2' env'. rewrite Hloop. reflexivity.
Qed.

Lemma scan_at_rest_sleeps_witness :
  V2Buttons_loop (registered [new_Button None 7 false false;
                              new_Button None 8 true false])
    2000 2001 (fun i => mkSample 2000 (Nat.eqb i 1))
  = (mkGlobals 2001 0 [new_Button None 8 true false;
                       new_Button None 7 false false] false,
     [DigitalRead 8; DigitalRead 7]).
Proof.
  apply (proj1 (scan_at_rest_sleeps
                  (registered [new_Button None 7 false false;
                               new_Button None 8 true false])
                  2000 2001 (fun i => mkSample 2000 (Nat.eqb i 1))
                  eq_refl ltac:(vm_compute; discriminate)
                  ltac:(repeat constructor)
                  ltac:(intros [|[|i]] b Hb; inversion Hb; reflexivity))).
Defined.

End ButtonsFacts.

Module SolenoidsFacts.
Import Time Solenoids.

Section ControllerFacts.
Context {F : Type} {FloatF : Float F}.
Variable hw : Hardware (F := F).

#[local] Existing Instance M_ret.
#[local] Existing Instance M_bind.

Local Abbreviation St := (V2Solenoids (F := F)).
Local Abbreviation Act := (M (F := F)).

Lemma run_bind {A B} (m : Act A) (k : A -> Act B) (s : St) :
  (m ≫= k) s = k (m s).1 (m s).2.
Proof. unfold mbind, M_bind. destruct (m s). reflexivity. Qed.

(** *** What a member function leaves alone *)

Section Keeps.
Context {X : Type} (f : St -> X).

Lemma keeps_ret {A} (x : A) : keeps f (mret x : Act A).
Proof. intros s. reflexivity. Qed.

Lemma keeps_skip : keeps f skip.
Proof. intros s. reflexivity. Qed.

Lemma keeps_bind {A B} (m : Act A) (k : A -> Act B) :
  keeps f m -> (forall x, keeps f (k x)) -> keeps f (m ≫= k).
Proof.
  intros Hm Hk s. rewrite run_bind. rewrite Hk. apply Hm.
Qed.

Lemma keeps_gets {A} (g : St -> A) : keeps f (gets g).
Proof. intros s. reflexivity. Qed.

Lemma keeps_modify (g : St -> St) :
  (forall s, f (g s) = f s) -> keeps f (modify g).
Proof. intros H s. apply H. Qed.

Lemma keeps_when c (m : Act unit) : keeps f m -> keeps f (when c m).
Proof. intros H. destruct c; [exact H|apply keeps_skip]. Qed.

Lemma keeps_if {A} (c : bool) (m1 m2 : Act A) :
  keeps f m1 -> keeps f m2 -> keeps f (if c then m1 else m2).
Proof. destruct c; auto. Qed.

Lemma keeps_for_each l (body : nat -> Act unit) :
  (forall i, keeps f (body i)) -> keeps f (for_each l body).
Proof.
  intros H. induction l as [|i l IH]; simpl.
  - apply keeps_skip.
  - apply keeps_bind; auto.
Qed.

Lemma keeps_for_ports (body : nat -> Act unit) :
  (forall i, keeps f (body i)) -> keeps f (for_ports body).
Proof. intros H s. unfold for_ports. apply keeps_for_each. exact H. Qed.

End Keeps.

Create HintDb keeps.

Ltac keeps_step :=
  first
    [ apply keeps_skip
    | apply keeps_ret
    | apply keeps_gets
    | apply keeps_bind; [|intros ?]
    | apply keeps_when
    | apply keeps_for_ports; intros ?
    | apply keeps_for_each; intros ?
    | match goal with
      | |- keeps _ (if ?c then _ else _) => destruct c
      | |- keeps _ (match ?x with _ => _ end) => destruct x
      end
    | solve [auto with keeps] ].

Ltac keeps_tac := repeat keeps_step.

(** Everything in the class except [measureCurrent] and [reset] leaves
    alone whatever depends neither on the hardware log, the timestamps, the
    probe, nor on what the ports hold. *)
Section Frame.
Context {X : Type} (f : St -> X).
Hypothesis f_called : forall s, f (called s) = f s.
Hypothesis f_emitted : forall o s, f (emitted o s) = f s.
Hypothesis f_alter :
  forall g i s, f (set_ports (alter g i (_ports s)) s) = f s.
Hypothesis f_probe : forall q s, f (set_probe q s) = f s.
Hypothesis f_loopUsec : forall t s, f (set_loopUsec t s) = f s.
Hypothesis f_powerUsec : forall t s, f (set_powerUsec t s) = f s.
Hypothesis f_timeoutUsec : forall t s, f (set_timeoutUsec t s) = f s.

Lemma keeps_getUsec : keeps f (getUsec hw).
Proof. intros s. apply f_called. Qed.

Lemma keeps_readVoltage : keeps f (readVoltage hw).
Proof. intros s. apply f_called. Qed.

Lemma keeps_readResistanceVoltage : keeps f (readResistanceVoltage hw).
Proof. intros s. apply f_called. Qed.

Lemma keeps_setPower st : keeps f (setPower hw st).
Proof. intros s. simpl. rewrite f_called. apply f_emitted. Qed.

Lemma keeps_setPWMDuty i d : keeps f (setPWMDuty i d).
Proof. intros s. apply f_emitted. Qed.

Lemma keeps_setLED m i v : keeps f (setLED m i v).
Proof. intros s. apply f_emitted. Qed.

Lemma keeps_update_port i g : keeps f (update_port i g).
Proof. intros s. apply f_alter. Qed.

Lemma keeps_update_probe g : keeps f (update_probe g).
Proof. intros s. apply f_probe. Qed.

Lemma keeps_set_probe q : keeps f (modify (set_probe q)).
Proof. intros s. apply f_probe. Qed.

Lemma keeps_set_loopUsec t : keeps f (modify (set_loopUsec t)).
Proof. intros s. apply f_loopUsec. Qed.

Lemma keeps_set_powerUsec t : keeps f (modify (set_powerUsec t)).
Proof. intros s. apply f_powerUsec. Qed.

Lemma keeps_set_timeoutUsec t : keeps f (modify (set_timeoutUsec t)).
Proof. intros s. apply f_timeoutUsec. Qed.

Lemma keeps_port_at i : keeps f (port_at i).
Proof. apply keeps_gets. Qed.

#[local] Hint Resolve keeps_getUsec keeps_readVoltage
  keeps_readResistanceVoltage keeps_setPower keeps_setPWMDuty keeps_setLED
  keeps_update_port keeps_update_probe keeps_set_probe keeps_set_loopUsec
  keeps_set_powerUsec keeps_set_timeoutUsec keeps_port_at : keeps.

Lemma keeps_getUsecSince since : keeps f (getUsecSince hw since).
Proof. unfold getUsecSince. keeps_tac. Qed.

#[local] Hint Resolve keeps_getUsecSince : keeps.

Lemma keeps_updateLED i force : keeps f (updateLED i force).
Proof. unfold updateLED. keeps_tac. Qed.

#[local] Hint Resolve keeps_updateLED : keeps.

Lemma keeps_releasePort i : keeps f (releasePort i).
Proof. unfold releasePort. keeps_tac. Qed.

Lemma keeps_fadeOutPort i : keeps f (fadeOutPort i).
Proof. unfold fadeOutPort. keeps_tac. Qed.

#[local] Hint Resolve keeps_releasePort keeps_fadeOutPort : keeps.

Lemma keeps_drive_port i : keeps f (drive_port hw i).
Proof. unfold drive_port. keeps_tac. Qed.

#[local] Hint Resolve keeps_drive_port : keeps.

Lemma keeps_drive_ports l : forall busy, keeps f (drive_ports hw l busy).
Proof.
  induction l as [|i l IH]; intros busy; cbn [drive_ports]; keeps_tac.
Qed.

Lemma keeps_blank_leds : keeps f (blank_leds hw).
Proof. unfold blank_leds. keeps_tac. Qed.

Lemma keeps_measureResistance : keeps f (measureResistance hw).
Proof. unfold measureResistance. keeps_tac. Qed.

#[local] Hint Resolve keeps_measureResistance : keeps.

Lemma keeps_probe_step : keeps f (probe_step hw).
Proof. unfold probe_step. keeps_tac. Qed.

#[local] Hint Resolve keeps_probe_step : keeps.

Lemma keeps_power_off_and_probe : keeps f (power_off_and_probe hw).
Proof. unfold power_off_and_probe. keeps_tac. Qed.

Lemma keeps_shutdown : keeps f shutdown.
Proof. unfold shutdown. keeps_tac. Qed.

Lemma keeps_wattsToPWMDuty i w : keeps f (wattsToPWMDuty hw i w).
Proof. unfold wattsToPWMDuty. keeps_tac. Qed.

#[local] Hint Resolve keeps_wattsToPWMDuty : keeps.

Lemma keeps_triggerPort i w sec fi fo : keeps f (triggerPort hw i w sec fi fo).
Proof. unfold triggerPort. keeps_tac. Qed.

End Frame.

(** The two instances used below: the inputs of the over-current test and
    the number of ports. *)
Lemma test_inputs_power_off_and_probe :
  keeps (F := F) test_inputs (power_off_and_probe hw).
Proof. apply keeps_power_off_and_probe; reflexivity. Qed.

Lemma nPorts_alter g i (s : St) :
  nPorts (set_ports (alter g i (_ports s)) s) = nPorts s.
Proof. unfold nPorts. simpl. apply length_alter. Qed.

Lemma nPorts_measureCurrent : keeps nPorts (measureCurrent hw).
Proof.
  unfold measureCurrent. keeps_tac; intros s; reflexivity.
Qed.

(** *** Releasing ports *)

Lemma ports_updateLED i force : keeps (F := F) _ports (updateLED i force).
Proof.
  unfold updateLED, port_at, setLED. keeps_tac; intros ?; reflexivity.
Qed.

(** A loop over port indices whose body rewrites its own port, and rewrites
    it into a released one. *)
Section Sweep.
Variable body : nat -> Act unit.
Variable g : Port (F := F) -> Port (F := F).
Hypothesis body_ports :
  forall i s, _ports (body i s).2 = alter g i (_ports s).
Hypothesis g_released : forall q, released (g q).

Lemma for_each_sweep l : forall (s : St) j p,
  _ports (for_each l body s).2 !! j = Some p ->
  (j ∈ l -> released p) /\ (j ∉ l -> _ports s !! j = Some p).
Proof.
  induction l as [|i l IH]; intros s j p Hp.
  - split; [intros H; inversion H|intros _; exact Hp].
  - cbn [for_each] in Hp. rewrite run_bind in Hp.
    destruct (IH _ _ _ Hp) as [Hin Hout].
    rewrite body_ports in Hout.
    destruct (decide (j ∈ l)) as [Hjl|Hjl].
    + split; [intros _; auto|].
      intros Hn. exfalso. apply Hn. right. exact Hjl.
    + specialize (Hout Hjl).
      destruct (decide (j = i)) as [->|Hne].
      * split; [intros _|intros Hn; exfalso; apply Hn; left].
        rewrite list_lookup_alter_eq in Hout.
        destruct (_ports s !! i) as [q|]; simpl in Hout; [|discriminate].
        assert (Hq : p = g q) by congruence.
        rewrite Hq. apply g_released.
      * rewrite list_lookup_alter_ne in Hout by congruence.
        split; [|intros _; exact Hout].
        intros Hin'. apply elem_of_cons in Hin'. destruct Hin'; tauto.
Qed.

Lemma for_each_sweep_length l : forall (s : St),
  nPorts (for_each l body s).2 = nPorts s.
Proof.
  induction l as [|i l IH]; intros s; [reflexivity|].
  cbn [for_each]. rewrite run_bind, IH. unfold nPorts.
  rewrite body_ports, length_alter. reflexivity.
Qed.

Lemma for_ports_sweep (s : St) :
  Forall released (_ports (for_ports body s).2)
  /\ nPorts (for_ports body s).2 = nPorts s.
Proof.
  unfold for_ports. split; [|apply for_each_sweep_length].
  apply Forall_lookup. intros j p Hp.
  apply (for_each_sweep _ _ _ _ Hp).
  apply elem_of_seq. split; [lia|]. simpl.
  apply lookup_lt_Some in Hp.
  fold (nPorts (for_each (seq 0 (nPorts s)) body s).2) in Hp.
  rewrite for_each_sweep_length in Hp. exact Hp.
Qed.

End Sweep.

Lemma releasePort_ports i (s : St) :
  _ports (releasePort i s).2 = alter release i (_ports s).
Proof.
  unfold releasePort. rewrite !run_bind, ports_updateLED.
  cbn. rewrite !list_alter_alter_eq. reflexivity.
Qed.

Lemma for_ports_releasePort (s : St) :
  Forall released (_ports (for_ports releasePort s).2)
  /\ nPorts (for_ports releasePort s).2 = nPorts s.
Proof.
  apply (for_ports_sweep releasePort release).
  - apply releasePort_ports.
  - intros q. repeat split.
Qed.

(** *** The over-current cutoff *)

(** A call of [loop()] that is not rate limited ends with the over-current
    test, taken on the state after [measureCurrent()], which has the ports
    array at its length. *)
Lemma loop_due (s : St) :
  1000 <= Time.getUsecSince (micros_at hw (calls s)) (_loopUsec s) ->
  exists (busy : bool) (s5 : St),
    nPorts s5 = nPorts s /\
    loop hw s =
      (if fgt (_current s5) (current_max (_config s5)) then shutdown
       else if busy then skip
       else power_off_and_probe hw) s5.
Proof.
  intros Hdue. unfold loop.
  rewrite run_bind. cbn [gets fst snd].
  rewrite run_bind.
  replace ((getUsecSince hw (_loopUsec s) s).1)
    with (Time.getUsecSince (micros_at hw (calls s)) (_loopUsec s))
    by reflexivity.
  rewrite (proj2 (Z.ltb_ge _ _) Hdue).
  do 5 rewrite run_bind. rewrite run_bind.
  set (s4 := (drive_ports hw _ false _).2).
  set (busy := (drive_ports hw _ false _).1).
  rewrite !run_bind. cbn [gets fst snd].
  exists busy, (measureCurrent hw s4).2. split; [|reflexivity].
  rewrite nPorts_measureCurrent. unfold s4.
  rewrite keeps_drive_ports by (auto using nPorts_alter).
  cbn [gets fst snd].
  rewrite keeps_blank_leds by (auto using nPorts_alter).
  reflexivity.
Qed.

Lemma shutdown_run (s : St) :
  let s' := (shutdown s).2 in
  Forall released (_ports s')
  /\ nPorts s' = nPorts s
  /\ _probe s' = Probe0
  /\ last (outputs s') = Some (SetLED LedOverCurrent 0 no_value).
Proof.
  unfold shutdown. cbv zeta. rewrite !run_bind.
  destruct (for_ports_releasePort s) as [Hrel Hlen].
  split; [exact Hrel|].
  split; [exact Hlen|].
  split; [reflexivity|].
  cbn. apply last_snoc.
Qed.

(** While the probe is not ready a trigger is a no-op. *)
Lemma triggerPort_not_ready port watts seconds fi fo (s : St) :
  ready (_probe s) = false ->
  triggerPort hw port watts seconds fi fo s = (tt, s).
Proof.
  intros Hr. unfold triggerPort. rewrite run_bind. cbn [gets fst snd].
  rewrite Hr. reflexivity.
Qed.

Lemma overcurrent_tick (s : St) :
  1000 <= Time.getUsecSince (micros_at hw (calls s)) (_loopUsec s) ->
  let s' := (loop hw s).2 in
  fgt (_current s') (current_max (_config s')) = true ->
  Forall released (_ports s')
  /\ nPorts s' = nPorts s
  /\ _probe s' = Probe0
  /\ ready (_probe s') = false
  /\ last (outputs s') = Some (SetLED LedOverCurrent 0 no_value)
  /\ forall port watts seconds fi fo,
       triggerPort hw port watts seconds fi fo s' = (tt, s').
Proof.
  intros Hdue s' Hover.
  destruct (loop_due s Hdue) as (busy & s5 & Hn & Hloop).
  unfold s' in *. clear s'. rewrite Hloop in *.
  destruct (fgt (_current s5) (current_max (_config s5))) eqn:Htest.
  - destruct (shutdown_run s5) as (Hrel & Hlen & Hprobe & Hled).
    split; [exact Hrel|].
    split; [congruence|].
    split; [exact Hprobe|].
    split; [rewrite Hprobe; reflexivity|].
    split; [exact Hled|].
    intros. apply triggerPort_not_ready. rewrite Hprobe. reflexivity.
  - exfalso.
    assert (Hsame : test_inputs
                      ((if busy then skip else power_off_and_probe hw) s5).2
                    = test_inputs s5).
    { destruct busy; [reflexivity|]. apply test_inputs_power_off_and_probe. }
    unfold test_inputs in Hsame. injection Hsame as Hc Hm.
    rewrite Hc, Hm in Hover. congruence.
Qed.

(** A rate-limited call of [loop()] reads the clock and does nothing else. *)
Lemma loop_early (s : St) :
  Time.getUsecSince (micros_at hw (calls s)) (_loopUsec s) < 1000 ->
  loop hw s = (tt, called s).
Proof.
  intros Hearly. unfold loop.
  rewrite run_bind. cbn [gets fst snd]. rewrite run_bind.
  replace ((getUsecSince hw (_loopUsec s) s).1)
    with (Time.getUsecSince (micros_at hw (calls s)) (_loopUsec s))
    by reflexivity.
  rewrite (proj2 (Z.ltb_lt _ _) Hearly). reflexivity.
Qed.

Lemma cut_off_new config n cycle0 :
  cut_off (V2Solenoids_new (F := F) config n cycle0).
Proof.
  intros _. split; [|reflexivity].
  simpl. apply Forall_replicate. repeat split.
Qed.

Lemma cut_off_reset (s : St) : cut_off (reset hw s).2.
Proof.
  intros _. unfold reset. rewrite !run_bind.
  set (s1 := (modify (set_current f0) _).2).
  destruct (for_ports_sweep
              (fun i => update_port i (fun _ => fresh_port);;
                        setPWMDuty i f0;; updateLED i false)
              (fun _ => fresh_port)) with (s := s1) as [Hrel _].
  - intros i s0. rewrite !run_bind, ports_updateLED. reflexivity.
  - intros q. repeat split.
  - split; [exact Hrel|].
    assert (Hp : keeps (F := F) _probe
                   (for_ports (fun i => update_port i (fun _ => fresh_port);;
                                        setPWMDuty i f0;; updateLED i false))).
    { apply keeps_for_ports. intros i.
      unfold update_port, setPWMDuty, updateLED, port_at, setLED.
      keeps_tac; intros ?; reflexivity. }
    rewrite Hp. reflexivity.
Qed.

Lemma cut_off_loop (s : St) : cut_off s -> cut_off (loop hw s).2.
Proof.
  intros Hs.
  destruct (Z.lt_ge_cases
              (Time.getUsecSince (micros_at hw (calls s)) (_loopUsec s)) 1000)
    as [Hearly|Hdue].
  - rewrite loop_early by exact Hearly. exact Hs.
  - intros Hover.
    destruct (overcurrent_tick s Hdue Hover) as (Hrel & _ & _ & Hready & _).
    split; assumption.
Qed.

Lemma cut_off_triggerPort port watts seconds fi fo (s : St) :
  cut_off s -> cut_off (triggerPort hw port watts seconds fi fo s).2.
Proof.
  intros Hs Hover.
  assert (Hsame : test_inputs (triggerPort hw port watts seconds fi fo s).2
                  = test_inputs s)
    by (apply keeps_triggerPort; reflexivity).
  unfold test_inputs in Hsame. injection Hsame as Hc Hm.
  rewrite Hc, Hm in Hover.
  destruct (Hs Hover) as [Hrel Hready].
  rewrite triggerPort_not_ready by exact Hready.
  split; assumption.
Qed.



(** *** The parts of a [loop()] call *)

Lemma measureCurrent_keeps {X} (f : St -> X) :
  (forall s, f (called s) = f s) ->
  (forall c s, f (set_current c s) = f s) ->
  keeps f (measureCurrent hw).
Proof.
  intros Hcalled Hcurrent. unfold measureCurrent, readCurrent.
  keeps_tac; intros s; simpl; rewrite ?Hcurrent, ?Hcalled; reflexivity.
Qed.

(** A call of [loop()] that is not rate limited: the state [s3] in which
    the ports are driven differs from the one at the call in the clock
    reads, the loop timestamp and what switching the LEDs off changes. *)
Lemma loop_due_parts (s : St) :
  1000 <= Time.getUsecSince (micros_at hw (calls s)) (_loopUsec s) ->
  exists s3 : St,
    _ports s3 = _ports s /\ _probe s3 = _probe s
    /\ _powerUsec s3 = _powerUsec s /\ _config s3 = _config s
    /\ loop hw s =
       (if fgt (_current (measureCurrent hw
                            (drive_ports hw (seq 0 (nPorts s)) false s3).2).2)
               (current_max (_config s))
        then shutdown
        else if (drive_ports hw (seq 0 (nPorts s)) false s3).1 then skip
             else power_off_and_probe hw)
         (measureCurrent hw
            (drive_ports hw (seq 0 (nPorts s)) false s3).2).2.
Proof.
  intros Hdue. unfold loop.
  rewrite run_bind. cbn [gets fst snd].
  rewrite run_bind.
  replace ((getUsecSince hw (_loopUsec s) s).1)
    with (Time.getUsecSince (micros_at hw (calls s)) (_loopUsec s))
    by reflexivity.
  rewrite (proj2 (Z.ltb_ge _ _) Hdue).
  do 5 rewrite run_bind.
  set (s2 := (modify _ _).2).
  exists (blank_leds hw s2).2.
  assert (Hn : nPorts (blank_leds hw s2).2 = nPorts s).
  { rewrite keeps_blank_leds by (auto using nPorts_alter). reflexivity. }
  split; [rewrite keeps_blank_leds by reflexivity; reflexivity|].
  split; [rewrite keeps_blank_leds by reflexivity; reflexivity|].
  split; [rewrite keeps_blank_leds by reflexivity; reflexivity|].
  split; [rewrite keeps_blank_leds by reflexivity; reflexivity|].
  cbn [gets fst snd]. rewrite Hn.
  rewrite !run_bind. cbn [gets fst snd].
  rewrite (measureCurrent_keeps _config) by reflexivity.
  rewrite (keeps_drive_ports _config) by reflexivity.
  rewrite (keeps_blank_leds _config) by reflexivity.
  reflexivity.
Qed.

(** The port loop finds nothing to do when every port is idle, and reports
    busy when it was busy before. *)
Lemma drive_ports_idle l : forall (busy : bool) (s : St),
  Forall (fun p => state p = Idle) (_ports s) ->
  drive_ports hw l busy s = (busy, s).
Proof.
  induction l as [|i l IH]; intros busy s Hidle; [reflexivity|].
  cbn [drive_ports]. rewrite run_bind. cbn [port_at gets fst snd].
  assert (Hi : state (default Port0 (_ports s !! i)) = Idle).
  { destruct (_ports s !! i) as [p|] eqn:Hp; [|reflexivity].
    rewrite Forall_lookup in Hidle. exact (Hidle i p Hp). }
  rewrite Hi. simpl. apply IH. exact Hidle.
Qed.

Lemma drive_ports_busy l : forall (s : St),
  (drive_ports hw l true s).1 = true.
Proof.
  induction l as [|i l IH]; intros s; [reflexivity|].
  cbn [drive_ports]. rewrite run_bind. cbn [port_at gets fst snd].
  destruct (DriverState_is_idle _); [apply IH|].
  rewrite run_bind. apply IH.
Qed.

Lemma drive_ports_not_busy l : forall (s : St),
  (drive_ports hw l false s).1 = false ->
  drive_ports hw l false s = (false, s).
Proof.
  induction l as [|i l IH]; intros s Hbusy; [reflexivity|].
  cbn [drive_ports] in *. rewrite run_bind in *. cbn [port_at gets fst snd] in *.
  destruct (DriverState_is_idle _); [apply IH; exact Hbusy|].
  rewrite run_bind in Hbusy. rewrite drive_ports_busy in Hbusy.
  discriminate.
Qed.



(** *** Reset *)

(** What [reset()] does for one port. *)
Lemma reset_port_run i (s : St) :
  (update_port i (fun _ => fresh_port);;
   setPWMDuty i f0;; updateLED i false) s
  = (tt,
     emitted (SetLED LedOff i no_value)
       (emitted (SetPWMDuty i f0)
          (set_ports (alter (fun _ => fresh_port) i (_ports s)) s))).
Proof.
  rewrite !run_bind. cbn [update_port setPWMDuty modify fst snd].
  unfold updateLED. rewrite run_bind. cbn [gets fst snd].
  destruct (negb false && (_ =? 0)); [reflexivity|].
  rewrite run_bind. cbn [port_at gets fst snd].
  rewrite run_bind. cbn [gets fst snd].
  cbn [_ports emitted set_ports].
  rewrite list_lookup_alter_eq.
  destruct (_ports s !! i); reflexivity.
Qed.

Lemma reset_ports_run l : forall (s : St),
  for_each l (fun i => update_port i (fun _ => fresh_port);;
                       setPWMDuty i f0;; updateLED i false) s
  = (tt,
     set_ports (foldl (fun ps i => alter (fun _ => fresh_port) i ps)
                      (_ports s) l)
       (mkSolenoids (_config s) (_loopUsec s) (_powerUsec s) (_timeoutUsec s)
          (_probe s) (_current s) (_ports s) (calls s)
          (outputs s
           ++ flat_map (fun i => [SetPWMDuty i f0; SetLED LedOff i no_value])
                l))).
Proof.
  induction l as [|i l IH]; intros s.
  - simpl. rewrite app_nil_r. destruct s; reflexivity.
  - cbn [for_each]. rewrite run_bind, reset_port_run. cbn [fst snd].
    rewrite IH. cbn. rewrite <- !app_assoc. reflexivity.
Qed.

Lemma foldl_fresh_lookup l : forall (ps : list (Port (F := F))) j,
  foldl (fun ps i => alter (fun _ => fresh_port) i ps) ps l !! j
  = if decide (j ∈ l) then (fun _ => fresh_port) <$> ps !! j else ps !! j.
Proof.
  induction l as [|i l IH]; intros ps j; cbn [foldl].
  - rewrite decide_False by (apply not_elem_of_nil). reflexivity.
  - rewrite IH.
    destruct (decide (j = i)) as [->|Hne].
    + rewrite list_lookup_alter_eq.
      rewrite (decide_True (P := i ∈ i :: l)) by (left).
      destruct (decide (i ∈ l)); destruct (ps !! i); reflexivity.
    + rewrite list_lookup_alter_ne by congruence.
      destruct (decide (j ∈ l)) as [Hin|Hout].
      * rewrite decide_True by (right; exact Hin). reflexivity.
      * rewrite decide_False; [reflexivity|].
        intros Hin. apply elem_of_cons in Hin. tauto.
Qed.

(** The state [reset()] leaves. *)
Lemma reset_run (s : St) :
  (reset hw s).2
  = mkSolenoids (_config s) 0 0 (micros_at hw (S (calls s))) Probe0 f0
      (replicate (nPorts s) fresh_port) (S (S (calls s)))
      (outputs s ++ SetPower Off
       :: flat_map (fun i => [SetPWMDuty i f0; SetLED LedOff i no_value])
            (seq 0 (nPorts s))).
Proof.
  unfold reset. rewrite !run_bind.
  cbn [setPower modify getUsec fst snd].
  match goal with
  | |- (for_ports _ ?s1).2 = _ =>
      assert (Hs1 : s1 = mkSolenoids (_config s) 0 0
                           (micros_at hw (S (calls s))) Probe0 f0 (_ports s)
                           (S (S (calls s))) (outputs s ++ [SetPower Off]))
        by reflexivity;
      rewrite Hs1; clear Hs1
  end.
  unfold for_ports. rewrite reset_ports_run.
  unfold nPorts, set_ports.
  cbn [fst snd _config _loopUsec _powerUsec _timeoutUsec _probe _current
       _ports calls outputs].
  rewrite <- app_assoc. cbn [app]. f_equal.
  apply list_eq. intros j. rewrite foldl_fresh_lookup.
  destruct (decide (j ∈ seq 0 (length (_ports s)))) as [Hin|Hout].
  - apply elem_of_seq in Hin.
    destruct (lookup_lt_is_Some_2 (_ports s) j ltac:(lia)) as [p Hp].
    rewrite Hp. simpl. symmetry. apply lookup_replicate_2. unfold nPorts. lia.
  - rewrite elem_of_seq in Hout. unfold nPorts.
    rewrite (proj2 (lookup_ge_None _ _)) by lia.
    symmetry. apply lookup_ge_None. rewrite length_replicate. lia.
Qed.

(** X12: [reset()] brings the controller to its start, whatever state it
    is in: the power is switched off first; then each port in turn gets
    duty 0 and a dark LED. When it returns every port is idle with an
    unknown resistance, the probe starts over ([ready] false), the filtered
    current is 0 and the timestamps of the loop and of the power are
    cleared. It reads the clock once, for the LED timeout. *)
Theorem reset_restarts (s : St) :
  let s' := (reset hw s).2 in
  _ports s' = replicate (nPorts s) fresh_port
  /\ _probe s' = Probe0
  /\ _current s' = f0
  /\ _loopUsec s' = 0 /\ _powerUsec s' = 0
  /\ _timeoutUsec s' = micros_at hw (S (calls s))
  /\ calls s' = S (S (calls s))
  /\ _config s' = _config s
  /\ outputs s'
     = outputs s ++ SetPower Off
       :: flat_map (fun i => [SetPWMDuty i f0; SetLED LedOff i no_value])
            (seq 0 (nPorts s)).
Proof.
  cbv zeta. rewrite reset_run. repeat split.
Qed.



(** *** No pulse before the probe is ready *)

Lemma states_alter (g : Port (F := F) -> Port (F := F)) i l :
  (forall p, state (g p) = state p) ->
  map state (alter g i l) = map state l.
Proof.
  intros Hg. revert i. induction l as [|p l IH]; intros [|i]; simpl;
    try reflexivity.
  - rewrite Hg. reflexivity.
  - f_equal. apply IH.
Qed.

Ltac unfold_members :=
  unfold power_off_and_probe, probe_step, measureResistance, releasePort,
    fadeOutPort, wattsToPWMDuty, updateLED, update_probe, update_port,
    setPWMDuty, setLED, setPower, getUsecSince, getUsec, readVoltage,
    readResistanceVoltage, port_at, when.

Ltac keeps_leaf :=
  intros ?; cbn;
  first [reflexivity | apply states_alter; intros ?; reflexivity].

Lemma states_power_off_and_probe :
  keeps (F := F) (fun s => map state (_ports s)) (power_off_and_probe hw).
Proof. unfold_members. keeps_tac; keeps_leaf. Qed.

Lemma undriven_states (s s' : St) :
  map state (_ports s') = map state (_ports s) -> undriven s -> undriven s'.
Proof.
  unfold undriven. generalize (_ports s) (_ports s').
  intros l. induction l as [|p l IH]; intros [|p' l'] Hmap Hs;
    try discriminate; [constructor|].
  simpl in Hmap. injection Hmap as Hp Hl.
  apply Forall_cons in Hs. destruct Hs as [Hidle Hs].
  constructor; [congruence|apply IH; assumption].
Qed.

Lemma probe_step_stays_ready (s : St) :
  ready (_probe s) = true -> ready (_probe (probe_step hw s).2) = true.
Proof.
  intros Hr. unfold probe_step.
  match goal with
  | |- ready (_probe ((gets _probe ≫= ?K) s).2) = true =>
      assert (Hk : forall q : Probe, ready q = true ->
                keeps (F := F) (fun s => ready (_probe s)) (K q))
  end.
  { intros q Hq. cbn beta. rewrite Hq. cbn [negb when].
    unfold_members. keeps_tac; keeps_leaf. }
  rewrite run_bind. cbn [gets fst snd].
  rewrite (Hk _ Hr). exact Hr.
Qed.

Lemma power_off_and_probe_stays_ready (s : St) :
  ready (_probe s) = true ->
  ready (_probe (power_off_and_probe hw s).2) = true.
Proof.
  intros Hr. unfold power_off_and_probe.
  rewrite run_bind. cbn [gets fst snd].
  destruct (0 <? _powerUsec s); [|apply probe_step_stays_ready; exact Hr].
  rewrite run_bind.
  destruct (_ <? 200 * 1000); [exact Hr|].
  rewrite !run_bind. apply probe_step_stays_ready. exact Hr.
Qed.

Lemma triggerPort_ready port watts seconds fi fo :
  keeps (F := F) (fun s => ready (_probe s))
        (triggerPort hw port watts seconds fi fo).
Proof.
  unfold triggerPort. unfold_members. keeps_tac; keeps_leaf.
Qed.

Lemma held_back_loop (s : St) : held_back s -> held_back (loop hw s).2.
Proof.
  intros Hs.
  destruct (Z.lt_ge_cases
              (Time.getUsecSince (micros_at hw (calls s)) (_loopUsec s)) 1000)
    as [Hearly|Hdue].
  { rewrite loop_early by exact Hearly. exact Hs. }
  destruct (loop_due_parts s Hdue) as (s3 & Hports & Hprobe & _ & _ & ->).
  set (r := drive_ports hw (seq 0 (nPorts s)) false s3).
  set (s5 := (measureCurrent hw r.2).2).
  assert (Hprobe5 : _probe s5 = _probe s).
  { unfold s5, r. rewrite (measureCurrent_keeps _probe) by reflexivity.
    rewrite (keeps_drive_ports _probe) by reflexivity. exact Hprobe. }
  assert (Hidle5 : ready (_probe s) = false -> r = (r.1, s3) /\ undriven s5).
  { intros Hr. specialize (Hs Hr).
    assert (Hr3 : r = (false, s3)).
    { unfold r. apply drive_ports_idle. unfold undriven in Hs.
      rewrite Hports. exact Hs. }
    rewrite Hr3. split; [reflexivity|].
    unfold s5. rewrite Hr3. unfold undriven.
    rewrite (measureCurrent_keeps _ports) by reflexivity.
    cbn [snd]. rewrite Hports. exact Hs. }
  destruct (fgt (_current s5) (current_max (_config s))).
  - intros _. destruct (shutdown_run s5) as (Hrel & _).
    unfold undriven. eapply Forall_impl; [exact Hrel|].
    intros p (Hp & _). exact Hp.
  - destruct r.1.
    + intros Hr. cbn [skip mret M_ret snd] in *.
      rewrite Hprobe5 in Hr. exact (proj2 (Hidle5 Hr)).
    + intros Hr.
      destruct (ready (_probe s)) eqn:Hready.
      * rewrite power_off_and_probe_stays_ready in Hr
          by (rewrite Hprobe5; exact Hready).
        discriminate.
      * eapply undriven_states; [apply states_power_off_and_probe|].
        exact (proj2 (Hidle5 eq_refl)).
Qed.

Lemma held_back_triggerPort port watts seconds fi fo (s : St) :
  held_back s -> held_back (triggerPort hw port watts seconds fi fo s).2.
Proof.
  intros Hs Hr. rewrite triggerPort_ready in Hr.
  rewrite triggerPort_not_ready by exact Hr. exact (Hs Hr).
Qed.

Lemma held_back_session rs : forall s : St,
  held_back s -> held_back (session hw rs s).2.
Proof.
  induction rs as [|r rs IH]; intros s Hs; [exact Hs|].
  cbn [session]. rewrite run_bind. apply IH.
  destruct r as [|port watts seconds fi fo|]; cbn [call].
  - apply held_back_loop. exact Hs.
  - apply held_back_triggerPort. exact Hs.
  - intros _. rewrite reset_run. unfold undriven. cbn [_ports].
    apply Forall_replicate. reflexivity.
Qed.

(** X13: no port carries a pulse before the probe is ready. From the new
    object on, over any sequence of [loop()], [triggerPort()] and
    [reset()] calls, with any hardware behaviour: whenever [_probe.ready]
    is false, at the start, after a reset and after an over-current
    shutdown, until the probe has measured every port again, every port is
    in state [Idle]. *)
Theorem no_pulse_before_ready (config : Configuration) (n : nat) (cycle0 : Z)
        (rs : list Request) :
  held_back (session hw rs (V2Solenoids_new config n cycle0)).2.
Proof.
  apply held_back_session. intros _. unfold undriven. cbn [_ports V2Solenoids_new].
  apply Forall_replicate. reflexivity.
Qed.



(** *** The probe and the power *)

Lemma standing_by_loop (s : St) : standing_by s -> standing_by (loop hw s).2.
Proof.
  intros Hs.
  destruct (Z.lt_ge_cases
              (Time.getUsecSince (micros_at hw (calls s)) (_loopUsec s)) 1000)
    as [Hearly|Hdue].
  { rewrite loop_early by exact Hearly. exact Hs. }
  destruct (loop_due_parts s Hdue) as (s3 & _ & Hprobe & Hpower & _ & ->).
  set (r := drive_ports hw (seq 0 (nPorts s)) false s3).
  set (s5 := (measureCurrent hw r.2).2).
  assert (Hprobe5 : _probe s5 = _probe s).
  { unfold s5, r. rewrite (measureCurrent_keeps _probe) by reflexivity.
    rewrite (keeps_drive_ports _probe) by reflexivity. exact Hprobe. }
  assert (Hpower5 : _powerUsec s5 = _powerUsec s).
  { unfold s5, r. rewrite (measureCurrent_keeps _powerUsec) by reflexivity.
    rewrite (keeps_drive_ports _powerUsec) by reflexivity. exact Hpower. }
  assert (Hs5 : standing_by s5).
  { unfold standing_by. rewrite Hprobe5, Hpower5. exact Hs. }
  destruct (fgt (_current s5) (current_max (_config s))).
  - intros _. destruct (shutdown_run s5) as (_ & _ & -> & _). reflexivity.
  - destruct r.1; [exact Hs5|].
    unfold power_off_and_probe. rewrite run_bind. cbn [gets fst snd].
    destruct (Z.ltb_spec 0 (_powerUsec s5)) as [Hon|Hoff].
    + rewrite run_bind.
      destruct (_ <? 200 * 1000); [exact Hs5|].
      rewrite !run_bind. unfold standing_by.
      rewrite (keeps_probe_step _powerUsec) by reflexivity.
      cbn. lia.
    + unfold standing_by.
      rewrite (keeps_probe_step _powerUsec) by reflexivity. lia.
Qed.

Lemma standing_by_triggerPort port watts seconds fi fo (s : St) :
  standing_by s -> standing_by (triggerPort hw port watts seconds fi fo s).2.
Proof.
  intros Hs. unfold triggerPort.
  rewrite run_bind. cbn [gets fst snd].
  destruct (negb (ready (_probe s))); [exact Hs|].
  destruct (fle watts f0 || fle seconds f0).
  { unfold standing_by.
    destruct (negb fo).
    - rewrite (keeps_releasePort _probe), (keeps_releasePort _powerUsec)
        by reflexivity.
      exact Hs.
    - rewrite run_bind.
      assert (Hprobe : _probe (fadeOutPort port s).2 = _probe s)
        by (apply (keeps_fadeOutPort _probe); reflexivity).
      assert (Hpower : _powerUsec (fadeOutPort port s).2 = _powerUsec s)
        by (apply (keeps_fadeOutPort _powerUsec); reflexivity).
      destruct (negb (fadeOutPort port s).1); cbn [when].
      + rewrite (keeps_releasePort _probe), (keeps_releasePort _powerUsec)
          by reflexivity.
        rewrite Hprobe, Hpower. exact Hs.
      + cbn [skip mret M_ret snd]. rewrite Hprobe, Hpower. exact Hs. }
  rewrite run_bind. cbn [port_at gets fst snd].
  destruct (negb (CoilState_eqb _ Connected)); [exact Hs|].
  rewrite run_bind. cbn [gets fst snd]. rewrite run_bind. cbn [gets fst snd].
  destruct (fgt (_current s) (current_max (_config s))); [exact Hs|].
  rewrite run_bind. intros _.
  match goal with
  | |- p_state (_probe (?rest ?x ?s1).2) = Init =>
      assert (Hrest : keeps (F := F) (fun s => p_state (_probe s)) (rest x));
      [|rewrite (Hrest s1)]
  end.
  { cbn beta. unfold_members. keeps_tac; keeps_leaf. }
  destruct (ProbeState_is_init (p_state (_probe s))) eqn:Hinit; cbn [negb when].
  - change (p_state (_probe s) = Init).
    destruct (p_state (_probe s)); try discriminate. reflexivity.
  - rewrite run_bind.
    rewrite (keeps_releasePort (fun s => p_state (_probe s))) by reflexivity.
    reflexivity.
Qed.

Lemma standing_by_session rs : forall s : St,
  standing_by s -> standing_by (session hw rs s).2.
Proof.
  induction rs as [|r rs IH]; intros s Hs; [exact Hs|].
  cbn [session]. rewrite run_bind. apply IH.
  destruct r as [|port watts seconds fi fo|]; cbn [call].
  - apply standing_by_loop. exact Hs.
  - apply standing_by_triggerPort. exact Hs.
  - unfold standing_by. rewrite reset_run. cbn. lia.
Qed.




(** *** The end of a pulse *)

Lemma emits_more_refl (s : St) : emits_more s s.
Proof. exists []. rewrite app_nil_r. reflexivity. Qed.

Lemma emits_more_trans (s1 s2 s3 : St) :
  emits_more s1 s2 -> emits_more s2 s3 -> emits_more s1 s3.
Proof.
  intros [l1 H1] [l2 H2]. exists (l1 ++ l2).
  rewrite H2, H1, app_assoc. reflexivity.
Qed.

Lemma emits_ret {A} (x : A) : moves emits_more (mret x : Act A).
Proof. intros s. apply emits_more_refl. Qed.

Lemma emits_skip : moves (F := F) emits_more skip.
Proof. intros s. apply emits_more_refl. Qed.

Lemma emits_gets {A} (g : St -> A) : moves emits_more (gets g).
Proof. intros s. apply emits_more_refl. Qed.

Lemma emits_bind {A B} (m : Act A) (k : A -> Act B) :
  moves emits_more m -> (forall x, moves emits_more (k x)) ->
  moves emits_more (m ≫= k).
Proof.
  intros Hm Hk s. rewrite run_bind.
  eapply emits_more_trans; [apply Hm|apply Hk].
Qed.

Lemma emits_for_each l (body : nat -> Act unit) :
  (forall i, moves emits_more (body i)) ->
  moves emits_more (for_each l body).
Proof.
  intros H. induction l as [|i l IH]; simpl.
  - apply emits_skip.
  - apply emits_bind; auto.
Qed.

Lemma emits_for_ports (body : nat -> Act unit) :
  (forall i, moves emits_more (body i)) ->
  moves emits_more (for_ports body).
Proof. intros H s. unfold for_ports. apply emits_for_each. exact H. Qed.

Ltac emits_step :=
  first
    [ apply emits_skip
    | apply emits_ret
    | apply emits_gets
    | apply emits_bind; [|intros ?]
    | apply emits_for_ports; intros ?
    | apply emits_for_each; intros ?
    | match goal with
      | |- moves _ (if ?c then _ else _) => destruct c
      | |- moves _ (match ?x with _ => _ end) => destruct x
      end ].

Ltac emits_leaf :=
  intros ?; cbn;
  first [apply emits_more_refl | eexists; reflexivity].

Ltac emits_tac := repeat emits_step; try emits_leaf.

Lemma emits_drive_port i : moves emits_more (drive_port hw i).
Proof. unfold drive_port. unfold_members. emits_tac. Qed.

Lemma emits_drive_ports l : forall busy,
  moves emits_more (drive_ports hw l busy).
Proof.
  induction l as [|i l IH]; intros busy; cbn [drive_ports].
  - apply emits_ret.
  - apply emits_bind; [apply emits_gets|]. intros p.
    destruct (DriverState_is_idle (state p)); [apply IH|].
    apply emits_bind; [apply emits_drive_port|]. intros _. apply IH.
Qed.

Lemma emits_blank_leds : moves emits_more (blank_leds hw).
Proof. unfold blank_leds. unfold_members. emits_tac. Qed.

Lemma emits_shutdown : moves (F := F) emits_more shutdown.
Proof. unfold shutdown. unfold_members. emits_tac. Qed.

Lemma getUsecSince_run since (s : St) :
  getUsecSince hw since s
  = (Time.getUsecSince (micros_at hw (calls s)) since, called s).
Proof. reflexivity. Qed.

Lemma fadeOutPort_off i (p : Port) (s : St) :
  _ports s !! i = Some p -> fadeOut (pulse p) = false ->
  fadeOutPort i s = (false, s).
Proof.
  intros Hp Hfade. unfold fadeOutPort.
  rewrite run_bind. cbn [port_at gets fst snd].
  rewrite Hp. cbn [default from_option]. unfold id. rewrite Hfade. reflexivity.
Qed.

Lemma releasePort_outputs i (s : St) :
  exists mode value,
    outputs (releasePort i s).2
    = outputs s ++ [SetPWMDuty i f0; SetLED mode i value].
Proof.
  unfold releasePort. rewrite !run_bind.
  cbn [setPWMDuty update_port modify fst snd].
  set (s1 := set_ports _ _).
  assert (Hout : outputs s1 = outputs s ++ [SetPWMDuty i f0]) by reflexivity.
  assert (Hled : exists mode value,
             outputs (updateLED i false s1).2
             = outputs s1 ++ [SetLED mode i value]).
  { unfold updateLED. rewrite run_bind. cbn [gets fst snd].
    destruct (negb false && _); [eexists; eexists; reflexivity|].
    rewrite !run_bind. cbn [port_at gets fst snd].
    destruct (m_state _); eexists; eexists; reflexivity. }
  destruct Hled as (mode & value & Hled). exists mode, value.
  rewrite Hled, Hout, <- app_assoc. reflexivity.
Qed.

(** When [loop()] comes to a port whose pulse is over and has no fade-out,
    it releases the port. *)
Lemma drive_port_expired i (p : Port) (s : St) :
  _ports s !! i = Some p ->
  duration_tested hw (_config s) p ->
  fadeOut (pulse p) = false ->
  expired hw p ->
  exists s1, drive_port hw i s = releasePort i s1
             /\ _ports s1 = _ports s /\ outputs s1 = outputs s.
Proof.
  intros Hp Htested Hfade Hover. unfold drive_port.
  rewrite run_bind. cbn [port_at gets fst snd].
  rewrite Hp. cbn [default from_option]. unfold id.
  destruct Htested as [Hst|[Hst Hpeak]]; rewrite Hst.
  - rewrite run_bind, getUsecSince_run. cbn [fst snd].
    rewrite (proj2 (Z.ltb_ge _ _) (Hover (calls s))).
    rewrite run_bind, (fadeOutPort_off i p) by assumption.
    exists (called s). repeat split.
  - rewrite run_bind. cbn [gets fst snd].
    rewrite run_bind, getUsecSince_run. cbn [fst snd].
    rewrite (proj2 (Z.ltb_ge _ _) (Hpeak (calls s))).
    rewrite run_bind, getUsecSince_run. cbn [fst snd].
    rewrite (proj2 (Z.ltb_ge _ _) (Hover (calls (called s)))).
    rewrite run_bind, (fadeOutPort_off i p) by assumption.
    exists (called (called s)). repeat split.
Qed.

Lemma drive_port_other i j :
  j <> i -> keeps (F := F) (fun s => _ports s !! i) (drive_port hw j).
Proof.
  intros Hne. unfold drive_port. unfold_members.
  keeps_tac; intros ?; cbn;
    first [reflexivity
          |rewrite !list_lookup_alter_ne by exact Hne; reflexivity].
Qed.

Lemma drive_ports_other i l : forall busy,
  i ∉ l -> keeps (F := F) (fun s => _ports s !! i) (drive_ports hw l busy).
Proof.
  induction l as [|j l IH]; intros busy Hout; cbn [drive_ports].
  - apply keeps_ret.
  - apply not_elem_of_cons in Hout. destruct Hout as [Hne Hout].
    apply keeps_bind; [apply keeps_gets|]. intros p.
    destruct (DriverState_is_idle (state p)); [apply IH; exact Hout|].
    apply keeps_bind; [apply drive_port_other; congruence|].
    intros _. apply IH. exact Hout.
Qed.

Lemma drive_ports_expired i (p : Port) cfg l : forall busy (s : St),
  NoDup l -> i ∈ l ->
  _ports s !! i = Some p -> _config s = cfg ->
  duration_tested hw cfg p ->
  fadeOut (pulse p) = false ->
  expired hw p ->
  (drive_ports hw l busy s).1 = true
  /\ _ports (drive_ports hw l busy s).2 !! i = Some (release p)
  /\ exists pre post,
       outputs (drive_ports hw l busy s).2
       = outputs s ++ pre ++ SetPWMDuty i f0 :: post.
Proof.
  induction l as [|j l IH]; intros busy s Hnodup Hin Hp Hcfg Htested Hfade Hover.
  { inversion Hin. }
  apply NoDup_cons in Hnodup. destruct Hnodup as [Hj Hnodup].
  assert (Hbusy : DriverState_is_idle (state p) = false).
  { destruct Htested as [->|[-> _]]; reflexivity. }
  cbn [drive_ports]. rewrite run_bind. cbn [port_at gets fst snd].
  destruct (decide (j = i)) as [->|Hne].
  - rewrite Hp. cbn [default from_option]. unfold id. rewrite Hbusy.
    rewrite run_bind.
    destruct (drive_port_expired i p s Hp ltac:(rewrite Hcfg; exact Htested)
                Hfade Hover) as (s1 & -> & Hports1 & Hout1).
    split; [apply drive_ports_busy|].
    split.
    + rewrite (drive_ports_other i l true Hj).
      rewrite releasePort_ports, Hports1, list_lookup_alter_eq, Hp.
      reflexivity.
    + destruct (releasePort_outputs i s1) as (mode & value & Hled).
      destruct (emits_drive_ports l true (releasePort i s1).2) as [more Hmore].
      exists [], (SetLED mode i value :: more).
      rewrite Hmore, Hled, Hout1, <- app_assoc. reflexivity.
  - assert (Hin' : i ∈ l).
    { apply elem_of_cons in Hin. destruct Hin as [->|Hin]; [congruence|].
      exact Hin. }
    destruct (DriverState_is_idle (state (default Port0 (_ports s !! j)))).
    + apply IH; assumption.
    + rewrite run_bind.
      destruct (emits_drive_port j s) as [more Hmore].
      destruct (IH true (drive_port hw j s).2 Hnodup Hin')
        as (H1 & H2 & pre & post & H3); try assumption.
      * rewrite (drive_port_other i j Hne s). exact Hp.
      * rewrite (keeps_drive_port _config) by reflexivity. exact Hcfg.
      * split; [exact H1|]. split; [exact H2|].
        exists (more ++ pre), post.
        rewrite H3, Hmore, <- !app_assoc. reflexivity.
Qed.


Lemma loop_due_emits (s : St) :
  1000 <= Time.getUsecSince (micros_at hw (calls s)) (_loopUsec s) ->
  exists s3 : St,
    _ports s3 = _ports s /\ _config s3 = _config s /\ emits_more s s3
    /\ loop hw s =
       (if fgt (_current (measureCurrent hw
                            (drive_ports hw (seq 0 (nPorts s)) false s3).2).2)
               (current_max (_config s))
        then shutdown
        else if (drive_ports hw (seq 0 (nPorts s)) false s3).1 then skip
             else power_off_and_probe hw)
         (measureCurrent hw
            (drive_ports hw (seq 0 (nPorts s)) false s3).2).2.
Proof.
  intros Hdue. unfold loop.
  rewrite run_bind. cbn [gets fst snd].
  rewrite run_bind.
  replace ((getUsecSince hw (_loopUsec s) s).1)
    with (Time.getUsecSince (micros_at hw (calls s)) (_loopUsec s))
    by reflexivity.
  rewrite (proj2 (Z.ltb_ge _ _) Hdue).
  do 5 rewrite run_bind.
  set (s2 := (modify _ _).2).
  exists (blank_leds hw s2).2.
  assert (Hn : nPorts (blank_leds hw s2).2 = nPorts s).
  { rewrite keeps_blank_leds by (auto using nPorts_alter). reflexivity. }
  split; [rewrite keeps_blank_leds by reflexivity; reflexivity|].
  split; [rewrite keeps_blank_leds by reflexivity; reflexivity|].
  split.
  { eapply emits_more_trans; [|apply emits_blank_leds].
    exists []. cbn. rewrite app_nil_r. reflexivity. }
  cbn [gets fst snd]. rewrite Hn.
  rewrite !run_bind. cbn [gets fst snd].
  rewrite (measureCurrent_keeps _config) by reflexivity.
  rewrite (keeps_drive_ports _config) by reflexivity.
  rewrite (keeps_blank_leds _config) by reflexivity.
  reflexivity.
Qed.




(** *** A power supply that does not switch on *)

Lemma calm_port_refl (p : Port (F := F)) : calm_port p p.
Proof. left. split; reflexivity. Qed.

Lemma calm_port_trans (p1 p2 p3 : Port (F := F)) :
  calm_port p1 p2 -> calm_port p2 p3 -> calm_port p1 p3.
Proof.
  unfold calm_port.
  intros [[H1 H2]|[H1 H2]] [[H3 H4]|[H3 H4]]; [left|right|right|right];
    split; congruence.
Qed.

Lemma calm_ports_refl (l : list (Port (F := F))) : Forall2 calm_port l l.
Proof. induction l; constructor; auto using calm_port_refl. Qed.

Lemma calm_ports_alter (g : Port (F := F) -> Port (F := F)) i l :
  (forall p, calm_port p (g p)) -> Forall2 calm_port l (alter g i l).
Proof.
  intros Hg. revert i. induction l as [|p l IH]; intros [|i]; simpl;
    constructor.
  - apply Hg.
  - apply calm_ports_refl.
  - apply calm_port_refl.
  - apply IH.
Qed.

Lemma calm_refl (s : St) : nothing_switched_on s s.
Proof.
  split; [apply calm_ports_refl|].
  exists []. rewrite app_nil_r. split; [reflexivity|constructor].
Qed.

Lemma calm_trans (s1 s2 s3 : St) :
  nothing_switched_on s1 s2 -> nothing_switched_on s2 s3 ->
  nothing_switched_on s1 s3.
Proof.
  intros [Hp1 (l1 & Ho1 & Hq1)] [Hp2 (l2 & Ho2 & Hq2)]. split.
  - clear - Hp1 Hp2. revert Hp2. generalize (_ports s3).
    induction Hp1 as [|p1 p2 l1 l2 Hp Hl IH]; intros l3 Hp2;
      inversion Hp2; subst; constructor; eauto using calm_port_trans.
  - exists (l1 ++ l2). rewrite Ho2, Ho1, app_assoc.
    split; [reflexivity|]. apply Forall_app. split; assumption.
Qed.

Lemma calm_ret {A} (x : A) : moves nothing_switched_on (mret x : Act A).
Proof. intros s. apply calm_refl. Qed.

Lemma calm_skip : moves (F := F) nothing_switched_on skip.
Proof. intros s. apply calm_refl. Qed.

Lemma calm_gets {A} (g : St -> A) : moves nothing_switched_on (gets g).
Proof. intros s. apply calm_refl. Qed.

Lemma calm_bind {A B} (m : Act A) (k : A -> Act B) :
  moves nothing_switched_on m ->
  (forall x, moves nothing_switched_on (k x)) ->
  moves nothing_switched_on (m ≫= k).
Proof.
  intros Hm Hk s. rewrite run_bind.
  eapply calm_trans; [apply Hm|apply Hk].
Qed.

Lemma calm_for_each l (body : nat -> Act unit) :
  (forall i, moves nothing_switched_on (body i)) ->
  moves nothing_switched_on (for_each l body).
Proof.
  intros H. induction l as [|i l IH]; simpl.
  - apply calm_skip.
  - apply calm_bind; auto.
Qed.

Lemma calm_for_ports (body : nat -> Act unit) :
  (forall i, moves nothing_switched_on (body i)) ->
  moves nothing_switched_on (for_ports body).
Proof. intros H s. unfold for_ports. apply calm_for_each. exact H. Qed.

Lemma calm_releasePort i : moves (F := F) nothing_switched_on (releasePort i).
Proof.
  intros s. split.
  - rewrite releasePort_ports. apply calm_ports_alter.
    intros p. right. split; reflexivity.
  - destruct (releasePort_outputs i s) as (mode & value & Hled).
    exists [SetPWMDuty i f0; SetLED mode i value]. split; [exact Hled|].
    repeat constructor.
Qed.

Lemma calm_setPower st : moves nothing_switched_on (setPower hw st).
Proof.
  intros s. split; [apply calm_ports_refl|].
  exists [SetPower st]. split; [reflexivity|]. repeat constructor.
Qed.

Ltac calm_leaf :=
  intros ?; cbn; split;
  [ first [apply calm_ports_refl
          |apply calm_ports_alter; intros ?; left; split; reflexivity]
  | first [exists []; rewrite app_nil_r; split; [reflexivity|constructor]
          |eexists; split; [reflexivity|repeat constructor]] ].

Ltac calm_step :=
  first
    [ apply calm_skip
    | apply calm_ret
    | apply calm_gets
    | match goal with
      | |- moves _ (releasePort _) => apply calm_releasePort
      end
    | apply calm_bind; [|intros ?]
    | apply calm_for_ports; intros ?
    | apply calm_for_each; intros ?
    | match goal with
      | |- moves _ (if ?c then _ else _) => destruct c
      | |- moves _ (match ?x with _ => _ end) => destruct x
      end ].

Ltac calm_tac := repeat calm_step; try calm_leaf.

(** X17: a power supply that does not switch on leaves everything off. If
    [setPower(On)] fails, a [triggerPort()] call that asks for a pulse
    (watts and seconds above 0) energises nothing: every port keeps its
    state and duty, except that the port the probe was measuring is
    released; the only PWM duty set is 0. The pulse parameters the call
    has stored by then stay in the port, unused. *)
Theorem failed_power_on_switches_nothing (s : St) (port : nat)
        (watts seconds : F) (fi fo : bool) :
  (forall k, setPower_at hw k = false) ->
  fle watts f0 = false ->
  fle seconds f0 = false ->
  nothing_switched_on s (triggerPort hw port watts seconds fi fo s).2.
Proof.
  intros Hfail Hwatts Hseconds.
  assert (Hpower : forall (k : bool -> Act unit),
             moves nothing_switched_on (k false) ->
             moves nothing_switched_on (setPower hw On ≫= k)).
  { intros k Hk s0. rewrite run_bind.
    replace (setPower hw On s0).1 with false
      by (symmetry; apply Hfail).
    eapply calm_trans; [apply calm_setPower|apply Hk]. }
  revert s. change (moves nothing_switched_on
                      (triggerPort hw port watts seconds fi fo)).
  unfold triggerPort. rewrite Hwatts, Hseconds. cbn [orb].
  unfold wattsToPWMDuty, updateLED, update_probe, update_port, setLED,
    getUsec, readVoltage, port_at, when, in_pulse.
  repeat first
    [ match goal with
      | |- moves _ (setPower _ _ ≫= _) => apply Hpower; cbn [negb]
      end
    | calm_step ];
  try calm_leaf.
Qed.



(** *** The probe and the pulses keep apart *)

Lemma triple_bind {A B} (P R Q : St -> Prop) (m : Act A) (k : A -> Act B) :
  triple P m R -> (forall x, triple R (k x) Q) -> triple P (m ≫= k) Q.
Proof. intros Hm Hk s HP. rewrite run_bind. apply Hk. apply Hm. exact HP. Qed.

Lemma triple_weaken {A} (P P' Q Q' : St -> Prop) (m : Act A) :
  (forall s, P s -> P' s) -> (forall s, Q' s -> Q s) ->
  triple P' m Q' -> triple P m Q.
Proof. intros HP HQ Hm s Hs. apply HQ. apply Hm. apply HP. exact Hs. Qed.

Lemma triple_ret {A} (P : St -> Prop) (x : A) : triple P (mret x : Act A) P.
Proof. intros s Hs. exact Hs. Qed.

Lemma triple_gets {A} (P : St -> Prop) (g : St -> A) : triple P (gets g) P.
Proof. intros s Hs. exact Hs. Qed.

Lemma triple_for_each (P : St -> Prop) l (body : nat -> Act unit) :
  (forall i, triple P (body i) P) -> triple P (for_each l body) P.
Proof.
  intros H. induction l as [|i l IH]; simpl.
  - apply triple_ret.
  - apply (triple_bind P P P); auto.
Qed.

Lemma triple_for_ports (P : St -> Prop) (body : nat -> Act unit) :
  (forall i, triple P (body i) P) -> triple P (for_ports body) P.
Proof. intros H s. unfold for_ports. apply triple_for_each. exact H. Qed.

(** [P] holds throughout [m]: the goal [triple P m P], taken apart down to
    the single reads and writes, which [leaf] has to solve. *)
Ltac triple_inv leaf :=
  lazymatch goal with
  | |- triple ?P (mbind _ _) ?P =>
      apply (triple_bind P P P); [triple_inv leaf|intros ?; triple_inv leaf]
  | |- triple _ (mret _) _ => apply triple_ret
  | |- triple _ skip _ => apply triple_ret
  | |- triple _ (gets _) _ => apply triple_gets
  | |- triple _ (for_ports _) _ =>
      apply triple_for_ports; intros ?; triple_inv leaf
  | |- triple _ (if ?c then _ else _) _ => destruct c; triple_inv leaf
  | |- triple _ (match ?x with _ => _ end) _ => destruct x; triple_inv leaf
  | |- _ => leaf
  end.

(** The same for [triple P m Q] when [Q] follows from [P] at the end, or
    the last step establishes it: [last] solves the last steps. *)
Ltac triple_end leaf last :=
  lazymatch goal with
  | |- triple ?P (mbind _ _) ?Q =>
      apply (triple_bind P P Q);
      [triple_inv leaf|intros ?; triple_end leaf last]
  | |- triple _ (if ?c then _ else _) _ => destruct c; triple_end leaf last
  | |- triple _ (match ?x with _ => _ end) _ =>
      destruct x; triple_end leaf last
  | |- _ => last
  end.

Lemma rests_alter_at i (g : Port (F := F) -> Port (F := F)) (s : St) :
  rests_except i s -> rests_except i (set_ports (alter g i (_ports s)) s).
Proof.
  intros Hs j p Hne Hp. cbn in Hp.
  rewrite list_lookup_alter_ne in Hp by congruence.
  exact (Hs j p Hne Hp).
Qed.

Lemma driven_alter_at i (g : Port (F := F) -> Port (F := F)) (s : St) :
  (forall p, state p <> Idle -> state (g p) <> Idle) ->
  driven i s -> driven i (set_ports (alter g i (_ports s)) s).
Proof.
  intros Hg (p & Hp & Hst). exists (g p). split; [|apply Hg; exact Hst].
  cbn. rewrite list_lookup_alter_eq, Hp. reflexivity.
Qed.

Lemma all_rest_driven i (s : St) :
  rests_except i s -> driven i s -> all_rest s.
Proof.
  intros Hothers (p & Hp & Hst). apply Forall_lookup. intros j q Hq.
  destruct (decide (j = i)) as [->|Hne].
  - assert (q = p) by congruence. subst q. intros Hidle. contradiction.
  - exact (Hothers j q Hne Hq).
Qed.

Lemma all_rest_except i (s : St) : all_rest s -> rests_except i s.
Proof.
  intros Hs j p _ Hp. unfold all_rest in Hs. rewrite Forall_lookup in Hs.
  exact (Hs j p Hp).
Qed.

Lemma releasePort_rests i :
  triple (F := F) (rests_except i) (releasePort i) all_rest.
Proof.
  intros s Hs. unfold all_rest. rewrite releasePort_ports.
  apply Forall_lookup. intros j q Hq.
  destruct (decide (j = i)) as [->|Hne].
  - rewrite list_lookup_alter_eq in Hq.
    destruct (_ports s !! i) as [p|]; [|discriminate].
    injection Hq as <-. intros _. reflexivity.
  - rewrite list_lookup_alter_ne in Hq by congruence.
    exact (Hs j q Hne Hq).
Qed.

(** While [loop()] drives port [i], the other ports stay as they are and
    port [i] carries its pulse, until it is released. *)
Ltac driving_leaf i :=
  intros ? [? ?]; split;
  [ first [assumption | apply rests_alter_at; assumption]
  | first [assumption
          | apply driven_alter_at;
            [intros ? ?; cbn; first [assumption | discriminate]
            |assumption]] ].

Ltac driving_last i :=
  first
    [ lazymatch goal with
      | |- triple _ (releasePort _) _ =>
          apply (triple_weaken _ (rests_except i) _ all_rest);
          [intros ? [? _]; assumption|intros ? ?; assumption
          |apply releasePort_rests]
      end
    | apply (triple_weaken _ (fun s => rests_except i s /\ driven i s)
                           _ (fun s => rests_except i s /\ driven i s));
      [intros ? ?; assumption
      |intros ? [? ?]; eapply all_rest_driven; eassumption
      |triple_inv ltac:(driving_leaf i)] ].

Lemma drive_port_rests i (s : St) :
  all_rest s -> all_rest (drive_port hw i s).2.
Proof.
  intros Hs. unfold drive_port.
  rewrite run_bind. cbn [port_at gets fst snd].
  destruct (_ports s !! i) as [p|] eqn:Hp; [|exact Hs].
  cbn [default from_option]. unfold id.
  destruct (state p) eqn:Hst; [exact Hs| | | |];
    (match goal with
     | |- all_rest (?m s).2 =>
         assert (Ht : triple (fun s => rests_except i s /\ driven i s) m
                             all_rest);
         [|apply Ht; split;
           [apply all_rest_except; exact Hs
           |exists p; split; [exact Hp|rewrite Hst; discriminate]]]
     end);
    unfold fadeOutPort, update_port, setPWMDuty, getUsecSince, getUsec,
      port_at, when;
    triple_end ltac:(driving_leaf i) ltac:(driving_last i).
Qed.



Lemma drive_ports_rests l : forall busy (s : St),
  all_rest s -> all_rest (drive_ports hw l busy s).2.
Proof.
  induction l as [|i l IH]; intros busy s Hs; [exact Hs|].
  cbn [drive_ports]. rewrite run_bind. cbn [port_at gets fst snd].
  destruct (DriverState_is_idle _); [apply IH; exact Hs|].
  rewrite run_bind. apply IH. apply drive_port_rests. exact Hs.
Qed.

Lemma drive_ports_found_idle l : forall (s : St) i,
  (drive_ports hw l false s).1 = false -> i ∈ l ->
  state (default Port0 (_ports s !! i)) = Idle.
Proof.
  induction l as [|j l IH]; intros s i Hbusy Hin; [inversion Hin|].
  cbn [drive_ports] in Hbusy. rewrite run_bind in Hbusy.
  cbn [port_at gets fst snd] in Hbusy.
  destruct (DriverState_is_idle (state (default Port0 (_ports s !! j))))
    eqn:Hj.
  - apply elem_of_cons in Hin. destruct Hin as [->|Hin].
    + destruct (state (default Port0 (_ports s !! j)));
        [reflexivity|discriminate..].
    + apply IH; assumption.
  - rewrite run_bind, drive_ports_busy in Hbusy. discriminate.
Qed.

Lemma fields_alter {X} (f : Port (F := F) -> X)
      (g : Port (F := F) -> Port (F := F)) i l :
  (forall p, f (g p) = f p) -> map f (alter g i l) = map f l.
Proof.
  intros Hg. revert i. induction l as [|p l IH]; intros [|i]; simpl;
    try reflexivity.
  - rewrite Hg. reflexivity.
  - f_equal. apply IH.
Qed.

Lemma drive_power_off_and_probe :
  keeps (F := F) (fun s => map (fun p => (state p, duty p)) (_ports s))
        (power_off_and_probe hw).
Proof.
  unfold_members.
  keeps_tac; intros ?; cbn;
    first [reflexivity | apply fields_alter; intros ?; reflexivity].
Qed.

Lemma same_drive_rests (s s' : St) :
  map (fun p => (state p, duty p)) (_ports s')
  = map (fun p => (state p, duty p)) (_ports s) ->
  (all_rest s -> all_rest s') /\ (undriven s -> undriven s').
Proof.
  unfold all_rest, undriven. generalize (_ports s) (_ports s').
  intros l. induction l as [|p l IH]; intros [|p' l'] Hmap;
    try discriminate; [split; intros _; constructor|].
  simpl in Hmap. injection Hmap as Hst Hduty Hl.
  destruct (IH l' Hl) as [IH1 IH2].
  split; intros H; apply Forall_cons in H; destruct H as [Hp H];
    (constructor; [|auto]).
  - intros Hidle. rewrite Hduty. apply Hp. congruence.
  - congruence.
Qed.

Lemma probe_apart_loop (s : St) : probe_apart s -> probe_apart (loop hw s).2.
Proof.
  intros [Hrest Hapart].
  destruct (Z.lt_ge_cases
              (Time.getUsecSince (micros_at hw (calls s)) (_loopUsec s)) 1000)
    as [Hearly|Hdue].
  { rewrite loop_early by exact Hearly. split; assumption. }
  destruct (loop_due_parts s Hdue) as (s3 & Hports & Hprobe & _ & _ & ->).
  set (r := drive_ports hw (seq 0 (nPorts s)) false s3).
  set (s5 := (measureCurrent hw r.2).2).
  assert (Hrest3 : all_rest s3) by (unfold all_rest; rewrite Hports; exact Hrest).
  assert (Hports5 : _ports s5 = _ports r.2)
    by (apply (measureCurrent_keeps _ports); reflexivity).
  assert (Hprobe5 : _probe s5 = _probe s).
  { unfold s5, r. rewrite (measureCurrent_keeps _probe) by reflexivity.
    rewrite (keeps_drive_ports _probe) by reflexivity. exact Hprobe. }
  assert (Hrest5 : all_rest s5).
  { unfold all_rest. rewrite Hports5. apply drive_ports_rests. exact Hrest3. }
  destruct (fgt (_current s5) (current_max (_config s))).
  - destruct (shutdown_run s5) as (Hrel & _ & Hzero & _). split.
    + unfold all_rest. eapply Forall_impl; [exact Hrel|].
      intros p (_ & Hduty & _) _. exact Hduty.
    + rewrite Hzero. intros H. contradiction H. reflexivity.
  - destruct r.1 eqn:Hbusy.
    + split; [exact Hrest5|]. cbn [skip mret M_ret snd].
      rewrite Hprobe5. intros Hout. exfalso.
      assert (Hidle : r = (false, s3)).
      { unfold r. apply drive_ports_idle. rewrite Hports.
        exact (Hapart Hout). }
      rewrite Hidle in Hbusy. discriminate.
    + assert (Hsame : r = (false, s3))
        by (apply drive_ports_not_busy; exact Hbusy).
      assert (Hidle5 : undriven s5).
      { unfold undriven. rewrite Hports5, Hsame. cbn [snd].
        apply Forall_lookup. intros j p Hp.
        assert (Hj : j ∈ seq 0 (nPorts s)).
        { apply elem_of_seq. apply lookup_lt_Some in Hp.
          unfold nPorts. rewrite <- Hports. lia. }
        pose proof (drive_ports_found_idle _ s3 j Hbusy Hj) as Hst.
        rewrite Hp in Hst. exact Hst. }
      destruct (same_drive_rests s5 (power_off_and_probe hw s5).2
                  (drive_power_off_and_probe s5)) as [H1 H2].
      split; [exact (H1 Hrest5)|]. intros _. exact (H2 Hidle5).
Qed.



Lemma all_rest_update_port i (g : Port (F := F) -> Port (F := F)) :
  (forall p, rests p -> rests (g p)) ->
  triple all_rest (update_port i g) all_rest.
Proof.
  intros Hg s Hs. unfold all_rest in *. cbn.
  apply Forall_alter; [exact Hs|]. intros p _ Hp. apply Hg. exact Hp.
Qed.

Lemma except_update_port i (g : Port (F := F) -> Port (F := F)) :
  triple (rests_except i) (update_port i g) (rests_except i).
Proof. intros s Hs. apply rests_alter_at. exact Hs. Qed.

Lemma pulse_update_port i (x : DriverState) :
  x <> Idle ->
  triple (F := F) (rests_except i) (update_port i (set_state x)) all_rest.
Proof.
  intros Hx s Hs. unfold all_rest. cbn.
  apply Forall_lookup. intros j q Hq.
  destruct (decide (j = i)) as [->|Hne].
  - rewrite list_lookup_alter_eq in Hq.
    destruct (_ports s !! i) as [p|]; [|discriminate].
    injection Hq as <-. intros Hidle. contradiction.
  - rewrite list_lookup_alter_ne in Hq by congruence.
    exact (Hs j q Hne Hq).
Qed.

Lemma all_rest_releasePort i :
  triple (F := F) all_rest (releasePort i) all_rest.
Proof.
  apply (triple_weaken _ (rests_except i) _ all_rest);
    [intros s Hs; apply all_rest_except; exact Hs
    |intros s Hs; exact Hs
    |apply releasePort_rests].
Qed.

Lemma undriven_releasePort i (s : St) :
  undriven s -> undriven (releasePort i s).2.
Proof.
  unfold undriven. intros Hs. rewrite releasePort_ports.
  apply Forall_alter; [exact Hs|]. intros p _ _. reflexivity.
Qed.

Ltac resting_leaf :=
  first
    [ solve [intros ? H; exact H]
    | apply all_rest_update_port;
      let p := fresh "p" in
      let Hp := fresh "Hp" in
      let Hx := fresh "Hx" in
      intros p Hp; unfold rests, in_pulse in *; cbn;
      first [exact Hp | intros Hx; discriminate Hx] ].

(** The port is switched on: its duty is written before its state. *)
Ltac switching_on i :=
  apply (triple_weaken _ (rests_except i) _ all_rest);
  [ intros ? H; apply all_rest_except; exact H
  | intros ? H; exact H
  | triple_end
      ltac:(first [solve [intros ? H; exact H] | apply except_update_port])
      ltac:(apply pulse_update_port; discriminate) ].

Ltac resting :=
  lazymatch goal with
  | |- triple _ (mbind _ (update_port ?i (set_duty _))) _ => switching_on i
  | |- triple ?P (mbind _ _) ?P =>
      apply (triple_bind P P P); [resting|intros ?; resting]
  | |- triple _ (mret _) _ => apply triple_ret
  | |- triple _ skip _ => apply triple_ret
  | |- triple _ (gets _) _ => apply triple_gets
  | |- triple _ (when ?c _) _ => destruct c; cbn [when]; resting
  | |- triple _ (releasePort _) _ => apply all_rest_releasePort
  | |- triple _ (for_ports _) _ =>
      apply triple_for_ports; intros ?; resting
  | |- triple _ (if ?c then _ else _) _ => destruct c; resting
  | |- triple _ (match ?x with _ => _ end) _ => destruct x; resting
  | |- _ => resting_leaf
  end.

Ltac unfold_reads :=
  unfold wattsToPWMDuty, updateLED, update_probe, setPWMDuty, setLED,
    setPower, getUsec, readVoltage, port_at.

Lemma all_rest_cancel port :
  triple (F := F) all_rest
         (fadeOutPort port ≫= fun fading => when (negb fading) (releasePort port))
         all_rest.
Proof. unfold fadeOutPort. unfold_reads. resting. Qed.

Section Law.

(** The one law of the arithmetic that the controller depends on here:
    0 < 0.01. *)
Hypothesis zero_is_small : flt (f0 (F := F)) (lit 1 (-2)) = true.

Lemma fadeOutPort_idle port (s : St) :
  undriven s -> all_rest s -> fadeOutPort port s = (false, s).
Proof.
  intros Hidle Hrest. unfold fadeOutPort.
  rewrite run_bind. cbn [port_at gets fst snd].
  destruct (_ports s !! port) as [p|] eqn:Hp; [|reflexivity].
  cbn [default from_option]. unfold id.
  destruct (negb (fadeOut (pulse p))); [reflexivity|].
  unfold undriven in Hidle. unfold all_rest in Hrest.
  rewrite Forall_lookup in Hidle. rewrite Forall_lookup in Hrest.
  rewrite (Hrest port p Hp (Hidle port p Hp)), zero_is_small. reflexivity.
Qed.

Lemma probe_apart_triggerPort port watts seconds fi fo (s : St) :
  probe_apart s -> probe_apart (triggerPort hw port watts seconds fi fo s).2.
Proof.
  intros [Hrest Hapart]. unfold triggerPort.
  rewrite run_bind. cbn [gets fst snd].
  destruct (negb (ready (_probe s))); [split; assumption|].
  destruct (fle watts f0 || fle seconds f0).
  { destruct (negb fo).
    - split; [apply all_rest_releasePort; exact Hrest|].
      rewrite (keeps_releasePort _probe) by reflexivity.
      intros Hout. apply undriven_releasePort. exact (Hapart Hout).
    - split; [apply all_rest_cancel; exact Hrest|].
      intros Hout.
      assert (Hprobe : p_state (_probe s) <> Init).
      { rewrite run_bind in Hout.
        assert (H1 : _probe (fadeOutPort port s).2 = _probe s)
          by (apply (keeps_fadeOutPort _probe); reflexivity).
        destruct (negb (fadeOutPort port s).1); cbn [when] in Hout.
        - rewrite (keeps_releasePort _probe), H1 in Hout by reflexivity.
          exact Hout.
        - cbn [skip mret M_ret snd] in Hout. rewrite H1 in Hout.
          exact Hout. }
      rewrite run_bind, (fadeOutPort_idle port s (Hapart Hprobe) Hrest).
      cbn [negb when fst snd]. apply undriven_releasePort.
      exact (Hapart Hprobe). }
  rewrite run_bind. cbn [port_at gets fst snd].
  destruct (negb (CoilState_eqb _ Connected)); [split; assumption|].
  rewrite run_bind. cbn [gets fst snd]. rewrite run_bind. cbn [gets fst snd].
  destruct (fgt (_current s) (current_max (_config s)));
    [split; assumption|].
  split.
  - match goal with
    | |- all_rest (?m s).2 =>
        assert (Ht : triple all_rest m all_rest); [|exact (Ht s Hrest)]
    end.
    unfold_reads. resting.
  - intros Hout. exfalso. apply Hout. clear Hout.
    rewrite run_bind.
    match goal with
    | |- p_state (_probe (?rest ?x ?s1).2) = Init =>
        assert (Hkeeps : keeps (F := F) (fun s => p_state (_probe s))
                               (rest x));
        [|rewrite (Hkeeps s1)]
    end.
    { cbn beta. unfold_members. keeps_tac; keeps_leaf. }
    destruct (ProbeState_is_init (p_state (_probe s))) eqn:Hinit;
      cbn [negb when].
    + change (p_state (_probe s) = Init).
      destruct (p_state (_probe s)); try discriminate. reflexivity.
    + rewrite run_bind.
      rewrite (keeps_releasePort (fun s => p_state (_probe s)))
        by reflexivity.
      reflexivity.
Qed.

Lemma probe_apart_session rs : forall s : St,
  probe_apart s -> probe_apart (session hw rs s).2.
Proof.
  induction rs as [|r rs IH]; intros s Hs; [exact Hs|].
  cbn [session]. rewrite run_bind. apply IH.
  destruct r as [|port watts seconds fi fo|]; cbn [call].
  - apply probe_apart_loop. exact Hs.
  - apply probe_apart_triggerPort. exact Hs.
  - rewrite reset_run. split.
    + unfold all_rest. cbn [_ports]. apply Forall_replicate.
      intros _. reflexivity.
    + intros Hout. contradiction Hout. reflexivity.
Qed.

(** X15: the probe and the pulses keep apart. From the new object on, over
    any sequence of [loop()], [triggerPort()] and [reset()] calls, with any
    hardware behaviour: while the probe is out of its [Init] state, that
    is while it settles, drives the port it measures at full duty, or
    sleeps, every port is in state [Idle]; a pulse sends the probe back to
    [Init] before it starts, and the probe leaves [Init] only when [loop()]
    has found every port idle. An idle port has duty 0 throughout. *)
Theorem probe_and_pulses_apart (config : Configuration) (n : nat)
        (cycle0 : Z) (rs : list Request) :
  probe_apart (session hw rs (V2Solenoids_new config n cycle0)).2.
Proof.
  apply probe_apart_session. split.
  - unfold all_rest. cbn [_ports V2Solenoids_new]. apply Forall_replicate.
    intros _. reflexivity.
  - intros Hout. contradiction Hout. reflexivity.
Qed.

End Law.


(** *** The probe and the power supply *)

Lemma last_power_quiet (outs : list (Output (F := F))) o :
  match o with SetPower _ => False | _ => True end ->
  last_power (outs ++ [o]) = last_power outs.
Proof.
  intros Ho. unfold last_power. rewrite omap_app.
  destruct o; [contradiction| |]; simpl; rewrite app_nil_r; reflexivity.
Qed.

Lemma last_power_set (outs : list (Output (F := F))) st :
  last_power (outs ++ [SetPower st]) = Some st.
Proof. unfold last_power. rewrite omap_app. simpl. apply last_snoc. Qed.

Ltac power_leaf :=
  intros ?; cbn -[last_power];
  first [reflexivity | apply last_power_quiet; exact I].

Local Abbreviation power := (fun s : St => last_power (outputs s)).

Lemma power_releasePort i : keeps power (releasePort i).
Proof. unfold_members. keeps_tac; power_leaf. Qed.

Lemma power_drive_port i : keeps power (drive_port hw i).
Proof. unfold drive_port. unfold_members. keeps_tac; power_leaf. Qed.

Lemma power_drive_ports l : forall busy,
  keeps power (drive_ports hw l busy).
Proof.
  induction l as [|i l IH]; intros busy; cbn [drive_ports].
  - apply keeps_ret.
  - apply keeps_bind; [apply keeps_gets|]. intros p.
    destruct (DriverState_is_idle (state p)); [apply IH|].
    apply keeps_bind; [apply power_drive_port|]. intros _. apply IH.
Qed.

Lemma power_blank_leds : keeps power (blank_leds hw).
Proof. unfold blank_leds. unfold_members. keeps_tac; power_leaf. Qed.

Lemma power_shutdown : keeps power shutdown.
Proof. unfold shutdown. unfold_members. keeps_tac; power_leaf. Qed.

Lemma power_probe_step : keeps power (probe_step hw).
Proof. unfold_members. keeps_tac; power_leaf. Qed.

(** A call of [loop()] that is not rate limited comes to its last step
    with the power as it was. *)
Lemma loop_due_power (s : St) :
  1000 <= Time.getUsecSince (micros_at hw (calls s)) (_loopUsec s) ->
  exists (s5 : St) (busy : bool),
    last_power (outputs s5) = last_power (outputs s)
    /\ _powerUsec s5 = _powerUsec s
    /\ loop hw s =
       (if fgt (_current s5) (current_max (_config s)) then shutdown
        else if busy then skip else power_off_and_probe hw) s5.
Proof.
  intros Hdue. unfold loop.
  rewrite run_bind. cbn [gets fst snd].
  rewrite run_bind.
  replace ((getUsecSince hw (_loopUsec s) s).1)
    with (Time.getUsecSince (micros_at hw (calls s)) (_loopUsec s))
    by reflexivity.
  rewrite (proj2 (Z.ltb_ge _ _) Hdue).
  do 5 rewrite run_bind.
  set (s2 := (modify _ _).2).
  assert (Hn : nPorts (blank_leds hw s2).2 = nPorts s).
  { rewrite keeps_blank_leds by (auto using nPorts_alter). reflexivity. }
  cbn [gets fst snd]. rewrite Hn.
  rewrite !run_bind. cbn [gets fst snd].
  rewrite (measureCurrent_keeps _config) by reflexivity.
  rewrite (keeps_drive_ports _config) by reflexivity.
  rewrite (keeps_blank_leds _config) by reflexivity.
  do 2 eexists. split; [|split]. 3: reflexivity.
  - rewrite (measureCurrent_keeps power) by reflexivity.
    rewrite power_drive_ports, power_blank_leds. reflexivity.
  - rewrite (measureCurrent_keeps _powerUsec) by reflexivity.
    rewrite (keeps_drive_ports _powerUsec) by reflexivity.
    rewrite (keeps_blank_leds _powerUsec) by reflexivity.
    reflexivity.
Qed.

Lemma power_stamped_power_off_and_probe (s : St) :
  power_stamped s -> power_stamped (power_off_and_probe hw s).2.
Proof.
  intros Hs. unfold power_off_and_probe.
  rewrite run_bind. cbn [gets fst snd].
  destruct (0 <? _powerUsec s).
  - rewrite run_bind. destruct (_ <? 200 * 1000); [exact Hs|].
    rewrite !run_bind. unfold power_stamped.
    rewrite power_probe_step. cbn -[last_power].
    rewrite last_power_set. discriminate.
  - unfold power_stamped.
    rewrite power_probe_step, (keeps_probe_step _powerUsec) by reflexivity.
    exact Hs.
Qed.

Lemma power_stamped_loop (s : St) :
  power_stamped s -> power_stamped (loop hw s).2.
Proof.
  intros Hs.
  destruct (Z.lt_ge_cases
              (Time.getUsecSince (micros_at hw (calls s)) (_loopUsec s)) 1000)
    as [Hearly|Hdue].
  { rewrite loop_early by exact Hearly. exact Hs. }
  destruct (loop_due_power s Hdue) as (s5 & busy & Hpower & Hstamp & ->).
  assert (Hs5 : power_stamped s5).
  { unfold power_stamped. rewrite Hpower, Hstamp. exact Hs. }
  destruct (fgt (_current s5) (current_max (_config s))).
  - unfold power_stamped.
    rewrite power_shutdown, (keeps_shutdown _powerUsec) by reflexivity.
    exact Hs5.
  - destruct busy; [exact Hs5|].
    apply power_stamped_power_off_and_probe. exact Hs5.
Qed.

Section Power.

(** What the property needs of the hardware: the power supply switches
    when told to, and the clock never reads 0 (a reading of 0 stored in
    [_powerUsec] would read as power off). *)
Hypothesis power_switches : forall k, setPower_at hw k = true.
Hypothesis clock_positive : forall k, 0 < micros_at hw k.

(** Switching the power on sets the timestamp, and nothing after it in
    [triggerPort] clears it. *)
Lemma power_on_stamps (P : St -> Prop) (tail : Act unit) :
  keeps _powerUsec tail ->
  triple P
    (setPower hw On
     ≫= fun ok =>
          if negb ok then skip
          else getUsec hw
               ≫= fun t => modify (set_powerUsec t) ≫= fun _ => tail)
    (fun s => 0 < _powerUsec s).
Proof.
  intros Htail s _. rewrite run_bind.
  replace (setPower hw On s).1 with true by (symmetry; apply power_switches).
  cbn [negb]. rewrite !run_bind, Htail. cbn. apply clock_positive.
Qed.

Ltac stamping :=
  lazymatch goal with
  | |- triple _ (mbind _ (setPower _ On)) _ =>
      apply power_on_stamps; unfold_members; keeps_tac; keeps_leaf
  | |- triple ?P (mbind _ _) ?Q =>
      apply (triple_bind P P Q);
      [triple_inv ltac:(intros ? H; exact H)|intros ?; stamping]
  end.

Lemma power_stamped_triggerPort port watts seconds fi fo (s : St) :
  power_stamped s ->
  power_stamped (triggerPort hw port watts seconds fi fo s).2.
Proof.
  intros Hs. unfold triggerPort.
  rewrite run_bind. cbn [gets fst snd].
  destruct (negb (ready (_probe s))); [exact Hs|].
  destruct (fle watts f0 || fle seconds f0).
  { unfold power_stamped.
    destruct (negb fo).
    - rewrite power_releasePort, (keeps_releasePort _powerUsec)
        by reflexivity.
      exact Hs.
    - rewrite run_bind.
      assert (Hpower : last_power (outputs (fadeOutPort port s).2)
                       = last_power (outputs s))
        by (apply (keeps_fadeOutPort power); reflexivity).
      assert (Hstamp : _powerUsec (fadeOutPort port s).2 = _powerUsec s)
        by (apply (keeps_fadeOutPort _powerUsec); reflexivity).
      destruct (negb (fadeOutPort port s).1); cbn [when].
      + rewrite power_releasePort, (keeps_releasePort _powerUsec)
          by reflexivity.
        rewrite Hpower, Hstamp. exact Hs.
      + cbn [skip mret M_ret snd]. rewrite Hpower, Hstamp. exact Hs. }
  rewrite run_bind. cbn [port_at gets fst snd].
  destruct (negb (CoilState_eqb _ Connected)); [exact Hs|].
  rewrite run_bind. cbn [gets fst snd]. rewrite run_bind. cbn [gets fst snd].
  destruct (fgt (_current s) (current_max (_config s))); [exact Hs|].
  rewrite run_bind. intros _.
  match goal with
  | |- 0 < _powerUsec (?rest ?x ?s1).2 =>
      assert (Ht : triple (fun _ => True) (rest x)
                          (fun s => 0 < _powerUsec s));
      [cbn beta; stamping|exact (Ht s1 I)]
  end.
Qed.

Lemma last_power_reset (outs : list (Output (F := F))) l :
  last_power
    (outs ++ SetPower Off
     :: flat_map (fun i => [SetPWMDuty i f0; SetLED LedOff i no_value]) l)
  = Some Off.
Proof.
  unfold last_power. rewrite omap_app. cbn [omap list_omap].
  replace (omap _ (flat_map _ l)) with (@nil PowerState).
  - apply last_snoc.
  - induction l as [|i l IH]; [reflexivity|exact IH].
Qed.

Lemma power_stamped_session rs : forall s : St,
  power_stamped s -> power_stamped (session hw rs s).2.
Proof.
  induction rs as [|r rs IH]; intros s Hs; [exact Hs|].
  cbn [session]. rewrite run_bind. apply IH.
  destruct r as [|port watts seconds fi fo|]; cbn [call].
  - apply power_stamped_loop. exact Hs.
  - apply power_stamped_triggerPort. exact Hs.
  - unfold power_stamped. rewrite reset_run. cbn [outputs].
    rewrite last_power_reset. discriminate.
Qed.

(** X14: the probe runs with the power off, as long as the power supply
    switches when told to and the clock never reads 0. From the new object
    on, over any sequence of [loop()], [triggerPort()] and [reset()]
    calls: while the probe is out of its [Init] state, settling, measuring
    a port at full duty or sleeping, the last power command the controller
    has given is not [On]: it is [Off], or none was given yet. The
    hypothesis on the clock is needed: [_powerUsec] doubles as the power
    flag, and a reading of 0 stored in it leaves the power on while the
    probe runs. *)
Theorem probe_runs_unpowered (config : Configuration) (n : nat) (cycle0 : Z)
        (rs : list Request) :
  probe_unpowered (session hw rs (V2Solenoids_new config n cycle0)).2.
Proof.
  assert (Hstamp : power_stamped
                     (session hw rs (V2Solenoids_new config n cycle0)).2).
  { apply power_stamped_session. intros Hon. discriminate Hon. }
  assert (Hstand : standing_by
                     (session hw rs (V2Solenoids_new config n cycle0)).2).
  { apply standing_by_session. unfold standing_by. cbn. lia. }
  intros Hout Hon. apply Hout. apply Hstand. apply Hstamp. exact Hon.
Qed.

End Power.


End ControllerFacts.

#[local] Existing Instance Thousandths.




Lemma failed_power_on_switches_nothing_witness :
  nothing_switched_on example_hold_state
    (triggerPort example_dead_hw 0 5000 1000 false false example_hold_state).2.
Proof.
  apply (failed_power_on_switches_nothing example_dead_hw example_hold_state
           0 5000 1000 false false).
  - intros k. reflexivity.
  - reflexivity.
  - reflexivity.
Defined.


Lemma probe_and_pulses_apart_witness :
  probe_apart
    (session example_hw
       [CallLoop; CallTriggerPort 0 5000 1000 false true; CallLoop;
        CallTriggerPort 0 0 0 false true; CallReset; CallLoop]
       (V2Solenoids_new example_config 2 0)).2.
Proof.
  apply (probe_and_pulses_apart (F := Z) (FloatF := Thousandths) example_hw
           eq_refl example_config 2 0).
Defined.


Lemma probe_runs_unpowered_witness :
  probe_unpowered
    (session example_late_hw [CallLoop] (V2Solenoids_new example_config 2 0)).2
  /\ p_state
       (_probe (session example_late_hw [CallLoop]
                  (V2Solenoids_new example_config 2 0)).2) = Settle.
Proof.
  split; [|reflexivity].
  apply (probe_runs_unpowered (F := Z) (FloatF := Thousandths) example_late_hw
           (fun _ => eq_refl) (fun _ => eq_refl) example_config 2 0
           [CallLoop]).
Defined.

End SolenoidsFacts.

Module DeviceFacts.
Import Device.

Local Open Scope string_scope.
Local Open Scope Z_scope.
Local Open Scope list_scope.

Section RequestsFacts.
Context {J : Type} {Json : ArduinoJson J}.
Variable pf : Platform (J := J).

(** A message that does not pass the guards is ignored. *)
Lemma no_request_ignored (d : V2Device) (buffer : list Z) :
  request pf buffer = None -> handleSystemExclusive pf d buffer = (d, []).
Proof. intros H. unfold handleSystemExclusive. rewrite H. reflexivity. Qed.

(** A request without a token, or with the token of this boot cycle, goes
    to the methods. *)
Lemma own_token_dispatched (d : V2Device) (buffer : list Z) (jsonDevice : J) :
  request pf buffer = Some jsonDevice ->
  isNull (member jsonDevice "token") = true
  \/ ne_u32 (member jsonDevice "token") (_boot_id d) = false ->
  handleSystemExclusive pf d buffer = dispatch pf d jsonDevice.
Proof.
  intros Hreq Htok. unfold handleSystemExclusive. rewrite Hreq.
  destruct Htok as [-> | ->]; [reflexivity|].
  rewrite andb_false_r. reflexivity.
Qed.

(** C10: a JSON request for the device interface whose [token] member is
    not null and differs from [_boot.id] is ignored: the function calls
    nothing (no reply, no EEPROM or flash access, no reboot, no hook) and
    leaves the device as it is. *)
Theorem foreign_token_ignored (d : V2Device) (buffer : list Z)
        (jsonDevice : J) :
  request pf buffer = Some jsonDevice ->
  isNull (member jsonDevice "token") = false ->
  ne_u32 (member jsonDevice "token") (_boot_id d) = true ->
  handleSystemExclusive pf d buffer = (d, []).
Proof.
  intros Hreq Hnull Hne. unfold handleSystemExclusive.
  rewrite Hreq. cbv zeta. rewrite Hnull, Hne. reflexivity.
Qed.

(** *** What a request can store and write *)

Lemma usb_fits_import_usb (jsonUsb : J) (d : V2Device) :
  usb_fits (_eeprom d) -> usb_fits (_eeprom (import_usb jsonUsb d)).
Proof.
  intros [Hname Hports]. unfold import_usb, usb_fits.
  destruct (as_cstr (member jsonUsb "name")) as [n|];
    [destruct (name_fits n) eqn:Hfits|];
    destruct (isNull (member jsonUsb "vid"));
    destruct (isNull (member jsonUsb "pid"));
    destruct (isNull (member jsonUsb "ports")); simpl;
    try destruct (Z.leb_spec (as_u8 (member jsonUsb "ports")) 16); simpl;
    try (split; [|lia]); try (split; [|assumption]);
    try assumption; try lia.
  all: unfold name_fits in Hfits; apply andb_true_iff in Hfits;
    destruct Hfits as [_ Hlt]; apply Nat.ltb_lt in Hlt; exact Hlt.
Qed.

(** What a call does to the device: nothing, or it sets the access flag
    kept over the reboot, or it imports USB settings, or not, and writes
    the configuration. *)
Lemma handleSystemExclusive_cases (d : V2Device) (buffer : list Z) :
  let r := handleSystemExclusive pf d buffer in
  (r.1 = d /\ images_written r.2 = [])
  \/ (r.1 = set_enableAccess true d /\ images_written r.2 = [])
  \/ (exists d1, (d1 = d \/ exists jsonUsb, d1 = import_usb jsonUsb d)
                 /\ r.1 = (writeConfiguration (J := J) d1).1
                 /\ images_written r.2 = [_eeprom r.1]).
Proof.
  unfold handleSystemExclusive.
  destruct (request pf buffer) as [jsonDevice|]; [|left; split; reflexivity].
  cbv zeta.
  destruct (negb (isNull (member jsonDevice "token"))
            && ne_u32 (member jsonDevice "token") (_boot_id d));
    [left; split; reflexivity|].
  unfold dispatch.
  destruct (eq_string (member jsonDevice "method") "getAll");
    [left; split; reflexivity|].
  destruct (eq_string (member jsonDevice "method") "eraseConfiguration");
    [left; split; reflexivity|].
  destruct (eq_string (member jsonDevice "method") "switchChannel").
  { left. split; [reflexivity|].
    destruct (negb (isNull (member jsonDevice "channel"))); reflexivity. }
  destruct (eq_string (member jsonDevice "method") "reboot");
    [left; split; reflexivity|].
  destruct (eq_string (member jsonDevice "method") "rebootWithPorts");
    [right; left; split; reflexivity|].
  destruct (eq_string (member jsonDevice "method") "writeConfiguration").
  { destruct (is_object (member jsonDevice "configuration"));
      [|left; split; reflexivity].
    right. right.
    set (config := member jsonDevice "configuration").
    destruct (is_object (member config "usb")).
    - exists (import_usb (member config "usb") d).
      split; [right; eexists; reflexivity|].
      unfold writeConfiguration.
      destruct (0 <? configuration_size (import_usb (member config "usb") d));
        split; reflexivity.
    - exists d. split; [left; reflexivity|].
      unfold writeConfiguration.
      destruct (0 <? configuration_size d); split; reflexivity. }
  destruct (eq_string (member jsonDevice "method") "writeFirmware");
    [|left; split; reflexivity].
  left. split; [reflexivity|]. simpl. unfold write_firmware.
  destruct (negb (is_object (member jsonDevice "firmware"))); [reflexivity|].
  cbv zeta.
  destruct (negb (_ =? 0)); [reflexivity|].
  destruct (as_cstr (member (member jsonDevice "firmware") "hash"));
    [|reflexivity].
  destruct (Secondary_verify pf _ _); reflexivity.
Qed.

(** X18: no request can overflow the stored USB settings. If the name in
    [_eeprom.usb.name] is shorter than the 32 bytes of the field and the
    port count is at most 16, the same holds after any SysEx message,
    whatever it contains: [strcpy] runs for names of 2 to 31 characters
    only, and a port count above 16 is not stored. *)
Theorem stored_usb_settings_fit (d : V2Device) (buffer : list Z) :
  usb_fits (_eeprom d) ->
  usb_fits (_eeprom (handleSystemExclusive pf d buffer).1).
Proof.
  intros Hfit.
  destruct (handleSystemExclusive_cases d buffer)
    as [[-> _]|[[-> _]|(d1 & Hd1 & -> & _)]]; try exact Hfit.
  assert (Hd1fit : usb_fits (_eeprom d1)).
  { destruct Hd1 as [->|(jsonUsb & ->)];
      [exact Hfit|apply usb_fits_import_usb; exact Hfit]. }
  exact Hd1fit.
Qed.

(** X19: the [_eeprom] member in RAM and the image in the EEPROM do not
    drift apart. Whatever the message, a call that changes [_eeprom] writes
    the new value to the EEPROM, and every image a call writes is the value
    [_eeprom] has when the call returns. *)
Theorem eeprom_image_written (d : V2Device) (buffer : list Z) :
  let r := handleSystemExclusive pf d buffer in
  (forall image, In image (images_written r.2) -> image = _eeprom r.1)
  /\ (_eeprom r.1 = _eeprom d \/ images_written r.2 = [_eeprom r.1]).
Proof.
  cbv zeta.
  destruct (handleSystemExclusive_cases d buffer)
    as [[Hd Hw]|[[Hd Hw]|(d1 & _ & Hd & Hw)]]; rewrite Hw.
  - split; [intros image []|left; rewrite Hd; reflexivity].
  - split; [intros image []|left; rewrite Hd; reflexivity].
  - split; [|right; reflexivity].
    intros image [<-|[]]. reflexivity.
Qed.

Lemma blocks_written_dispatch (d : V2Device) (buffer : list Z) :
  let log := (handleSystemExclusive pf d buffer).2 in
  log = [] \/ blocks_written log = []
  \/ exists jsonDevice, log = write_firmware pf jsonDevice.
Proof.
  unfold handleSystemExclusive.
  destruct (request pf buffer) as [jsonDevice|]; [|left; reflexivity].
  cbv zeta.
  destruct (negb (isNull (member jsonDevice "token"))
            && ne_u32 (member jsonDevice "token") (_boot_id d));
    [left; reflexivity|].
  unfold dispatch.
  repeat (match goal with
          | |- context [if eq_string ?m ?s then _ else _] =>
              destruct (eq_string m s)
          end;
          [try (right; left; reflexivity)|]).
  - right. left. simpl.
    destruct (negb (isNull (member jsonDevice "channel"))); reflexivity.
  - right. left.
    destruct (is_object (member jsonDevice "configuration")); [|reflexivity].
    set (d1 := if is_object _ then _ else d).
    unfold writeConfiguration.
    destruct (0 <? configuration_size d1); reflexivity.
  - right. right. exists jsonDevice. reflexivity.
  - left. reflexivity.
Qed.


(** No entry of a short list of calls is the activation. *)
Ltac no_activation :=
  let H := fresh "H" in
  simpl; intros H;
  repeat (destruct H as [H|H]; try discriminate H);
  destruct H.

(** X21: the new firmware is activated only after the hash of the request
    has been checked against the written image. If a call reaches
    [Secondary::activate()], the message is a [writeFirmware] request with
    a [hash] member, [Secondary::verify] returned true for that hash and
    for the size [offset + blockLen] (a [uint32_t] sum) of that request,
    and up to the activation the call did exactly this, in order:
    brightness 0.3, write the block of the request, brightness 0.1, copy
    the bootloader, send the status [success], flush, brightness 1, wait
    100 ms. Nothing is said of what follows the activation. *)
Theorem activation_after_verification (d : V2Device) (buffer : list Z) :
  In Secondary_activate (handleSystemExclusive pf d buffer).2 ->
  exists jsonDevice hash later,
    let firmware := member jsonDevice "firmware" in
    let offset := as_u32 (member firmware "offset") in
    let bytes := Base64_decode pf (as_cstr (member firmware "data")) in
    request pf buffer = Some jsonDevice
    /\ eq_string (member jsonDevice "method") "writeFirmware" = true
    /\ as_cstr (member firmware "hash") = Some hash
    /\ Secondary_verify pf (Time.u32 (offset + Z.of_nat (length bytes)))
                        hash = true
    /\ (handleSystemExclusive pf d buffer).2
       = [led_setBrightness 30;
          Secondary_writeBlock offset
            (bytes
             ++ replicate
                  (Z.to_nat (Flash_getBlockSize pf - Z.of_nat (length bytes)))
                  255);
          led_setBrightness 10; Secondary_copyBootloader;
          sendFirmwareStatus "success"; flush_system_exclusive;
          led_setBrightness 100; delay 100; Secondary_activate]
         ++ later.
Proof.
  unfold handleSystemExclusive.
  destruct (request pf buffer) as [jsonDevice|]; [|intros []].
  cbv zeta.
  destruct (negb (isNull (member jsonDevice "token"))
            && ne_u32 (member jsonDevice "token") (_boot_id d));
    [intros []|].
  unfold dispatch. cbv zeta.
  destruct (eq_string (member jsonDevice "method") "getAll");
    [no_activation|].
  destruct (eq_string (member jsonDevice "method") "eraseConfiguration");
    [no_activation|].
  destruct (eq_string (member jsonDevice "method") "switchChannel").
  { destruct (negb (isNull (member jsonDevice "channel"))); no_activation. }
  destruct (eq_string (member jsonDevice "method") "reboot");
    [no_activation|].
  destruct (eq_string (member jsonDevice "method") "rebootWithPorts");
    [no_activation|].
  destruct (eq_string (member jsonDevice "method") "writeConfiguration").
  { destruct (is_object (member jsonDevice "configuration"));
      [|no_activation].
    set (d1 := if is_object _ then _ else d).
    unfold writeConfiguration.
    destruct (0 <? configuration_size d1); no_activation. }
  destruct (eq_string (member jsonDevice "method") "writeFirmware")
    eqn:Hmethod; [|intros []].
  cbn [snd]. unfold write_firmware.
  destruct (negb (is_object (member jsonDevice "firmware"))); [intros []|].
  cbv zeta.
  destruct (negb (_ =? 0)); [no_activation|].
  destruct (as_cstr (member (member jsonDevice "firmware") "hash"))
    as [hash|] eqn:Hhash; [|no_activation].
  destruct (Secondary_verify pf _ hash) eqn:Hverify; [|no_activation].
  intros _.
  exists jsonDevice, hash, [sendFirmwareStatus "hashMismatch"].
  split; [reflexivity|]. split; [exact Hmethod|]. split; [exact Hhash|].
  split; [exact Hverify|reflexivity].
Qed.


End RequestsFacts.

#[local] Existing Instance TreeJson.

Lemma foreign_token_ignored_witness :
  handleSystemExclusive example_platform (example_device 9) example_buffer
  = (example_device 9, []).
Proof.
  apply (foreign_token_ignored example_platform (example_device 9)
           example_buffer
           (JObj [("token", JNum 7); ("method", JStr "reboot")]));
    vm_compute; reflexivity.
Defined.

(** The same request with the token of this boot cycle reboots. *)
Example own_token_reboots :
  handleSystemExclusive example_platform (example_device 7) example_buffer
  = (example_device 7, [Firmware_reboot]).
Proof. vm_compute. reflexivity. Qed.

Lemma stored_usb_settings_fit_witness :
  usb_fits (_eeprom (handleSystemExclusive example_loader (example_device 7)
                       (example_message 1)).1)
  /\ eeprom_usb_name
       (_eeprom (handleSystemExclusive example_loader (example_device 7)
                   (example_message 1)).1) = example_name.
Proof.
  split; [|reflexivity].
  apply (stored_usb_settings_fit example_loader (example_device 7)
           (example_message 1)).
  split; [simpl; lia|simpl; lia].
Defined.


Lemma activation_after_verification_witness :
  exists jsonDevice hash later,
    request example_loader (example_message 2) = Some jsonDevice
    /\ eq_string (member jsonDevice "method") "writeFirmware" = true
    /\ as_cstr (member (member jsonDevice "firmware") "hash") = Some hash
    /\ Secondary_verify example_loader (Time.u32 (16 + 4)) hash = true
    /\ (handleSystemExclusive example_loader (example_device 7)
          (example_message 2)).2
       = [led_setBrightness 30;
          Secondary_writeBlock 16 [222; 173; 190; 239; 255; 255; 255; 255];
          led_setBrightness 10; Secondary_copyBootloader;
          sendFirmwareStatus "success"; flush_system_exclusive;
          led_setBrightness 100; delay 100; Secondary_activate]
         ++ later.
Proof.
  destruct (activation_after_verification example_loader (example_device 7)
              (example_message 2))
    as (jsonDevice & hash & later & Hreq & Hmethod & Hhash & Hverify & Hlog).
  - vm_compute. do 8 right. left. reflexivity.
  - exists jsonDevice, hash, later.
    assert (Hj : jsonDevice
                 = JObj [("method", JStr "writeFirmware");
                         ("firmware",
                          JObj [("offset", JNum 16); ("data", JStr "3q2+7w==");
                                ("hash", JStr "cafe")])]).
    { vm_compute in Hreq. injection Hreq as <-. reflexivity. }
    subst jsonDevice.
    split; [reflexivity|]. split; [exact Hmethod|]. split; [exact Hhash|].
    split; [exact Hverify|exact Hlog].
Defined.


End DeviceFacts.

Module TextFacts.
Import Time TimeFacts Text.

(** *** Bytes, by enumeration and by arithmetic *)

Lemma below_forall (n : nat) (P : Z -> bool) :
  forallb (fun k => P (Z.of_nat k)) (seq 0 n) = true ->
  forall x, 0 <= x < Z.of_nat n -> P x = true.
Proof.
  intros H x Hx. rewrite forallb_forall in H.
  replace x with (Z.of_nat (Z.to_nat x)) by lia.
  apply H. apply in_seq. lia.
Qed.

Lemma land_63 a : Z.land a 63 = a mod 64.
Proof. change 63 with (Z.ones 6). rewrite Z.land_ones by lia. reflexivity. Qed.

Lemma lor_shift_low a b :
  0 <= b < 64 -> Z.lor (Z.shiftl a 6) b = a * 64 + b.
Proof.
  intros Hb.
  assert (Hland : Z.land (Z.shiftl a 6) b = 0).
  { apply Z.bits_inj'. intros n Hn. rewrite Z.land_spec, Z.bits_0.
    destruct (Z.lt_ge_cases n 6) as [Hlt|Hge].
    - rewrite Z.shiftl_spec_low by lia. reflexivity.
    - destruct (Z.eq_dec b 0) as [->|Hnz].
      + rewrite Z.bits_0. apply andb_false_r.
      + rewrite (Z.bits_above_log2 b n); [apply andb_false_r|lia|].
        assert (Z.log2 b < 6) by (apply Z.log2_lt_pow2; lia). lia. }
  rewrite <- Z.lxor_lor by exact Hland.
  rewrite <- Z.add_nocarry_lxor by exact Hland.
  rewrite Z.shiftl_mul_pow2 by lia. reflexivity.
Qed.

(** A continuation byte made from six payload bits is accepted and gives
    them back. *)
Lemma tail_byte_ok y :
  0 <= y < 64 ->
  Z.land (Z.lor 128 y) 192 = 128 /\ Z.land (Z.lor 128 y) 63 = y.
Proof.
  intros Hy.
  pose proof (below_forall 64
    (fun y => (Z.land (Z.lor 128 y) 192 =? 128)
              && (Z.land (Z.lor 128 y) 63 =? y)) eq_refl y Hy) as H.
  apply andb_true_iff in H. destruct H as [H1 H2].
  split; apply Z.eqb_eq; assumption.
Qed.

Lemma tail_byte_payload c k :
  0 <= k -> tail_byte c k = Z.lor 128 ((c / 64 ^ k) mod 64).
Proof.
  intros Hk. unfold tail_byte. rewrite land_63.
  rewrite Z.shiftr_div_pow2 by lia.
  replace (2 ^ (6 * k)) with (64 ^ k); [reflexivity|].
  change 64 with (2 ^ 6). rewrite <- Z.pow_mul_r by lia. reflexivity.
Qed.

(** The loop over [n] continuation bytes that carry the low [6 n] bits of
    [c] appends them to what the lead byte gave. *)
Lemma continuation_tails (utf8 : Bytes) (c : Z) : forall (n start : nat) acc,
  (forall j, (j < n)%nat ->
             utf8 (start + j)%nat = tail_byte c (Z.of_nat (n - 1 - j))) ->
  0 <= acc -> (acc + 1) * 64 ^ Z.of_nat n <= 2 ^ 32 ->
  continuation utf8 (seq start n) acc
  = Some (acc * 64 ^ Z.of_nat n + c mod 64 ^ Z.of_nat n).
Proof.
  induction n as [|n IH]; intros start acc Hmem Hacc Hfit.
  - simpl. rewrite Z.mod_1_r. f_equal. lia.
  - cbn [seq continuation].
    pose proof (Hmem 0%nat ltac:(lia)) as H0.
    rewrite Nat.add_0_r in H0.
    replace (S n - 1 - 0)%nat with n in H0 by lia.
    rewrite H0, tail_byte_payload by lia.
    set (y := (c / 64 ^ Z.of_nat n) mod 64).
    assert (Hy : 0 <= y < 64) by (apply Z.mod_pos_bound; lia).
    destruct (tail_byte_ok y Hy) as [Hok Hpay].
    rewrite Hok, Hpay. simpl negb. cbv iota.
    assert (Hpow : 64 ^ Z.of_nat (S n) = 64 ^ Z.of_nat n * 64).
    { rewrite Nat2Z.inj_succ, Z.pow_succ_r by lia. lia. }
    assert (Hpos : 0 < 64 ^ Z.of_nat n) by (apply Z.pow_pos_nonneg; lia).
    rewrite Z.shiftl_mul_pow2 by lia.
    rewrite u32_small by (change (2 ^ 6) with 64; nia).
    rewrite <- Z.shiftl_mul_pow2 by lia.
    rewrite lor_shift_low by exact Hy.
    rewrite IH.
    + f_equal. rewrite Hpow.
      rewrite (Z.rem_mul_r c (64 ^ Z.of_nat n) 64) by lia.
      fold y. lia.
    + intros j Hj.
      replace (S start + j)%nat with (start + S j)%nat by lia.
      rewrite Hmem by lia. f_equal. lia.
    + lia.
    + rewrite Hpow in Hfit. nia.
Qed.

(** The lead bytes of the multi-byte forms. *)
Lemma lead_byte_ok len prefix (bound : nat) x :
  In (len, prefix, bound)
     [(2, 192, 32%nat); (3, 224, 16%nat); (4, 240, 8%nat); (5, 248, 4%nat);
      (6, 252, 2%nat)] ->
  0 <= x < Z.of_nat bound ->
  lead_len (Z.lor prefix x) = len /\ lead_bits len (Z.lor prefix x) = x.
Proof.
  intros Hin Hx.
  assert (H : ((lead_len (Z.lor prefix x) =? len)
               && (lead_bits len (Z.lor prefix x) =? x)) = true).
  { simpl in Hin.
    destruct Hin as [Hin|[Hin|[Hin|[Hin|[Hin|[]]]]]];
      injection Hin as <- <- <-;
      match goal with
      | |- ?lhs = true =>
          match type of Hx with
          | _ <= _ < Z.of_nat ?b =>
              match eval pattern x in lhs with
              | ?f x => exact (below_forall b f eq_refl x Hx)
              end
          end
      end. }
  apply andb_true_iff in H. destruct H as [H1 H2].
  split; apply Z.eqb_eq; assumption.
Qed.

Lemma shiftr_64 c n : 0 <= n -> Z.shiftr c (6 * n) = c / 64 ^ n.
Proof.
  intros Hn. rewrite Z.shiftr_div_pow2 by lia.
  change 64 with (2 ^ 6). rewrite <- Z.pow_mul_r by lia. reflexivity.
Qed.

(** Decoding a lead byte that carries [c / 64^n] followed by the [n]
    continuation bytes of [c]. *)
Lemma decode_form len prefix (bound : nat) (n : nat) c (utf8 : Bytes) :
  In (len, prefix, bound)
     [(2, 192, 32%nat); (3, 224, 16%nat); (4, 240, 8%nat); (5, 248, 4%nat);
      (6, 252, 2%nat)] ->
  len = Z.of_nat n + 1 ->
  0 <= c < Z.of_nat bound * 64 ^ Z.of_nat n ->
  utf8 0%nat = Z.lor prefix (Z.shiftr c (6 * Z.of_nat n)) ->
  (forall j, (j < n)%nat ->
             utf8 (1 + j)%nat = tail_byte c (Z.of_nat (n - 1 - j))) ->
  utf8Codepoint utf8 = (len, Some c).
Proof.
  intros Hin Hlen Hc H0 Htails.
  assert (Hpos : 0 < 64 ^ Z.of_nat n) by (apply Z.pow_pos_nonneg; lia).
  set (x := c / 64 ^ Z.of_nat n).
  assert (Hx : 0 <= x < Z.of_nat bound).
  { unfold x. split; [apply Z.div_pos; lia|].
    apply Z.div_lt_upper_bound; lia. }
  assert (Hfit : (x + 1) * 64 ^ Z.of_nat n <= 2 ^ 32).
  { simpl in Hin.
    destruct Hin as [Hin|[Hin|[Hin|[Hin|[Hin|[]]]]]];
      injection Hin as <- <- <-;
      [replace n with 1%nat in * by lia|replace n with 2%nat in * by lia
      |replace n with 3%nat in * by lia|replace n with 4%nat in * by lia
      |replace n with 5%nat in * by lia];
      simpl in *; lia. }
  destruct (lead_byte_ok len prefix bound x Hin Hx) as [Hl Hbits].
  unfold utf8Codepoint. rewrite H0, shiftr_64 by lia. fold x.
  rewrite Hl, Hbits.
  replace (len =? -1) with false by (symmetry; apply Z.eqb_neq; lia).
  replace (Z.to_nat len - 1)%nat with n by lia.
  rewrite (continuation_tails utf8 c n 1 x Htails) by (lia || exact Hfit).
  do 2 f_equal. unfold x.
  rewrite (Z.div_mod c (64 ^ Z.of_nat n)) at 3 by lia. lia.
Qed.

Ltac tails_by_cases :=
  let j := fresh "j" in
  let Hj := fresh "Hj" in
  intros j Hj;
  repeat (destruct j as [|j]; [reflexivity|]);
  exfalso; lia.

(** The decoder on the encoding of one code point. *)
Lemma decode_encoded (c : Z) (rest : Bytes) :
  0 <= c < 2 ^ 31 ->
  utf8Codepoint (holding (utf8_encode c) rest)
  = (Z.of_nat (length (utf8_encode c)), Some c).
Proof.
  intros Hc. unfold utf8_encode.
  destruct (Z.ltb_spec c 128) as [H1|H1].
  { unfold utf8Codepoint. cbn [holding lookup list_lookup length].
    unfold lead_len. rewrite (proj2 (Z.ltb_lt c 128) H1). reflexivity. }
  destruct (Z.ltb_spec c 2048) as [H2|H2].
  { apply (decode_form 2 192 32 1 c); try reflexivity;
      [simpl; tauto|simpl; lia|tails_by_cases]. }
  destruct (Z.ltb_spec c 65536) as [H3|H3].
  { apply (decode_form 3 224 16 2 c); try reflexivity;
      [simpl; tauto|simpl; lia|tails_by_cases]. }
  destruct (Z.ltb_spec c 2097152) as [H4|H4].
  { apply (decode_form 4 240 8 3 c); try reflexivity;
      [simpl; tauto|simpl; lia|tails_by_cases]. }
  destruct (Z.ltb_spec c 67108864) as [H5|H5].
  { apply (decode_form 5 248 4 4 c); try reflexivity;
      [simpl; tauto|simpl; lia|tails_by_cases]. }
  apply (decode_form 6 252 2 5 c); try reflexivity;
    [simpl; tauto|simpl; lia|tails_by_cases].
Qed.

(** *** What [sprintf] writes *)

Lemma hex_digit_ascii7 v : ascii7 (hex_digit (v mod 16)).
Proof.
  pose proof (Z.mod_pos_bound v 16 ltac:(lia)) as H.
  unfold ascii7, hex_digit. destruct (Z.ltb_spec (v mod 16) 10); lia.
Qed.

Lemma hex_digits_ascii7 fuel : forall v acc,
  Forall ascii7 acc -> Forall ascii7 (hex_digits fuel v acc).
Proof.
  induction fuel as [|fuel IH]; intros v acc Hacc; simpl; [exact Hacc|].
  destruct (v / 16 =? 0).
  - constructor; [apply hex_digit_ascii7|exact Hacc].
  - apply IH. constructor; [apply hex_digit_ascii7|exact Hacc].
Qed.

Lemma hex_digits_length fuel : forall (k : nat) v acc,
  (1 <= k <= fuel)%nat -> 0 <= v < 16 ^ Z.of_nat k ->
  (length acc + 1 <= length (hex_digits fuel v acc) <= length acc + k)%nat.
Proof.
  induction fuel as [|fuel IH]; intros k v acc Hk Hv; [lia|].
  simpl. destruct (Z.eqb_spec (v / 16) 0) as [Hz|Hnz].
  - simpl. lia.
  - destruct k as [|[|k]]; [lia| |].
    + exfalso. apply Hnz. apply Z.div_small. simpl in Hv. lia.
    + assert (Hdiv : 0 <= v / 16 < 16 ^ Z.of_nat (S k)).
      { split; [apply Z.div_pos; lia|].
        apply Z.div_lt_upper_bound; [lia|].
        replace (16 * 16 ^ Z.of_nat (S k)) with (16 ^ Z.of_nat (S (S k)));
          [lia|].
        rewrite (Nat2Z.inj_succ (S k)), Z.pow_succ_r by lia. reflexivity. }
      pose proof (IH (S k) (v / 16) (hex_digit (v mod 16) :: acc)
                     ltac:(lia) Hdiv) as H.
      simpl length in H. lia.
Qed.

(** For a 16-bit value [%04x] writes exactly four characters, all ASCII. *)
Lemma printf_04x_16bit v :
  0 <= v < 65536 ->
  length (printf_04x v) = 4%nat /\ Forall ascii7 (printf_04x v).
Proof.
  intros Hv. unfold printf_04x.
  pose proof (hex_digits_length 8 4 v [] ltac:(lia) Hv) as Hlen.
  change (length (@nil Z)) with 0%nat in Hlen. split.
  - rewrite length_app, length_replicate. lia.
  - apply Forall_app. split.
    + apply Forall_replicate. unfold ascii7. lia.
    + apply hex_digits_ascii7. constructor.
Qed.

Lemma escape_u_16bit v :
  0 <= v < 65536 ->
  length (escape_u v) = 6%nat /\ Forall ascii7 (escape_u v).
Proof.
  intros Hv. destruct (printf_04x_16bit v Hv) as [Hlen Hall].
  unfold escape_u. split.
  - simpl. rewrite Hlen. reflexivity.
  - repeat constructor; unfold ascii7; try lia. exact Hall.
Qed.

(** *** What [utf8Codepoint] returns *)

Lemma lead_len_values b : lead_len b = -1 \/ 1 <= lead_len b <= 6.
Proof.
  unfold lead_len.
  repeat match goal with
         | |- context [if ?c then _ else _] => destruct c
         end; lia.
Qed.

Lemma continuation_nonneg (utf8 : Bytes) ks : forall acc c,
  0 <= acc -> continuation utf8 ks acc = Some c -> 0 <= c.
Proof.
  induction ks as [|k ks IH]; intros acc c Hacc H; simpl in H.
  - congruence.
  - destruct (Z.land (utf8 k) 192 =? 128); simpl in H; [|discriminate].
    refine (IH _ _ _ H).
    apply Z.lor_nonneg. split; [apply u32_range|].
    apply Z.land_nonneg. right. lia.
Qed.

Lemma lead_bits_nonneg len b : 0 <= b -> 0 <= lead_bits len b.
Proof.
  intros Hb. unfold lead_bits.
  repeat match goal with
         | |- context [match ?x with _ => _ end] => destruct x
         end; try exact Hb; apply Z.land_nonneg; right; lia.
Qed.

(** The value returned is -1 or the length announced by the lead byte, a
    number from 1 to 6; a code point is stored exactly when it is not -1,
    and it is not negative. *)
Lemma utf8Codepoint_returns (utf8 : Bytes) :
  0 <= utf8 0%nat ->
  (utf8Codepoint utf8 = (-1, None))
  \/ (exists c, utf8Codepoint utf8 = (lead_len (utf8 0%nat), Some c)
                /\ 1 <= lead_len (utf8 0%nat) <= 6 /\ 0 <= c).
Proof.
  intros Hb. unfold utf8Codepoint.
  destruct (lead_len_values (utf8 0%nat)) as [Hl|Hl].
  - rewrite Hl. left. reflexivity.
  - replace (lead_len (utf8 0%nat) =? -1) with false
      by (symmetry; apply Z.eqb_neq; lia).
    destruct (continuation utf8 _ _) as [c|] eqn:Hcont; [right|left; reflexivity].
    exists c. split; [reflexivity|]. split; [exact Hl|].
    apply (continuation_nonneg _ _ _ _ (lead_bits_nonneg _ _ Hb) Hcont).
Qed.


(** *** [escapeJSON] on arbitrary input *)

Section EscapeAny.
Variable jsonBuffer : Bytes.
Variables jsonLen size : Z.
Variable indeterminate : Z -> Z.
Hypothesis bytes_nonneg : forall k, 0 <= jsonBuffer k.
Hypothesis indeterminate_u32 : forall i, 0 <= indeterminate i < 2 ^ 32.
Hypothesis jsonLen_fits : 0 <= jsonLen <= 2 ^ 32 - 256.
Hypothesis size_fits : 0 <= size <= 2 ^ 32 - 14.

(** One iteration either gives up, leaving the output as it is, or moves
    on by 1 to 255 bytes of input with a longer output that is still 7-bit
    and within the buffer. *)
Lemma escape_step_safe i out tp :
  0 <= i < jsonLen ->
  Forall ascii7 out -> Z.of_nat (length out) <= size -> tp <= size ->
  match escape_step jsonBuffer size indeterminate i out tp with
  | inl r => r = mkEscaped 0 out tp
  | inr (i', out', tp') =>
      i < i' <= i + 255
      /\ Forall ascii7 out' /\ Z.of_nat (length out') <= size /\ tp' <= size
  end.
Proof.
  intros Hi Hout Hlen Htp. unfold escape_step.
  destruct (Z.ltb_spec 127 (jsonBuffer (Z.to_nat i))) as [Hhigh|Hlow].
  - (* a byte above 0x7f *)
    assert (Hr : exists r stored,
               utf8Codepoint (offset jsonBuffer i) = (r, stored)
               /\ (r = -1 \/ 1 <= r <= 6)
               /\ (forall c, stored = Some c -> 0 <= c)).
    { destruct (utf8Codepoint_returns (offset jsonBuffer i)
                  (bytes_nonneg _)) as [H|(c & H & Hl & Hc)].
      - exists (-1), None. split; [exact H|]. split; [lia|]. congruence.
      - eexists _, _. split; [exact H|]. split; [lia|].
        intros c' Hc'. congruence. }
    destruct Hr as (r & stored & Hu & Hrange & Hstored). rewrite Hu.
    set (len := int8_to_uint8 r).
    assert (Hlen8 : 1 <= len <= 255).
    { unfold len, int8_to_uint8, u8.
      destruct Hrange as [->|Hr]; [vm_compute; split; discriminate|].
      rewrite Z.mod_small by lia. lia. }
    set (codepoint := default (indeterminate i) stored).
    assert (Hcp : 0 <= codepoint).
    { unfold codepoint. destruct stored as [c|]; simpl;
        [apply Hstored; reflexivity|apply indeterminate_u32]. }
    assert (Hi' : u32 (u32 (i + (len - 1)) + 1) = i + len).
    { rewrite (u32_small (i + (len - 1))) by lia.
      rewrite u32_small by lia. lia. }
    rewrite Hi'.
    destruct (Z.ltb_spec codepoint 65535) as [Hbmp|Hsup].
    + rewrite (u32_small (Z.of_nat (length out) + 7)) by lia.
      destruct (Z.ltb_spec size (Z.of_nat (length out) + 7)); [reflexivity|].
      destruct (escape_u_16bit codepoint ltac:(lia)) as [Hl6 Ha].
      split; [lia|]. split; [apply Forall_app; split; assumption|].
      rewrite length_app, Hl6. lia.
    + rewrite (u32_small (Z.of_nat (length out) + 13)) by lia.
      destruct (Z.ltb_spec size (Z.of_nat (length out) + 13)); [reflexivity|].
      set (cp := u32 (codepoint - 65536)).
      assert (H1 : 0 <= u16 (Z.shiftr cp 10 + 55296) < 65536)
        by (apply Z.mod_pos_bound; lia).
      assert (H2 : 0 <= u16 (Z.land cp 1023 + 56320) < 65536)
        by (apply Z.mod_pos_bound; lia).
      destruct (escape_u_16bit _ H1) as [Hl1 Ha1].
      destruct (escape_u_16bit _ H2) as [Hl2 Ha2].
      split; [lia|]. split.
      { apply Forall_app. split; [exact Hout|].
        apply Forall_app. split; assumption. }
      rewrite !length_app, Hl1, Hl2. lia.
  - (* an ASCII byte *)
    destruct (Z.leb_spec size (Z.of_nat (length out))); [reflexivity|].
    rewrite u32_small by lia.
    split; [lia|]. split.
    + apply Forall_app. split; [exact Hout|].
      constructor; [|constructor]. split; [apply bytes_nonneg|lia].
    + rewrite length_app. simpl. lia.
Qed.

Lemma escape_loop_safe fuel : forall i out tp,
  0 <= i -> jsonLen - i <= Z.of_nat fuel ->
  Forall ascii7 out -> Z.of_nat (length out) <= size -> tp <= size ->
  exists r,
    escape_loop fuel jsonBuffer jsonLen size indeterminate i out tp = Some r
    /\ safe_result size r.
Proof.
  induction fuel as [|fuel IH]; intros i out tp Hi Hfuel Hout Hlen Htp.
  - simpl. destruct (Z.ltb_spec i jsonLen) as [Hlt|Hge]; [lia|].
    eexists. split; [reflexivity|].
    repeat split; simpl; auto; lia.
  - cbn [escape_loop].
    destruct (Z.ltb_spec i jsonLen) as [Hlt|Hge]; simpl negb; cbv iota.
    + pose proof (escape_step_safe i out tp ltac:(lia) Hout Hlen Htp) as Hstep.
      destruct (escape_step jsonBuffer size indeterminate i out tp)
        as [r|[[i' out'] tp']].
      * exists r. split; [reflexivity|]. subst r.
        repeat split; simpl; auto; lia.
      * destruct Hstep as (Hi' & Hout' & Hlen' & Htp').
        apply IH; auto; lia.
    + eexists. split; [reflexivity|].
      repeat split; simpl; auto; lia.
Qed.

(** X4: whatever the memory holds (malformed UTF-8 included), [escapeJSON]
    returns; it wrote only bytes below 0x80, none at or beyond [size] (the
    NUL of [sprintf] included), and its result is the number of bytes
    written, or 0. *)
Theorem escapeJSON_7bit_in_bounds :
  exists r,
    escapeJSON jsonBuffer jsonLen size indeterminate = Some r
    /\ safe_result size r.
Proof.
  unfold escapeJSON.
  apply escape_loop_safe; simpl; try lia. constructor.
Qed.

End EscapeAny.

Lemma escapeJSON_7bit_in_bounds_witness :
  exists r,
    escapeJSON (holding [72; 255; 105; 33] (fun _ => 0)) 4 100 (fun _ => 7)
    = Some r /\ safe_result 100 r.
Proof.
  apply escapeJSON_7bit_in_bounds.
  - intros k. unfold holding.
    do 4 (destruct k as [|k]; [simpl; lia|]). simpl. lia.
  - intros i. lia.
  - lia.
  - lia.
Defined.


(** *** [escapeJSON] on well-formed UTF-8 *)

Lemma continuation_ext (m m' : Bytes) ks : forall acc,
  (forall k, m k = m' k) -> continuation m ks acc = continuation m' ks acc.
Proof.
  induction ks as [|k ks IH]; intros acc H; simpl; [reflexivity|].
  rewrite H. destruct (Z.land (m' k) 192 =? 128); simpl; auto.
Qed.

Lemma utf8Codepoint_ext (m m' : Bytes) :
  (forall k, m k = m' k) -> utf8Codepoint m = utf8Codepoint m'.
Proof.
  intros H. unfold utf8Codepoint.
  rewrite (H 0%nat), (continuation_ext m m') by exact H. reflexivity.
Qed.

(** Memory that holds [l] at offset [i] looks, from there, like [l]
    followed by something. *)
Lemma offset_holding (m : Bytes) (i : Z) (l : list Z) :
  (forall k b, l !! k = Some b -> m (Z.to_nat i + k)%nat = b) ->
  forall k,
    offset m i k
    = holding l (fun j => m (Z.to_nat i + length l + j)%nat) k.
Proof.
  intros H k. unfold offset, holding.
  destruct (l !! k) as [b|] eqn:Hk.
  - apply H. exact Hk.
  - apply lookup_ge_None in Hk. f_equal. lia.
Qed.

Lemma utf8_encode_length c :
  (1 <= length (utf8_encode c) <= 6)%nat.
Proof.
  unfold utf8_encode.
  repeat match goal with
         | |- context [if ?b then _ else _] => destruct b
         end; simpl; lia.
Qed.

(** X1: [utf8Codepoint] inverts the UTF-8 encoding: for every code point
    below 2^31, on memory that holds its encoding (one to six bytes,
    followed by anything) it returns the number of bytes of the encoding
    and stores the code point. *)
Theorem utf8Codepoint_decodes_utf8 (c : Z) (rest : Bytes) :
  0 <= c < 2 ^ 31 ->
  utf8Codepoint (holding (utf8_encode c) rest)
  = (Z.of_nat (length (utf8_encode c)), Some c)
  /\ (1 <= length (utf8_encode c) <= 6)%nat.
Proof.
  intros Hc. split.
  - apply decode_encoded. exact Hc.
  - apply utf8_encode_length.
Qed.

Lemma utf8Codepoint_decodes_utf8_witness :
  utf8Codepoint (holding (utf8_encode 8364) (fun _ => 0)) = (3, Some 8364).
Proof.
  apply (proj1 (utf8Codepoint_decodes_utf8 8364 (fun _ => 0) ltac:(lia))).
Defined.


(** The first byte of a multi-byte encoding is above 0x7f. *)
Lemma utf8_encode_head_high c b :
  128 <= c < 2 ^ 31 -> utf8_encode c !! 0%nat = Some b -> 127 < b.
Proof.
  intros Hc Hb.
  pose proof (decode_encoded c (fun _ => 0) ltac:(lia)) as Hdec.
  destruct (Z.lt_ge_cases 127 b) as [|Hlow]; [assumption|exfalso].
  unfold utf8Codepoint in Hdec.
  assert (Hhead : holding (utf8_encode c) (fun _ => 0) 0%nat = b).
  { unfold holding. rewrite Hb. reflexivity. }
  rewrite Hhead in Hdec.
  assert (Hl : lead_len b = 1).
  { unfold lead_len. rewrite (proj2 (Z.ltb_lt b 128)) by lia. reflexivity. }
  rewrite Hl in Hdec. simpl in Hdec.
  injection Hdec as Hlen Hval. lia.
Qed.

Lemma escape_step_valid (m : Bytes) size ind i out tp c :
  valid_cp c ->
  (forall k b, utf8_encode c !! k = Some b -> m (Z.to_nat i + k)%nat = b) ->
  0 <= i -> i + 6 < 2 ^ 32 ->
  Z.of_nat (length (out ++ json_escape c)) < size -> size <= 2 ^ 32 - 14 ->
  exists tp',
    escape_step m size ind i out tp
    = inr (i + Z.of_nat (length (utf8_encode c)), out ++ json_escape c, tp').
Proof.
  intros [Hc Hne] Hm Hi Hi6 Hroom Hsize.
  rewrite length_app in Hroom.
  unfold escape_step.
  destruct (Z.lt_ge_cases c 128) as [Hascii|Hmulti].
  - (* one byte *)
    assert (Henc : utf8_encode c = [c]).
    { unfold utf8_encode. rewrite (proj2 (Z.ltb_lt c 128)) by lia.
      reflexivity. }
    assert (Hjs : json_escape c = [c]).
    { unfold json_escape. rewrite (proj2 (Z.ltb_lt c 128)) by lia.
      reflexivity. }
    rewrite Henc, Hjs in *.
    pose proof (Hm 0%nat c eq_refl) as H0. rewrite Nat.add_0_r in H0.
    rewrite H0.
    rewrite (proj2 (Z.ltb_ge 127 c)) by lia.
    simpl length in Hroom.
    rewrite (proj2 (Z.leb_gt size _)) by lia.
    rewrite u32_small by lia. eexists. reflexivity.
  - (* several bytes *)
    destruct (utf8_encode c !! 0%nat) as [b|] eqn:Hb.
    2:{ apply lookup_ge_None in Hb.
        pose proof (utf8_encode_length c). lia. }
    pose proof (Hm 0%nat b Hb) as H0. rewrite Nat.add_0_r in H0.
    rewrite H0.
    rewrite (proj2 (Z.ltb_lt 127 b))
      by (apply (utf8_encode_head_high c); [lia|exact Hb]).
    rewrite (utf8Codepoint_ext _ _ (offset_holding m i _ Hm)).
    rewrite decode_encoded by lia.
    pose proof (utf8_encode_length c) as Hlen.
    set (n := Z.of_nat (length (utf8_encode c))) in *.
    assert (H8 : int8_to_uint8 n = n).
    { unfold int8_to_uint8, u8. apply Z.mod_small. lia. }
    rewrite H8. cbn [default from_option]. unfold id.
    assert (Hnext : u32 (u32 (i + (n - 1)) + 1) = i + n).
    { rewrite (u32_small (i + (n - 1))) by lia.
      rewrite u32_small by lia. lia. }
    rewrite Hnext.
    destruct (Z.lt_ge_cases c 65535) as [Hbmp|Hsup].
    + assert (Hjs : json_escape c = escape_u c).
      { unfold json_escape.
        rewrite (proj2 (Z.ltb_ge c 128)), (proj2 (Z.ltb_lt c 65536)) by lia.
        reflexivity. }
      rewrite Hjs in *.
      destruct (escape_u_16bit c ltac:(lia)) as [Hl6 _].
      rewrite Hl6 in Hroom.
      rewrite (proj2 (Z.ltb_lt c 65535)) by lia.
      rewrite (u32_small (Z.of_nat (length out) + 7)) by lia.
      rewrite (proj2 (Z.ltb_ge size _)) by lia.
      eexists. reflexivity.
    + assert (Hjs : json_escape c
                    = escape_u (55296 + (c - 65536) / 1024)
                      ++ escape_u (56320 + (c - 65536) mod 1024)).
      { unfold json_escape.
        rewrite (proj2 (Z.ltb_ge c 128)), (proj2 (Z.ltb_ge c 65536)) by lia.
        reflexivity. }
      assert (Hq : 0 <= (c - 65536) / 1024 < 1024).
      { split; [apply Z.div_pos; lia|apply Z.div_lt_upper_bound; lia]. }
      pose proof (Z.mod_pos_bound (c - 65536) 1024 ltac:(lia)) as Hr.
      rewrite Hjs in *.
      destruct (escape_u_16bit (55296 + (c - 65536) / 1024) ltac:(lia))
        as [Hl1 _].
      destruct (escape_u_16bit (56320 + (c - 65536) mod 1024) ltac:(lia))
        as [Hl2 _].
      rewrite length_app, Hl1, Hl2 in Hroom.
      rewrite (proj2 (Z.ltb_ge c 65535)) by lia.
      rewrite (u32_small (Z.of_nat (length out) + 13)) by lia.
      rewrite (proj2 (Z.ltb_ge size _)) by lia.
      rewrite (u32_small (c - 65536)) by lia.
      rewrite Z.shiftr_div_pow2 by lia.
      change 1023 with (Z.ones 10). rewrite Z.land_ones by lia.
      change (2 ^ 10) with 1024.
      unfold u16. rewrite !Z.mod_small by lia.
      rewrite (Z.add_comm ((c - 65536) / 1024)).
      rewrite (Z.add_comm ((c - 65536) mod 1024)).
      eexists. reflexivity.
Qed.


Lemma escape_loop_valid (m : Bytes) jsonLen size ind cps :
  forall fuel i out tp,
  (length cps <= fuel)%nat ->
  Forall valid_cp cps ->
  (forall k b, concat (map utf8_encode cps) !! k = Some b ->
               m (Z.to_nat i + k)%nat = b) ->
  0 <= i ->
  jsonLen = i + Z.of_nat (length (concat (map utf8_encode cps))) ->
  jsonLen <= 2 ^ 32 - 256 ->
  Z.of_nat (length (out ++ concat (map json_escape cps))) < size ->
  size <= 2 ^ 32 - 14 ->
  exists tp',
    escape_loop fuel m jsonLen size ind i out tp
    = Some (mkEscaped
              (Z.of_nat (length (out ++ concat (map json_escape cps))))
              (out ++ concat (map json_escape cps)) tp').
Proof.
  induction cps as [|c cps IH];
    intros fuel i out tp Hfuel Hvalid Hm Hi Hlen Hfits Hroom Hsize.
  - simpl in *. rewrite app_nil_r.
    assert (Hend : (i <? jsonLen) = false) by (apply Z.ltb_ge; lia).
    destruct fuel; simpl; rewrite Hend; eexists; reflexivity.
  - destruct fuel as [|fuel]; [simpl in Hfuel; lia|].
    apply Forall_cons in Hvalid. destruct Hvalid as [Hc Hcps].
    cbn [map concat] in *.
    pose proof (utf8_encode_length c) as Hn.
    rewrite length_app in Hlen.
    cbn [escape_loop].
    rewrite (proj2 (Z.ltb_lt i _)) by lia. simpl negb. cbv iota.
    destruct (escape_step_valid m size ind i out tp c Hc) as [tp1 Hstep];
      try lia.
    { intros k b Hk. apply Hm. rewrite lookup_app_l; [exact Hk|].
      apply lookup_lt_Some in Hk. exact Hk. }
    { rewrite !length_app in *. lia. }
    rewrite Hstep.
    destruct (IH fuel (i + Z.of_nat (length (utf8_encode c)))
                 (out ++ json_escape c) tp1) as [tp2 Hrest];
      try lia; try assumption.
    { simpl in Hfuel. lia. }
    { intros k b Hk.
      replace (Z.to_nat (i + Z.of_nat (length (utf8_encode c))) + k)%nat
        with (Z.to_nat i + (length (utf8_encode c) + k))%nat by lia.
      apply Hm. rewrite lookup_app_r by lia.
      replace (length (utf8_encode c) + k - length (utf8_encode c))%nat
        with k by lia.
      exact Hk. }
    { rewrite <- app_assoc. exact Hroom. }
    exists tp2. rewrite Hrest, <- app_assoc. reflexivity.
Qed.

(** X5: on well-formed UTF-8, the encoding of any sequence of Unicode code
    points other than U+FFFF, with room for the result and one more byte,
    [escapeJSON] writes exactly the JSON escape of the text (ASCII unchanged,
    [\uXXXX] for the rest of the basic plane, a surrogate pair above it)
    and returns its length. *)
Theorem escapeJSON_escapes_utf8 (cps : list Z) (rest : Bytes) (size : Z)
        (indeterminate : Z -> Z) :
  Forall valid_cp cps ->
  Z.of_nat (length (concat (map utf8_encode cps))) <= 2 ^ 32 - 256 ->
  Z.of_nat (length (concat (map json_escape cps))) < size ->
  size <= 2 ^ 32 - 14 ->
  exists tp,
    escapeJSON (holding (concat (map utf8_encode cps)) rest)
               (Z.of_nat (length (concat (map utf8_encode cps))))
               size indeterminate
    = Some (mkEscaped (Z.of_nat (length (concat (map json_escape cps))))
                      (concat (map json_escape cps)) tp).
Proof.
  intros Hvalid Hfits Hroom Hsize. unfold escapeJSON.
  apply (escape_loop_valid _ _ _ _ cps _ 0 [] 0); try assumption; try lia.
  - rewrite Nat2Z.id.
    clear. induction cps as [|c cps IH]; simpl; [lia|].
    rewrite length_app. pose proof (utf8_encode_length c). lia.
  - intros k b Hk. unfold holding. simpl. rewrite Hk. reflexivity.
Qed.

Lemma escapeJSON_escapes_utf8_witness :
  exists tp,
    escapeJSON (holding (concat (map utf8_encode [72; 8364; 128512]))
                        (fun _ => 0))
               (Z.of_nat (length (concat (map utf8_encode [72; 8364; 128512]))))
               64 (fun _ => 0)
    = Some (mkEscaped
              (Z.of_nat (length (concat (map json_escape [72; 8364; 128512]))))
              (concat (map json_escape [72; 8364; 128512])) tp).
Proof.
  apply (escapeJSON_escapes_utf8 [72; 8364; 128512] (fun _ => 0) 64
           (fun _ => 0)).
  - repeat constructor; lia.
  - vm_compute. discriminate.
  - vm_compute. reflexivity.
  - lia.
Defined.


(** *** Malformed input *)

Lemma continuation_none (utf8 : Bytes) ks : forall acc,
  continuation utf8 ks acc = None
  <-> exists k, In k ks /\ Z.land (utf8 k) 192 <> 128.
Proof.
  induction ks as [|k ks IH]; intros acc; simpl.
  - split; [discriminate|intros (k & [] & _)].
  - destruct (Z.eqb_spec (Z.land (utf8 k) 192) 128) as [Heq|Hne]; simpl.
    + rewrite IH. split.
      * intros (j & Hj & Hbad). exists j. auto.
      * intros (j & [<-|Hj] & Hbad); [contradiction|]. exists j. auto.
    + split; [|reflexivity]. intros _. exists k. auto.
Qed.

Lemma lead_len_invalid b :
  0 <= b < 256 -> (lead_len b = -1 <-> 128 <= b < 192 \/ 254 <= b).
Proof.
  intros Hb.
  assert (H : Bool.eqb (lead_len b =? -1)
                 (((128 <=? b) && (b <? 192)) || (254 <=? b)) = true).
  { match goal with
    | |- ?lhs = true =>
        match eval pattern b in lhs with
        | ?f b => exact (below_forall 256 f eq_refl b Hb)
        end
    end. }
  apply Bool.eqb_prop in H.
  rewrite <- Z.eqb_eq, H, orb_true_iff, andb_true_iff.
  rewrite !Z.leb_le, Z.ltb_lt. tauto.
Qed.

(** X2: [utf8Codepoint] returns -1, storing nothing, exactly when the first
    byte is a continuation byte (0x80 to 0xbf) or 0xfe or 0xff, or when one
    of the bytes that the lead byte announces is not a continuation byte;
    in every other case it returns the announced length, 1 to 6, and stores
    a code point. The bytes after the announced ones are not examined. *)
Theorem utf8Codepoint_rejects (utf8 : Bytes) :
  0 <= utf8 0%nat < 256 ->
  (utf8Codepoint utf8 = (-1, None)
   <-> (128 <= utf8 0%nat < 192 \/ 254 <= utf8 0%nat
        \/ exists k, (1 <= k)%nat /\ Z.of_nat k < lead_len (utf8 0%nat)
                     /\ Z.land (utf8 k) 192 <> 128))
  /\ (utf8Codepoint utf8 <> (-1, None) ->
      exists c, utf8Codepoint utf8 = (lead_len (utf8 0%nat), Some c)
                /\ 1 <= lead_len (utf8 0%nat) <= 6).
Proof.
  intros Hb. split.
  - unfold utf8Codepoint.
    pose proof (lead_len_invalid _ Hb) as Hinv.
    destruct (lead_len_values (utf8 0%nat)) as [Hl|Hl].
    + rewrite Hl. simpl. split; [intros _|reflexivity].
      apply Hinv in Hl. tauto.
    + replace (lead_len (utf8 0%nat) =? -1) with false
        by (symmetry; apply Z.eqb_neq; lia).
      destruct (continuation utf8 _ _) as [c|] eqn:Hcont.
      * split; [intros H; inversion H; lia|].
        intros [H|[H|(k & Hk1 & Hk2 & Hbad)]];
          [assert (lead_len (utf8 0%nat) = -1) by (apply Hinv; tauto); lia
          |assert (lead_len (utf8 0%nat) = -1) by (apply Hinv; tauto); lia|].
        exfalso.
        assert (Hnone : continuation utf8
                          (seq 1 (Z.to_nat (lead_len (utf8 0%nat)) - 1))
                          (lead_bits (lead_len (utf8 0%nat)) (utf8 0%nat))
                        = None).
        { apply continuation_none. exists k. split; [|exact Hbad].
          apply in_seq. lia. }
        congruence.
      * split; [intros _|reflexivity]. right. right.
        apply continuation_none in Hcont.
        destruct Hcont as (k & Hk & Hbad). apply in_seq in Hk.
        exists k. split; [lia|]. split; [lia|exact Hbad].
  - intros Hok.
    destruct (utf8Codepoint_returns utf8 ltac:(lia)) as [H|(c & H & Hl & _)];
      [contradiction|].
    exists c. split; assumption.
Qed.

Lemma utf8Codepoint_rejects_witness :
  utf8Codepoint (holding [228; 65; 172] (fun _ => 0)) = (-1, None).
Proof.
  apply (proj1 (utf8Codepoint_rejects (holding [228; 65; 172] (fun _ => 0))
                  ltac:(split; [discriminate|reflexivity]))).
  right. right. exists 1%nat.
  split; [lia|]. split; [reflexivity|]. vm_compute. discriminate.
Defined.


(** X3: [utf8Codepoint] accepts overlong forms. For every code point below
    128 the two bytes [110000xx 10xxxxxx] that spell it out are decoded to
    it, with length 2, although the UTF-8 encoding of the code point is
    the single byte; the function checks the shape of the bytes only. *)
Theorem utf8Codepoint_accepts_overlong (c : Z) (rest : Bytes) :
  0 <= c < 128 ->
  utf8Codepoint (holding [192 + c / 64; 128 + c mod 64] rest) = (2, Some c)
  /\ utf8_encode c = [c].
Proof.
  intros Hc.
  assert (H : (let r := utf8Codepoint
                          (holding [192 + c / 64; 128 + c mod 64] rest) in
               (r.1 =? 2)
               && match r.2 with Some v => v =? c | None => false end
               && match utf8_encode c with
                  | [b] => b =? c
                  | _ => false
                  end) = true).
  { match goal with
    | |- ?lhs = true =>
        match eval pattern c in lhs with
        | ?f c => exact (below_forall 128 f eq_refl c Hc)
        end
    end. }
  cbv zeta in H. apply andb_true_iff in H. destruct H as [H Henc].
  apply andb_true_iff in H. destruct H as [Hlen Hval].
  split.
  - destruct (utf8Codepoint _) as [n [v|]]; [|discriminate].
    simpl in Hlen, Hval.
    apply Z.eqb_eq in Hlen. apply Z.eqb_eq in Hval. congruence.
  - destruct (utf8_encode c) as [|b [|b' l]]; try discriminate.
    apply Z.eqb_eq in Henc. congruence.
Qed.

Lemma utf8Codepoint_accepts_overlong_witness :
  utf8Codepoint (holding [192; 175] (fun _ => 0)) = (2, Some 47)
  /\ utf8_encode 47 = [47].
Proof.
  apply (utf8Codepoint_accepts_overlong 47 (fun _ => 0)). lia.
Defined.


(** X6: the error branch of [escapeJSON] is dead. When [utf8Codepoint]
    rejects the bytes at the start of a text of at most 255 bytes, the
    [uint8_t] that receives the -1 is 255, the [len < 0] test does not hold,
    the scan moves on by 255 bytes, past the end, and the output is the
    escape of the indeterminate value of [codepoint] alone: no byte of the
    input, however well formed after the first, is copied. *)
Theorem escapeJSON_error_skips_255 (jsonBuffer : Bytes) (jsonLen size : Z)
        (indeterminate : Z -> Z) :
  utf8Codepoint jsonBuffer = (-1, None) ->
  0 <= jsonBuffer 0%nat ->
  1 <= jsonLen <= 255 ->
  13 <= size <= 2 ^ 32 - 14 ->
  exists tp,
    escapeJSON jsonBuffer jsonLen size indeterminate
    = Some (mkEscaped (Z.of_nat (length (escape_of (indeterminate 0))))
                      (escape_of (indeterminate 0)) tp).
Proof.
  intros Hbad Hb Hlen Hsize.
  assert (Hhigh : 127 < jsonBuffer 0%nat).
  { destruct (Z.lt_ge_cases 127 (jsonBuffer 0%nat)) as [|Hlow];
      [assumption|exfalso].
    unfold utf8Codepoint in Hbad.
    assert (Hl : lead_len (jsonBuffer 0%nat) = 1).
    { unfold lead_len. rewrite (proj2 (Z.ltb_lt _ 128)) by lia. reflexivity. }
    rewrite Hl in Hbad. simpl in Hbad. discriminate. }
  unfold escapeJSON.
  destruct (Z.to_nat jsonLen) as [|fuel] eqn:Hfuel; [lia|].
  cbn [escape_loop].
  rewrite (proj2 (Z.ltb_lt 0 jsonLen)) by lia. simpl negb. cbv iota.
  unfold escape_step.
  change (Z.to_nat 0) with 0%nat.
  rewrite (proj2 (Z.ltb_lt 127 _) Hhigh).
  rewrite (utf8Codepoint_ext (offset jsonBuffer 0) jsonBuffer)
    by (intros k; reflexivity).
  rewrite Hbad.
  change (int8_to_uint8 (-1)) with 255.
  change (u32 (0 + (255 - 1))) with 254.
  change (u32 (254 + 1)) with 255.
  cbn [default from_option length]. unfold id.
  change (u32 (Z.of_nat 0 + 7)) with 7.
  change (u32 (Z.of_nat 0 + 13)) with 13.
  rewrite (proj2 (Z.ltb_ge size 7)) by lia.
  rewrite (proj2 (Z.ltb_ge size 13)) by lia.
  unfold escape_of.
  assert (Hend : forall out tp',
             escape_loop fuel jsonBuffer jsonLen size indeterminate 255 out tp'
             = Some (mkEscaped (Z.of_nat (length out)) out tp')).
  { intros out tp'. destruct fuel; simpl;
      rewrite (proj2 (Z.ltb_ge 255 jsonLen)) by lia; reflexivity. }
  destruct (indeterminate 0 <? 65535); rewrite Hend; eexists; reflexivity.
Qed.

Lemma escapeJSON_error_skips_255_witness :
  exists tp,
    escapeJSON (holding [255; 72; 105] (fun _ => 0)) 3 64 (fun _ => 7)
    = Some (mkEscaped (Z.of_nat (length (escape_of 7))) (escape_of 7) tp).
Proof.
  apply (escapeJSON_error_skips_255 (holding [255; 72; 105] (fun _ => 0)) 3 64
           (fun _ => 7)).
  - reflexivity.
  - discriminate.
  - lia.
  - lia.
Defined.

End TextFacts.

Module LEDFacts.
Import Time Solenoids LED.

Section BasicFacts.
Context {F : Type} {FloatF : Float F}.

(** The one law of the arithmetic that the driver depends on: 0 <= 0. *)
Hypothesis fle_zero : fle (f0 (F := F)) f0 = true.

Lemma loops_idle ts : forall start,
  loops (F := F) (mkBasic start 0) ts = (mkBasic start 0, []).
Proof.
  induction ts as [|t ts IH]; intros start; [reflexivity|].
  cbn [loops loop flash_durationUsec]. simpl. rewrite IH. reflexivity.
Qed.

Lemma loops_early pre : forall start duration,
  Forall (fun x => Time.getUsecSince x start < duration) pre ->
  loops (F := F) (mkBasic start duration) pre = (mkBasic start duration, []).
Proof.
  induction pre as [|t pre IH]; intros start duration Hpre; [reflexivity|].
  apply Forall_cons in Hpre. destruct Hpre as [Ht Hpre].
  assert (Hl : loop (F := F) t (mkBasic start duration)
               = (mkBasic start duration, [])).
  { unfold loop. cbn [flash_durationUsec flash_startUsec].
    destruct (duration =? 0); [reflexivity|].
    rewrite (proj2 (Z.ltb_lt _ _) Ht). reflexivity. }
  cbn [loops]. rewrite Hl, IH by exact Hpre. reflexivity.
Qed.

Lemma loops_app (b : Basic) ts1 ts2 :
  loops (F := F) b (ts1 ++ ts2)
  = let '(b1, l1) := loops b ts1 in
    let '(b2, l2) := loops b1 ts2 in
    (b2, l1 ++ l2).
Proof.
  revert b. induction ts1 as [|t ts1 IH]; intros b; simpl.
  - destruct (loops b ts2). reflexivity.
  - destruct (loop t b) as [b1 l1]. rewrite IH.
    destruct (loops b1 ts1) as [b2 l2].
    destruct (loops b2 ts2) as [b3 l3].
    rewrite app_assoc. reflexivity.
Qed.

(** X22: a flash ends once and on time. After [flash(seconds, brightness)]
    with a brightness above 0 and a duration of at least one microsecond,
    the [loop()] calls made before the duration has passed do nothing; the
    first one made when it has passed switches the LED off (fraction 0,
    timer disabled, pin low) and clears the flash; every later call does
    nothing. *)
Theorem flash_ends_once (now0 : Z) (seconds brightness : F) (b0 : Basic)
        (pre : list Z) (t : Z) (post : list Z) :
  fle brightness f0 = false ->
  0 < to_u32 (fmul (fmul seconds (lit 1000 0)) (lit 1000 0)) ->
  Forall (fun x =>
            Time.getUsecSince x now0
            < to_u32 (fmul (fmul seconds (lit 1000 0)) (lit 1000 0))) pre ->
  to_u32 (fmul (fmul seconds (lit 1000 0)) (lit 1000 0))
  <= Time.getUsecSince t now0 ->
  loops (flash now0 seconds brightness b0).1 (pre ++ t :: post)
  = (mkBasic 0 0, [Timer_setFraction f0; Timer_disable; Pin_low]).
Proof.
  intros Hbright Hduration Hpre Hdue.
  set (d := to_u32 (fmul (fmul seconds (lit 1000 0)) (lit 1000 0))) in *.
  assert (Hflash : (flash now0 seconds brightness b0).1 = mkBasic now0 d).
  { unfold flash, setBrightness. rewrite Hbright.
    destruct (fge brightness f1); reflexivity. }
  assert (Hoff : loop (F := F) t (mkBasic now0 d)
                 = (mkBasic 0 0, [Timer_setFraction f0; Timer_disable;
                                  Pin_low])).
  { unfold loop. cbn [flash_durationUsec flash_startUsec].
    rewrite (proj2 (Z.eqb_neq d 0)) by lia.
    rewrite (proj2 (Z.ltb_ge _ _) Hdue).
    unfold setBrightness. rewrite fle_zero. reflexivity. }
  rewrite Hflash, loops_app, (loops_early pre now0 d Hpre).
  cbn [loops]. rewrite Hoff, loops_idle. reflexivity.
Qed.

End BasicFacts.

#[local] Existing Instance Thousandths.

Lemma flash_ends_once_witness :
  loops (flash 1000 500 1000 (mkBasic 0 0)).1
        ([2000; 400000] ++ 501000 :: [501001; 900000])
  = (mkBasic 0 0, [Timer_setFraction f0; Timer_disable; Pin_low]).
Proof.
  apply (flash_ends_once (F := Z) (FloatF := Thousandths) eq_refl
           1000 500 1000 (mkBasic 0 0)
           [2000; 400000] 501000 [501001; 900000]).
  - reflexivity.
  - reflexivity.
  - repeat constructor.
  - vm_compute. discriminate.
Defined.

End LEDFacts.
